(** * Graph analytics of BASE_DE_DATOS: a shallow embedding

    The development follows the backend sources

      - [app/repositories/graph_repository.py]  (class [GraphRepository])
      - [app/repositories/usuario_repository.py] ([UsuarioRepository]: the
        lookup of a user, the connections, the deletion of a user, the next
        free id)
      - [app/services/graph_service.py]          (class [GraphService])
      - [app/services/usuario_service.py]        (the connections and the
        deletion of a user)
      - [app/models/dto/usuario_dto.py]          (the validators of the names)
      - [app/api/v1/routes/graph.py]             (the FastAPI routes)
      - [db/database.py]                         ([get_cursor])

    Part I embeds the code: the Python primitives the code calls ([str],
    [int], [str.strip], [str.split], [json.loads], [round]), the property
    graph held by Apache AGE together with the meaning of each Cypher query
    the repositories send, the repository and service methods written in a
    small monad that threads the query log and exceptions, the routes'
    declared parameter bounds, and, for the methods that write, a session
    with commit and rollback.  Part II fixes the vocabulary of the
    statements and the example graphs, Part III proves the properties. *)

From Stdlib Require Import ZArith List ListDec Sorted String Ascii Bool Lia Arith.
From Stdlib Require Import DecimalString DecimalZ DecimalPos DecimalFacts.
From Stdlib Require Import PrimFloat SpecFloat FloatOps.
Import ListNotations.

#[local] Set Warnings "-register-all".
#[local] Open Scope string_scope.
#[local] Open Scope list_scope.
#[local] Open Scope Z_scope.

(* ====================================================================== *)
(** * Part I.  The embedding                                               *)
(* ====================================================================== *)

(** ** Python primitives *)

Module Py.

(** Exceptions the modelled code can raise.  [HTTPException] is FastAPI's,
    [RequestValidationError] is what FastAPI raises (HTTP 422) when a
    [Query(..., ge=, le=)] bound is violated, [DatabaseError] stands for any
    psycopg error reported by the store. *)
Inductive exn : Type :=
| HTTPException (status_code : Z) (detail : string)
| RequestValidationError (param : string)
| ValidationError (field : string)
| ValueError (msg : string)
| TypeError (msg : string)
| OverflowError (msg : string)
| ZeroDivisionError
| DatabaseError (msg : string).

Inductive result (A : Type) : Type :=
| Ok (a : A)
| Raise (e : exn).
Arguments Ok {A} a.
Arguments Raise {A} e.

Definition rbind {A B} (r : result A) (k : A -> result B) : result B :=
  match r with
  | Ok a => k a
  | Raise e => Raise e
  end.

(** [[f(x) for x in l]] where [f] may raise: the first exception wins. *)
Fixpoint rmap {A B} (f : A -> result B) (l : list A) : result (list B) :=
  match l with
  | [] => Ok []
  | x :: l' => rbind (f x) (fun y => rbind (rmap f l') (fun ys => Ok (y :: ys)))
  end.

Definition HTTP_200_OK : Z := 200.
Definition HTTP_400_BAD_REQUEST : Z := 400.
Definition HTTP_404_NOT_FOUND : Z := 404.

(** *** Strings *)

(** The double quote character (code point 34). *)
Definition dquote : ascii := ascii_of_nat 34.

(** [str.isspace] on the ASCII range: TAB, LF, VT, FF, CR, FS, GS, RS, US and
    the blank.  Strings are byte strings here (the UTF-8 encoding of the
    Python text); the non-ASCII blanks Python also strips are outside the
    fragment. *)
Definition isspace (c : ascii) : bool :=
  let n := nat_of_ascii c in
  ((9 <=? n) && (n <=? 13) || (28 <=? n) && (n <=? 32))%nat.

Fixpoint lstrip_by (p : ascii -> bool) (s : string) : string :=
  match s with
  | EmptyString => EmptyString
  | String c s' => if p c then lstrip_by p s' else s
  end.

Fixpoint rstrip_by (p : ascii -> bool) (s : string) : string :=
  match s with
  | EmptyString => EmptyString
  | String c s' =>
      match rstrip_by p s' with
      | EmptyString => if p c then EmptyString else String c EmptyString
      | r => String c r
      end
  end.

(** [s.strip()] *)
Definition strip (s : string) : string :=
  rstrip_by isspace (lstrip_by isspace s).

(** [s.strip(chars)] for a one-character [chars]; the code only strips the
    double quote. *)
Definition strip_char (c : ascii) (s : string) : string :=
  rstrip_by (Ascii.eqb c) (lstrip_by (Ascii.eqb c) s).

(** [sub in s] *)
Fixpoint contains (sub s : string) : bool :=
  if String.prefix sub s then true
  else match s with
       | EmptyString => false
       | String _ s' => contains sub s'
       end.

(** [s.split(sep)[0]]: the text before the first occurrence of [sep], the
    whole of [s] when [sep] does not occur. *)
Fixpoint split_head (sep s : string) : string :=
  if String.prefix sep s then EmptyString
  else match s with
       | EmptyString => EmptyString
       | String c s' => String c (split_head sep s')
       end.

(** Truthiness of a string: [bool(s)]. *)
Definition truthy (s : string) : bool :=
  match s with EmptyString => false | _ => true end.

(** *** Integers *)

(** [str(n)] for an [int]: decimal, no leading zero, [-] for negatives. *)
Definition str_of_int (z : Z) : string :=
  NilZero.string_of_int (Z.to_int z).

(** [int(s)] for a [str]: blanks around the numeral are dropped, one
    optional sign, then at least one decimal digit; anything else is a
    [ValueError].  (The underscore digit separators of Python 3.6+ are not
    part of the fragment, and neither is CPython's refusal of numerals of
    more than 4300 digits: the integers the store returns are 64-bit.) *)
Definition int_of_str (s : string) : result Z :=
  let t := strip s in
  let bad := Raise (ValueError ("invalid literal for int() with base 10: " ++ s)%string) in
  let digits (neg : bool) (d : string) :=
    match NilZero.uint_of_string d with
    | Some u => Ok (if neg then - Z.of_uint u else Z.of_uint u)
    | None => bad
    end in
  match t with
  | String "-" d => digits true d
  | String "+" d => digits false d
  | _ => digits false t
  end.

(** *** Digits *)

Definition is_digit (c : ascii) : bool :=
  let n := nat_of_ascii c in
  ((48 <=? n) && (n <=? 57))%nat.

(** The longest prefix of digits, and what follows it. *)
Fixpoint span_digits (s : string) : string * string :=
  match s with
  | EmptyString => (EmptyString, EmptyString)
  | String c s' =>
      if is_digit c then let (d, r) := span_digits s' in (String c d, r)
      else (EmptyString, s)
  end.

(** Value of a string of digits. *)
Definition digits_value (d : string) : Z :=
  match NilEmpty.uint_of_string d with
  | Some u => Z.of_uint u
  | None => 0
  end.

(** [s.lower()] on the ASCII letters. *)
Fixpoint lower (s : string) : string :=
  match s with
  | EmptyString => EmptyString
  | String c s' =>
      let n := nat_of_ascii c in
      String (if ((65 <=? n) && (n <=? 90))%nat then ascii_of_nat (n + 32) else c)
             (lower s')
  end.

(** *** Floats *)

(** An [int] as a [float], correctly rounded. *)
Definition float_of_int (z : Z) : float :=
  SF2Prim (binary_normalize prec emax z 0 false).

(** [a / b] on two [int]s (true division).  Python rounds the exact
    quotient once; dividing the two converted operands is the same as long as
    both are below 2^53 in magnitude, which list lengths are. *)
Definition truediv (a b : Z) : result float :=
  if b =? 0 then Raise ZeroDivisionError
  else Ok (PrimFloat.div (float_of_int a) (float_of_int b)).

(** The integer nearest to [n / d] for [d > 0], ties to even. *)
Definition nearest_even (n d : Z) : Z :=
  let q := n / d in
  let r := n mod d in
  if 2 * r <? d then q
  else if d <? 2 * r then q + 1
  else if Z.even q then q else q + 1.

(** [round(x, ndigits)] for [ndigits >= 0]: the exact binary value of [x] is
    rounded to [ndigits] decimals, ties to even, and the decimal so obtained
    is converted back to the nearest float.  Infinities and NaN are returned
    unchanged. *)
Definition round (x : float) (ndigits : Z) : float :=
  match Prim2SF x with
  | S754_finite s m e =>
      let sm := if s then Z.neg m else Z.pos m in
      let p := 10 ^ ndigits in
      let n := if 0 <=? e then sm * p * 2 ^ e
               else nearest_even (sm * p) (2 ^ (- e)) in
      PrimFloat.div (float_of_int n) (float_of_int p)
  | _ => x
  end.

(** [int(x)] on a [float]: truncation towards zero. *)
Definition int_of_float (x : float) : result Z :=
  match Prim2SF x with
  | S754_zero _ => Ok 0
  | S754_finite s m e =>
      let a := if 0 <=? e then Z.pos m * 2 ^ e else Z.pos m / 2 ^ (- e) in
      Ok (if s then - a else a)
  | S754_infinity _ => Raise (OverflowError "cannot convert float infinity to integer")
  | S754_nan => Raise (ValueError "cannot convert float NaN to integer")
  end.

(** The float denoted by the decimal [m * 10^e], correctly rounded. *)
Definition float_of_decimal (neg : bool) (m : Z) (e : Z) : float :=
  let x :=
    if 0 <=? e then binary_normalize prec emax (m * 10 ^ e) 0 false
    else match m with
         | Zpos p =>
             SFdiv prec emax (S754_finite false p 0)
                   (S754_finite false (Z.to_pos (10 ^ (- e))) 0)
         | _ => S754_zero false
         end in
  let f := SF2Prim x in
  if neg then PrimFloat.opp f else f.

(** The optional exponent [e|E, sign, digits] of a decimal numeral. *)
Definition scan_exp (s : string) : option (Z * string) :=
  let digits (neg : bool) (r : string) :=
    match span_digits r with
    | (EmptyString, _) => None
    | (d, r') => Some (if neg then - digits_value d else digits_value d, r')
    end in
  match s with
  | String c r =>
      if (Ascii.eqb c "e" || Ascii.eqb c "E")%bool then
        match r with
        | String "-" r' => digits true r'
        | String "+" r' => digits false r'
        | _ => digits false r
        end
      else None
  | EmptyString => None
  end.

(** [float(s)] for a [str]: blanks around are dropped; an optional sign;
    [inf], [infinity] or [nan] in any case, or digits with an optional
    fraction (one of the two digit strings may be empty) and an optional
    exponent.  Anything else is a [ValueError].  (Underscores are not part
    of the fragment.) *)
Definition float_of_str (s : string) : result float :=
  let bad := Raise (ValueError ("could not convert string to float: " ++ s)%string) in
  let t := strip s in
  let (neg, t1) :=
    match t with
    | String "-" r => (true, r)
    | String "+" r => (false, r)
    | _ => (false, t)
    end in
  let signed (x : float) := if neg then PrimFloat.opp x else x in
  let w := lower t1 in
  if (String.eqb w "inf" || String.eqb w "infinity")%bool then Ok (signed infinity)
  else if String.eqb w "nan" then Ok (signed nan)
  else
    let (ip, t2) := span_digits t1 in
    let (fp, t3) :=
      match t2 with
      | String "." r => span_digits r
      | _ => (EmptyString, t2)
      end in
    match ip, fp with
    | EmptyString, EmptyString => bad
    | _, _ =>
        let (e, t4) :=
          match scan_exp t3 with
          | Some (e, r) => (e, r)
          | None => (0, t3)
          end in
        match t4 with
        | EmptyString =>
            Ok (float_of_decimal neg (digits_value (ip ++ fp))
                  (e - Z.of_nat (String.length fp)))
        | _ => bad
        end
    end.

(** *** Objects *)

(** The Python values the decoders see: what [json.loads] returns, plus
    [bytes]. *)
Inductive object : Type :=
| PyNone
| PyBool (b : bool)
| PyInt (z : Z)
| PyFloat (x : float)
| PyStr (s : string)
| PyBytes (b : string)
| PyList (l : list object)
| PyDict (l : list (string * object)).

(** A column of a row as psycopg hands it over: SQL NULL is [None], an
    agtype value its text. *)
Definition field : Type := option string.

Definition obj_of_field (v : field) : object :=
  match v with
  | None => PyNone
  | Some s => PyStr s
  end.

(** [str(v)] on a column. *)
Definition str_of_field (v : field) : string :=
  match v with
  | None => "None"
  | Some s => s
  end.

(** [bool(v)] on a column. *)
Definition field_truthy (v : field) : bool :=
  match v with
  | None => false
  | Some s => truthy s
  end.

(** [int(o)] *)
Definition int_of_object (o : object) : result Z :=
  match o with
  | PyInt z => Ok z
  | PyBool b => Ok (if b then 1 else 0)
  | PyFloat x => int_of_float x
  | PyStr s => int_of_str s
  | PyBytes b => int_of_str b
  | PyNone => Raise (TypeError "int() argument must be a string, a bytes-like object or a real number, not 'NoneType'")
  | PyList _ => Raise (TypeError "int() argument must be a string, a bytes-like object or a real number, not 'list'")
  | PyDict _ => Raise (TypeError "int() argument must be a string, a bytes-like object or a real number, not 'dict'")
  end.

(** [a == o] for an [int] [a]: numbers compare by value ([True] is [1]),
    anything else differs from an [int]. *)
Definition int_eq_object (a : Z) (o : object) : bool :=
  match o with
  | PyInt z => a =? z
  | PyBool b => a =? (if b then 1 else 0)
  | PyFloat x => PrimFloat.eqb (float_of_int a) x
  | _ => false
  end.

End Py.

(** ** [json.loads] *)

Module Json.
Import Py.

(** JSON blanks: space, TAB, LF, CR. *)
Definition is_ws (c : ascii) : bool :=
  match c with
  | " " | "009" | "010" | "013" => true
  | _ => false
  end%char.

Definition skip_ws (s : string) : string := lstrip_by is_ws s.

(** The integer part of a number: [0], or a digit string not starting with
    [0]; a longer digit string starting with [0] yields the [0] alone. *)
Definition scan_int_part (s : string) : option (string * string) :=
  match s with
  | String "0" r => Some ("0", r)
  | _ =>
      match span_digits s with
      | (EmptyString, _) => None
      | (d, r) => Some (d, r)
      end
  end.

(** The optional fraction [.digits]. *)
Definition scan_frac (s : string) : option (string * string) :=
  match s with
  | String "." r =>
      match span_digits r with
      | (EmptyString, _) => None
      | (d, r') => Some (d, r')
      end
  | _ => None
  end.

(** A number at the head of [s]: an [int] when it has neither fraction nor
    exponent, a [float] otherwise. *)
Definition scan_number (s : string) : option (object * string) :=
  let (neg, s1) :=
    match s with
    | String "-" r => (true, r)
    | _ => (false, s)
    end in
  match scan_int_part s1 with
  | None => None
  | Some (ip, s2) =>
      let (fp, s3) :=
        match scan_frac s2 with
        | Some (d, r) => (Some d, r)
        | None => (None, s2)
        end in
      let (ex, s4) :=
        match scan_exp s3 with
        | Some (e, r) => (Some e, r)
        | None => (None, s3)
        end in
      match fp, ex with
      | None, None =>
          Some (PyInt (if neg then - digits_value ip else digits_value ip), s2)
      | _, _ =>
          let fd := match fp with Some d => d | None => EmptyString end in
          let e := match ex with Some e => e | None => 0 end in
          Some (PyFloat (float_of_decimal neg (digits_value (ip ++ fd))
                           (e - Z.of_nat (String.length fd))), s4)
      end
  end.

Definition hex_value (c : ascii) : option Z :=
  let n := Z.of_nat (nat_of_ascii c) in
  if (48 <=? n) && (n <=? 57) then Some (n - 48)
  else if (65 <=? n) && (n <=? 70) then Some (n - 55)
  else if (97 <=? n) && (n <=? 102) then Some (n - 87)
  else None.

(** Four hexadecimal digits. *)
Definition scan_hex4 (s : string) : option (Z * string) :=
  match s with
  | String a (String b (String c (String d r))) =>
      match hex_value a, hex_value b, hex_value c, hex_value d with
      | Some x, Some y, Some z, Some w => Some (((x * 16 + y) * 16 + z) * 16 + w, r)
      | _, _, _, _ => None
      end
  | _ => None
  end.

Definition byte (n : Z) : ascii := ascii_of_nat (Z.to_nat n).

(** UTF-8 encoding of a code point. *)
Definition utf8 (n : Z) : string :=
  if n <? 128 then String (byte n) EmptyString
  else if n <? 2048 then
    String (byte (192 + n / 64)) (String (byte (128 + n mod 64)) EmptyString)
  else if n <? 65536 then
    String (byte (224 + n / 4096))
      (String (byte (128 + (n / 64) mod 64)) (String (byte (128 + n mod 64)) EmptyString))
  else
    String (byte (240 + n / 262144))
      (String (byte (128 + (n / 4096) mod 64))
         (String (byte (128 + (n / 64) mod 64)) (String (byte (128 + n mod 64)) EmptyString))).

(** The escape after a backslash [\uXXXX], with a following low surrogate
    joined to a high one. *)
Definition scan_unicode (s : string) : option (string * string) :=
  match scan_hex4 s with
  | None => None
  | Some (hi, r) =>
      let single := Some (utf8 hi, r) in
      if (55296 <=? hi) && (hi <=? 56319) then
        match r with
        | String "\" (String "u" r') =>
            match scan_hex4 r' with
            | Some (lo, r'') =>
                if (56320 <=? lo) && (lo <=? 57343)
                then Some (utf8 (65536 + (hi - 55296) * 1024 + (lo - 56320)), r'')
                else single
            | None => single
            end
        | _ => single
        end
      else single
  end.

(** The body of a string literal, after its opening quote, up to and
    including the closing quote.  Control characters are refused (strict
    mode). *)
Fixpoint scan_string (fuel : nat) (s : string) : option (string * string) :=
  match fuel with
  | O => None
  | S fuel' =>
      match s with
      | EmptyString => None
      | String c r =>
          if Ascii.eqb c dquote then Some (EmptyString, r)
          else if Ascii.eqb c "\" then
            match r with
            | String e r' =>
                let lit (x : ascii) :=
                  option_map (fun '(t, q) => (String x t, q)) (scan_string fuel' r') in
                if Ascii.eqb e dquote then lit dquote
                else match e with
                     | "\" => lit "\"
                     | "/" => lit "/"
                     | "b" => lit "008"
                     | "f" => lit "012"
                     | "n" => lit "010"
                     | "r" => lit "013"
                     | "t" => lit "009"
                     | "u" =>
                         match scan_unicode r' with
                         | Some (u, r'') =>
                             option_map (fun '(t, q) => ((u ++ t)%string, q))
                               (scan_string fuel' r'')
                         | None => None
                         end
                     | _ => None
                     end%char
            | EmptyString => None
            end
          else if (nat_of_ascii c <? 32)%nat then None
          else option_map (fun '(t, q) => (String c t, q)) (scan_string fuel' r)
      end
  end.

(** One value at the head of [s] (no leading blank), and what follows it.
    [scan_elements] reads the rest of an array once its opening bracket and
    a first non-closing character have been seen; [scan_members] likewise
    for an object.  [fuel] bounds the nesting and the number of items. *)
Fixpoint scan_value (fuel : nat) (s : string) : option (object * string) :=
  match fuel with
  | O => None
  | S fuel' =>
      match s with
      | EmptyString => None
      | String c r =>
          if Ascii.eqb c dquote then
            option_map (fun '(t, q) => (PyStr t, q)) (scan_string (S (String.length r)) r)
          else if Ascii.eqb c "[" then
            match skip_ws r with
            | String "]" r' => Some (PyList [], r')
            | r1 => scan_elements fuel' r1 []
            end
          else if Ascii.eqb c "{" then
            match skip_ws r with
            | String "}" r' => Some (PyDict [], r')
            | r1 => scan_members fuel' r1 []
            end
          else if String.prefix "null" s then Some (PyNone, substring 4 (String.length s - 4) s)
          else if String.prefix "true" s then Some (PyBool true, substring 4 (String.length s - 4) s)
          else if String.prefix "false" s then Some (PyBool false, substring 5 (String.length s - 5) s)
          else if String.prefix "NaN" s then Some (PyFloat nan, substring 3 (String.length s - 3) s)
          else if String.prefix "Infinity" s then
            Some (PyFloat infinity, substring 8 (String.length s - 8) s)
          else if String.prefix "-Infinity" s then
            Some (PyFloat neg_infinity, substring 9 (String.length s - 9) s)
          else scan_number s
      end
  end

with scan_elements (fuel : nat) (s : string) (acc : list object)
  : option (object * string) :=
  match fuel with
  | O => None
  | S fuel' =>
      match scan_value fuel' s with
      | None => None
      | Some (v, r) =>
          match skip_ws r with
          | String "]" r' => Some (PyList (rev (v :: acc)), r')
          | String "," r' => scan_elements fuel' (skip_ws r') (v :: acc)
          | _ => None
          end
      end
  end

with scan_members (fuel : nat) (s : string) (acc : list (string * object))
  : option (object * string) :=
  match fuel with
  | O => None
  | S fuel' =>
      match s with
      | String c r =>
          if Ascii.eqb c dquote then
            match scan_string (S (String.length r)) r with
            | None => None
            | Some (k, r1) =>
                match skip_ws r1 with
                | String ":" r2 =>
                    match scan_value fuel' (skip_ws r2) with
                    | None => None
                    | Some (v, r3) =>
                        match skip_ws r3 with
                        | String "}" r' => Some (PyDict (rev ((k, v) :: acc)), r')
                        | String "," r' => scan_members fuel' (skip_ws r') ((k, v) :: acc)
                        | _ => None
                        end
                    end
                | _ => None
                end
            end
          else None
      | EmptyString => None
      end
  end.

(** [json.loads(s)]: one value, blanks allowed around it, nothing else.
    [None] stands for [json.JSONDecodeError]. *)
Definition loads (s : string) : option object :=
  match scan_value (2 * String.length s + 2) (skip_ws s) with
  | Some (v, r) =>
      match skip_ws r with
      | EmptyString => Some v
      | _ => None
      end
  | None => None
  end.

End Json.

(** ** The property graph and the Cypher queries *)

Module Age.
Import Py.

(** *** Data model

    A [Usuario] vertex is identified by its [id_usuario]; a [CONECTADO] edge
    is a directed pair of user ids, a [TIENE_HOBBY] edge goes from a user id
    to a hobby id.  Each element of [conectado] is an edge of its own: its
    position in the list is its identity. *)

Record Usuario : Type := {
  id_usuario : Z;
  nombre : string;
  apellidos : string;
  edad : Z;
  latitud : float;
  longitud : float
}.

Record Hobby : Type := {
  id_hobby : Z;
  hobby_nombre : string
}.

Record Graph : Type := {
  usuarios : list Usuario;
  hobbies : list Hobby;
  conectado : list (Z * Z);
  tiene_hobby : list (Z * Z)
}.

Definition has_usuario (g : Graph) (id : Z) : bool :=
  existsb (fun u => id_usuario u =? id) (usuarios g).

Definition find_usuario (g : Graph) (id : Z) : option Usuario :=
  find (fun u => id_usuario u =? id) (usuarios g).

(** Ids are unique and every edge joins existing vertices. *)
Definition wf_graph (g : Graph) : Prop :=
  NoDup (map id_usuario (usuarios g)) /\
  NoDup (map id_hobby (hobbies g)) /\
  (forall a b, In (a, b) (conectado g) ->
     has_usuario g a = true /\ has_usuario g b = true).

(** *** agtype text *)

(** [[x0, x1, ...]] with [", "] between the items. *)
Fixpoint join (sep : string) (l : list string) : string :=
  match l with
  | [] => EmptyString
  | [x] => x
  | x :: l' => (x ++ sep ++ join sep l')%string
  end.

Definition agtype_int (z : Z) : field := Some (str_of_int z).

Definition agtype_int_list (l : list Z) : field :=
  Some ("[" ++ join ", " (map str_of_int l) ++ "]")%string.

Definition hex_digit (n : nat) : ascii :=
  ascii_of_nat (if (n <? 10)%nat then 48 + n else 87 + n).

(** A string inside an agtype text: between double quotes, with the double
    quote, the backslash and the control characters escaped. *)
Fixpoint escape (s : string) : string :=
  match s with
  | EmptyString => EmptyString
  | String c s' =>
      let n := nat_of_ascii c in
      let e (x : ascii) := String "\" (String x (escape s')) in
      if Ascii.eqb c dquote then e dquote
      else if Ascii.eqb c "\" then e "\"%char
      else if (n =? 8)%nat then e "b"%char
      else if (n =? 9)%nat then e "t"%char
      else if (n =? 10)%nat then e "n"%char
      else if (n =? 12)%nat then e "f"%char
      else if (n =? 13)%nat then e "r"%char
      else if (n <? 32)%nat then
        ("\u00" ++ String (hex_digit (n / 16)) (String (hex_digit (n mod 16)) (escape s')))%string
      else String c (escape s')
  end.

Definition agtype_string (s : string) : field :=
  Some (String dquote (escape s ++ String dquote EmptyString)).

(** A float property: the exact decimal expansion of the binary value
    (a finite double always has one).  The code only ever applies [float] to
    this text, which gives the value back. *)
Definition agtype_float (x : float) : field :=
  match Prim2SF x with
  | S754_zero s => Some (if s then "-0.0" else "0.0")
  | S754_infinity s => Some (if s then "-Infinity" else "Infinity")
  | S754_nan => Some "NaN"
  | S754_finite s m e =>
      let sign := if s then "-" else EmptyString in
      if 0 <=? e then Some (sign ++ str_of_int (Z.pos m * 2 ^ e) ++ ".0")%string
      else
        let k := Z.to_nat (- e) in
        let n := Z.pos m * 5 ^ (- e) in
        let ip := n / 10 ^ (- e) in
        let fp := str_of_int (n mod 10 ^ (- e)) in
        let pad := String.concat EmptyString (repeat "0" (k - String.length fp)) in
        Some (sign ++ str_of_int ip ++ "." ++ pad ++ fp)%string
  end.

(** *** Sorting and grouping as the queries use them *)

(** Stable insertion sort: [ORDER BY] with [le a b] true when [a] may stay
    before [b]. *)
Fixpoint insert_by {A} (le : A -> A -> bool) (x : A) (l : list A) : list A :=
  match l with
  | [] => [x]
  | y :: l' => if le x y then x :: l else y :: insert_by le x l'
  end.

Fixpoint sort_by {A} (le : A -> A -> bool) (l : list A) : list A :=
  match l with
  | [] => []
  | x :: l' => insert_by le x (sort_by le l')
  end.

(** [LIMIT n]: PostgreSQL refuses a negative count. *)
Definition limit {A} (n : Z) (rows : list A) : result (list A) :=
  if n <? 0 then Raise (DatabaseError "LIMIT must not be negative")
  else Ok (firstn (Z.to_nat n) rows).

(** *** Pattern matching on [CONECTADO] *)

(** [(v)-[:CONECTADO]->(w)] *)
Definition out_neighbors (g : Graph) (v : Z) : list Z :=
  map snd (filter (fun e => fst e =? v) (conectado g)).

Fixpoint indexed {A} (i : nat) (l : list A) : list (nat * A) :=
  match l with
  | [] => []
  | x :: l' => (i, x) :: indexed (S i) l'
  end.

(** [(v)-[:CONECTADO]-(w)]: every edge with an end at [v], in either
    direction, with the edge's identity. *)
Definition steps (g : Graph) (v : Z) : list (nat * Z) :=
  flat_map (fun '(i, (a, b)) =>
              (if a =? v then [(i, b)] else []) ++
              (if b =? v then [(i, a)] else []))
           (indexed 0 (conectado g)).

(** [(v)-[:CONECTADO*n]-()]: the vertex sequences of the chains of exactly
    [n] edges that start at [v].  As Cypher prescribes, no edge is used twice
    in one match; [used] holds the edges already taken. *)
Fixpoint trails (g : Graph) (n : nat) (v : Z) (used : list nat) : list (list Z) :=
  match n with
  | O => [[v]]
  | S n' =>
      flat_map (fun '(i, w) =>
                  if existsb (Nat.eqb i) used then []
                  else map (cons v) (trails g n' w (i :: used)))
               (steps g v)
  end.

(** [MATCH path = (origen:Usuario {id_usuario: o})-[:CONECTADO*n]-
                   (destino:Usuario {id_usuario: d})] *)
Definition match_paths (g : Graph) (o d : Z) (n : nat) : list (list Z) :=
  if has_usuario g o && has_usuario g d then
    filter (fun p => last p o =? d) (trails g n o [])
  else [].

(** *** The queries, one per statement sent by the repositories *)

(** [RETURN path LIMIT 1] of [find_shortest_path].  The text of a path is
    never inspected by the code beyond its truth value; it is rendered here
    as the list of the ids on it with the [::path] tag. *)
Record PathRow : Type := { path : field }.

Definition agtype_path (p : list Z) : field :=
  Some (str_of_field (agtype_int_list p) ++ "::path")%string.

Definition path_query (g : Graph) (o d depth : Z) : result (list PathRow) :=
  Ok (map (fun p => {| path := agtype_path p |})
          (firstn 1 (match_paths g o d (Z.to_nat depth)))).

(** [WITH path LIMIT 1 UNWIND nodes(path) AS node
     RETURN node.id_usuario, node.nombre, node.apellidos] *)
Record PathNodeRow : Type := {
  pn_id_usuario : field;
  pn_nombre : field;
  pn_apellidos : field
}.

(** A string property of the vertex [v], null when [v] is no [Usuario]. *)
Definition name_field (g : Graph) (proj : Usuario -> string) (v : Z) : field :=
  match find_usuario g v with
  | Some u => agtype_string (proj u)
  | None => None
  end.

Definition path_node_row (g : Graph) (v : Z) : PathNodeRow :=
  {| pn_id_usuario := agtype_int v;
     pn_nombre := name_field g nombre v;
     pn_apellidos := name_field g apellidos v |}.

Definition path_nodes_query (g : Graph) (o d depth : Z) : result (list PathNodeRow) :=
  Ok (flat_map (map (path_node_row g))
               (firstn 1 (match_paths g o d (Z.to_nat depth)))).

(** The friend-of-friend statement of
    [get_friend_of_friend_recommendations]:

    [MATCH (user:Usuario {id_usuario: u})-[:CONECTADO]->(friend:Usuario)
           -[:CONECTADO]->(fof:Usuario)
     WHERE user.id_usuario <> fof.id_usuario
       AND NOT EXISTS((user)-[:CONECTADO]->(fof))]

    as the list of the pairs (fof, friend) matched.  The two edges of a match
    are always distinct: they could only coincide on a loop at [u], and then
    [fof] is [u], which the [WHERE] clause removes. *)
Definition fof_matches (g : Graph) (u : Z) : list (Z * Z) :=
  if has_usuario g u then
    flat_map (fun friend =>
                map (fun fof => (fof, friend))
                    (filter (fun fof =>
                               has_usuario g fof &&
                               negb (u =? fof) &&
                               negb (existsb (Z.eqb fof) (out_neighbors g u)))
                            (out_neighbors g friend)))
             (filter (has_usuario g) (out_neighbors g u))
  else [].

(** [WITH key, collect(DISTINCT value) AS values]: one group per distinct
    key, holding the distinct values matched with it. *)
Definition collect_distinct {K} (eq_dec : forall a b : K, {a = b} + {a <> b})
  (l : list (K * Z)) : list (K * list Z) :=
  map (fun k => (k, nodup Z.eq_dec
                      (map snd (filter (fun p => if eq_dec (fst p) k then true else false) l))))
      (nodup eq_dec (map fst l)).

Definition size {A} (l : list A) : Z := Z.of_nat (List.length l).

Record FofRow : Type := {
  fr_id_usuario : field;
  fr_nombre : field;
  fr_apellidos : field;
  fr_common_friends : field
}.

(** [WITH fof, collect(DISTINCT friend.id_usuario) AS common_friends
     WHERE size(common_friends) >= min_common
     RETURN fof.id_usuario, fof.nombre, fof.apellidos, common_friends
     ORDER BY size(common_friends) DESC
     LIMIT limit] *)
Definition fof_groups (g : Graph) (u min_common : Z) : list (Z * list Z) :=
  sort_by (fun a b => size (snd b) <=? size (snd a))
    (filter (fun grp => min_common <=? size (snd grp))
       (collect_distinct Z.eq_dec (fof_matches g u))).

Definition fof_row (g : Graph) (grp : Z * list Z) : FofRow :=
  {| fr_id_usuario := agtype_int (fst grp);
     fr_nombre := name_field g nombre (fst grp);
     fr_apellidos := name_field g apellidos (fst grp);
     fr_common_friends := agtype_int_list (snd grp) |}.

Definition fof_query (g : Graph) (u lim min_common : Z) : result (list FofRow) :=
  rbind (limit lim (fof_groups g u min_common))
        (fun grps => Ok (map (fof_row g) grps)).

(** The node statement of [get_ego_subgraph]:

    [MATCH (center:Usuario {id_usuario: c})-[:CONECTADO*1..depth]-(u:Usuario)
     OPTIONAL MATCH (u)-[:TIENE_HOBBY]->(h:Hobby)
     RETURN DISTINCT u.id_usuario, u.nombre, u.apellidos, u.edad,
                     u.latitud, u.longitud, h.nombre
     LIMIT max_nodes] *)
Record EgoNodeRow : Type := {
  en_id_usuario : field;
  en_nombre : field;
  en_apellidos : field;
  en_edad : field;
  en_latitud : field;
  en_longitud : field;
  en_hobby : field
}.

(** The vertices at the far end of a chain of 1 to [depth] edges from [c],
    one occurrence per chain. *)
Definition ego_reached (g : Graph) (c : Z) (depth : Z) : list Z :=
  if has_usuario g c then
    flat_map (fun n => map (fun p => last p c) (trails g n c []))
             (seq 1 (Z.to_nat depth))
  else [].

(** [OPTIONAL MATCH (u)-[:TIENE_HOBBY]->(h:Hobby)]: the hobby names of [v],
    a single null when there is none. *)
Definition hobby_names (g : Graph) (v : Z) : list field :=
  match flat_map (fun '(a, h) =>
                    if a =? v then
                      map (fun hb => agtype_string (hobby_nombre hb))
                          (filter (fun hb => id_hobby hb =? h) (hobbies g))
                    else [])
                 (tiene_hobby g) with
  | [] => [None]
  | l => l
  end.

Definition ego_node_rows (g : Graph) (v : Z) : list EgoNodeRow :=
  flat_map (fun u =>
              map (fun h =>
                     {| en_id_usuario := agtype_int (id_usuario u);
                        en_nombre := agtype_string (nombre u);
                        en_apellidos := agtype_string (apellidos u);
                        en_edad := agtype_int (edad u);
                        en_latitud := agtype_float (latitud u);
                        en_longitud := agtype_float (longitud u);
                        en_hobby := h |})
                  (hobby_names g v))
           (filter (fun u => id_usuario u =? v) (usuarios g)).

Definition field_eq_dec (a b : field) : {a = b} + {a <> b}.
Proof. decide equality. apply string_dec. Defined.

Definition EgoNodeRow_eq_dec (a b : EgoNodeRow) : {a = b} + {a <> b}.
Proof. decide equality; apply field_eq_dec. Defined.

Definition ego_nodes_query (g : Graph) (c depth max_nodes : Z)
  : result (list EgoNodeRow) :=
  limit max_nodes
    (nodup EgoNodeRow_eq_dec (flat_map (ego_node_rows g) (ego_reached g c depth))).

(** The edge statement of [get_ego_subgraph]:

    [MATCH (n1:Usuario)-[:CONECTADO]->(n2:Usuario)
     WHERE n1.id_usuario IN [ids] AND n2.id_usuario IN [ids]
     RETURN DISTINCT n1.id_usuario AS source, n2.id_usuario AS target] *)
Record EgoEdgeRow : Type := {
  ee_source : field;
  ee_target : field
}.

Definition pair_eq_dec (a b : Z * Z) : {a = b} + {a <> b}.
Proof. decide equality; apply Z.eq_dec. Defined.

Definition mem (x : Z) (l : list Z) : bool := existsb (Z.eqb x) l.

Definition ego_edges (g : Graph) (ids : list Z) : list (Z * Z) :=
  nodup pair_eq_dec
    (filter (fun e => has_usuario g (fst e) && has_usuario g (snd e) &&
                      mem (fst e) ids && mem (snd e) ids)
            (conectado g)).

Definition ego_edges_query (g : Graph) (ids : list Z) : result (list EgoEdgeRow) :=
  Ok (map (fun e => {| ee_source := agtype_int (fst e);
                       ee_target := agtype_int (snd e) |})
          (ego_edges g ids)).

(** The statement of [detect_communities_by_hobby]:

    [MATCH (u:Usuario)-[:TIENE_HOBBY]->(h:Hobby)
     WITH h.id_hobby AS id_hobby, h.nombre AS nombre,
          collect(DISTINCT u.id_usuario) AS members
     WHERE size(members) > 1
     RETURN id_hobby, nombre, members
     ORDER BY size(members) DESC] *)
Record CommunityRow : Type := {
  cr_community_id : field;
  cr_hobby_name : field;
  cr_members : field
}.

Definition hobby_key_eq_dec (a b : Z * string) : {a = b} + {a <> b}.
Proof. decide equality; [apply string_dec | apply Z.eq_dec]. Defined.

(** The matches, as (grouping key, user id). *)
Definition hobby_matches (g : Graph) : list ((Z * string) * Z) :=
  flat_map (fun '(a, h) =>
              if has_usuario g a then
                map (fun hb => ((id_hobby hb, hobby_nombre hb), a))
                    (filter (fun hb => id_hobby hb =? h) (hobbies g))
              else [])
           (tiene_hobby g).

Definition hobby_groups (g : Graph) : list ((Z * string) * list Z) :=
  sort_by (fun a b => size (snd b) <=? size (snd a))
    (filter (fun grp => 1 <? size (snd grp))
       (collect_distinct hobby_key_eq_dec (hobby_matches g))).

Definition communities_query (g : Graph) : result (list CommunityRow) :=
  Ok (map (fun grp => {| cr_community_id := agtype_int (fst (fst grp));
                         cr_hobby_name := agtype_string (snd (fst grp));
                         cr_members := agtype_int_list (snd grp) |})
          (hobby_groups g)).

(** The statement of [get_all_connections]:

    [MATCH (u:Usuario)
     OPTIONAL MATCH (u)-[:CONECTADO]->(c:Usuario)
     RETURN u.id_usuario AS id_usuario,
            collect(DISTINCT c.id_usuario) AS conexiones
     ORDER BY u.id_usuario]

    [collect] skips the null of a user without outgoing edge, whose list is
    then empty. *)
Record ConnectionsRow : Type := {
  cn_id_usuario : field;
  cn_conexiones : field
}.

Definition connection_groups (g : Graph) : list (Z * list Z) :=
  map (fun id => (id, nodup Z.eq_dec
                        (filter (has_usuario g) (out_neighbors g id))))
      (sort_by Z.leb (nodup Z.eq_dec (map id_usuario (usuarios g)))).

Definition connections_query (g : Graph) : result (list ConnectionsRow) :=
  Ok (map (fun grp => {| cn_id_usuario := agtype_int (fst grp);
                         cn_conexiones := agtype_int_list (snd grp) |})
          (connection_groups g)).

(** The statement of [UsuarioRepository.find_by_id], as the vertices it
    matches: [MATCH (u:Usuario) WHERE u.id_usuario = id ...]. *)
Definition usuario_query (g : Graph) (id : Z) : result (list Usuario) :=
  Ok (filter (fun u => id_usuario u =? id) (usuarios g)).

End Age.

(** ** The store session

    A computation reads the graph, appends to the log of the statements it
    has executed, and either returns or raises.  The log is what an observer
    of the connection sees; it is kept when an exception is raised. *)

Module Store.
Import Py Age.

Inductive query : Type :=
| QUsuarioById (id : Z)
| QPathExists (o d depth : Z)
| QPathNodes (o d depth : Z)
| QFriendOfFriend (u lim min_common : Z)
| QEgoNodes (c depth max_nodes : Z)
| QEgoEdges (ids : list Z)
| QCommunities
| QAllConnections.

Definition M (A : Type) : Type := Graph -> list query -> result A * list query.

Definition ret {A} (a : A) : M A := fun _ log => (Ok a, log).

Definition raise {A} (e : exn) : M A := fun _ log => (Raise e, log).

Definition bind {A B} (m : M A) (k : A -> M B) : M B :=
  fun g log =>
    match m g log with
    | (Ok a, log') => k a g log'
    | (Raise e, log') => (Raise e, log')
    end.

(** A computation that does not touch the store. *)
Definition lift {A} (r : result A) : M A := fun _ log => (r, log).

(** [cursor.execute(q)] followed by a fetch: the statement is logged and its
    rows are those its meaning [sem] gives on the graph. *)
Definition execute {R} (q : query) (sem : Graph -> result (list R)) : M (list R) :=
  fun g log => (sem g, log ++ [q]).

(** Run a request on a fresh log. *)
Definition run {A} (m : M A) (g : Graph) : result A * list query := m g [].

Definition path_exists (o d depth : Z) : M (list PathRow) :=
  execute (QPathExists o d depth) (fun g => path_query g o d depth).

Definition path_nodes (o d depth : Z) : M (list PathNodeRow) :=
  execute (QPathNodes o d depth) (fun g => path_nodes_query g o d depth).

Definition friend_of_friend (u lim min_common : Z) : M (list FofRow) :=
  execute (QFriendOfFriend u lim min_common) (fun g => fof_query g u lim min_common).

Definition ego_nodes (c depth max_nodes : Z) : M (list EgoNodeRow) :=
  execute (QEgoNodes c depth max_nodes) (fun g => ego_nodes_query g c depth max_nodes).

Definition ego_edges (ids : list Z) : M (list EgoEdgeRow) :=
  execute (QEgoEdges ids) (fun g => ego_edges_query g ids).

Definition communities : M (list CommunityRow) :=
  execute QCommunities communities_query.

Definition all_connections : M (list ConnectionsRow) :=
  execute QAllConnections connections_query.

Definition usuario_by_id (id : Z) : M (list Usuario) :=
  execute (QUsuarioById id) (fun g => usuario_query g id).

(** A path probe is one of the two statements of [find_shortest_path]. *)
Definition is_path_probe (q : query) : bool :=
  match q with
  | QPathExists _ _ _ | QPathNodes _ _ _ => true
  | _ => false
  end.

End Store.

Declare Scope store_scope.
Delimit Scope store_scope with store.
Notation "x <- m ;; k" := (Store.bind m (fun x => k))
  (at level 61, m at next level, right associativity) : store_scope.
Notation "' p <- m ;; k" := (Store.bind m (fun p => k))
  (at level 61, p pattern, m at next level, right associativity) : store_scope.

(** ** [app/repositories/usuario_repository.py] *)

Module UsuarioRepository.
Import Py Age Store.
#[local] Open Scope store_scope.

(** [find_by_id]: the dictionary of the first row, [None] when the statement
    matches nothing.  The dictionary is represented by the vertex it was
    decoded from: callers in the graph service only test it for truth, and
    it always carries the [hobby] and [conexiones] keys, so it is true
    whenever it is there. *)
Definition find_by_id (id : Z) : M (option Usuario) :=
  rows <- usuario_by_id id ;;
  ret (hd_error rows).

End UsuarioRepository.

(** ** [app/repositories/graph_repository.py] *)

Module GraphRepository.
Import Py Age Store.
#[local] Open Scope store_scope.

(** [[int(item) for item in l if item is not None]] *)
Definition ints_of (l : list object) : result (list Z) :=
  rmap int_of_object
       (filter (fun item => match item with PyNone => false | _ => true end) l).

Definition _parse_agtype_array (agtype_value : object) : result (list Z) :=
  match agtype_value with
  | PyNone => Ok []
  | _ =>
      let agtype_value :=
        match agtype_value with
        | PyBytes b => PyStr b
        | _ => agtype_value
        end in
      match agtype_value with
      | PyList l => ints_of l
      | PyStr s =>
          let clean_value := strip s in
          if (negb (truthy clean_value) || String.eqb clean_value "[]")%bool then Ok []
          else
            let clean_value :=
              if contains "::" clean_value
              then strip (split_head "::" clean_value)
              else clean_value in
            match Json.loads clean_value with
            | Some (PyList array_data) => ints_of array_data
            | Some _ => Ok []
            | None => Ok []
            end
      | _ => Ok []
      end
  end.

Definition _parse_agtype (agtype_value : field) : object :=
  match agtype_value with
  | None => PyNone
  | Some _ =>
      let agtype_str := str_of_field agtype_value in
      match Json.loads agtype_str with
      | Some v => v
      | None => PyStr agtype_str
      end
  end.

Definition color_map : list (string * string) :=
  [ ("futbol", "#ff6b6b"); ("basquetbol", "#ee5a6f"); ("tenis", "#f06595");
    ("pintura", "#4ecdc4"); ("escultura", "#45b7d1"); ("fotografia", "#96ceb4");
    ("guitarra", "#feca57"); ("piano", "#ff9ff3");
    ("lectura", "#54a0ff"); ("cocina", "#48dbfb") ].

Definition _get_hobby_color (hobby_name : option string) : string :=
  match hobby_name with
  | None => "#95a5a6"
  | Some h =>
      if negb (truthy h) then "#95a5a6"
      else
        match find (fun kv => String.eqb (fst kv) (lower h)) color_map with
        | Some kv => snd kv
        | None => "#95a5a6"
        end
  end.

(** [int(str(v).strip(QUOTE))] *)
Definition int_field (v : field) : result Z :=
  int_of_str (strip_char dquote (str_of_field v)).

(** [str(v).strip(QUOTE)] *)
Definition str_field (v : field) : string :=
  strip_char dquote (str_of_field v).

(** *** Shortest path *)

Record PathNode : Type := {
  pn_id : Z;
  nombre_completo : string
}.

Definition path_node (row : PathNodeRow) : result PathNode :=
  rbind (int_field (pn_id_usuario row)) (fun id_usuario =>
  let nombre := str_field (pn_nombre row) in
  let apellidos := str_field (pn_apellidos row) in
  Ok {| pn_id := id_usuario;
        nombre_completo := (nombre ++ " " ++ apellidos)%string |}).

(** The body of [for depth in range(1, max_depth + 1)], over the depths
    still to try. *)
Fixpoint find_from (origen destino : Z) (depths : list Z)
  : M (option (list PathNode)) :=
  match depths with
  | [] => ret None
  | depth :: rest =>
      rows <- path_exists origen destino depth ;;
      match hd_error rows with
      | Some result =>
          if field_truthy (path result) then
            node_results <- path_nodes origen destino depth ;;
            path <- lift (rmap path_node node_results) ;;
            ret (match path with [] => None | _ => Some path end)
          else find_from origen destino rest
      | None => find_from origen destino rest
      end
  end.

(** [range(1, n + 1)] *)
Definition range1 (n : Z) : list Z := map Z.of_nat (seq 1 (Z.to_nat n)).

Definition find_shortest_path (id_usuario_origen id_usuario_destino max_depth : Z)
  : M (option (list PathNode)) :=
  find_from id_usuario_origen id_usuario_destino (range1 max_depth).

(** *** Recommendations *)

Record TempResult : Type := {
  tr_id_usuario : Z;
  tr_nombre : string;
  tr_apellidos : string;
  tr_common_friends : list Z;
  tr_common_count : Z
}.

Record Recommendation : Type := {
  rec_id_usuario : Z;
  rec_nombre_completo : string;
  common_friends : Z;
  common_friends_ids : list Z;
  score : float
}.

(** The first loop: rows decoded in order, [max_common] raised on the way. *)
Fixpoint process_rows (results : list FofRow) (max_common : Z)
  (temp_results : list TempResult) : result (list TempResult * Z) :=
  match results with
  | [] => Ok (temp_results, max_common)
  | row :: rest =>
      rbind (int_field (fr_id_usuario row)) (fun id_usuario_rec =>
      let nombre := str_field (fr_nombre row) in
      let apellidos := str_field (fr_apellidos row) in
      let common_friends_raw := str_of_field (fr_common_friends row) in
      rbind (_parse_agtype_array (PyStr common_friends_raw)) (fun common_friends =>
      let common_count := size common_friends in
      let max_common := if max_common <? common_count then common_count else max_common in
      process_rows rest max_common
        (temp_results ++ [ {| tr_id_usuario := id_usuario_rec;
                              tr_nombre := nombre;
                              tr_apellidos := apellidos;
                              tr_common_friends := common_friends;
                              tr_common_count := common_count |} ])))
  end.

(** The second loop: one scored entry per decoded row. *)
Definition score_item (max_common : Z) (item : TempResult) : result Recommendation :=
  rbind (truediv (tr_common_count item) max_common) (fun q =>
  Ok {| rec_id_usuario := tr_id_usuario item;
        rec_nombre_completo := (tr_nombre item ++ " " ++ tr_apellidos item)%string;
        common_friends := tr_common_count item;
        common_friends_ids := tr_common_friends item;
        score := round q 2 |}).

Definition get_friend_of_friend_recommendations (id_usuario lim min_common_friends : Z)
  : M (list Recommendation) :=
  results <- friend_of_friend id_usuario lim min_common_friends ;;
  match results with
  | [] => ret []
  | _ =>
      '(temp_results, max_common) <- lift (process_rows results 1 []) ;;
      lift (rmap (score_item max_common) temp_results)
  end.

(** *** Ego subgraph *)

Record NodeMetadata : Type := {
  md_edad : Z;
  md_hobby : option string;
  md_latitud : float;
  md_longitud : float
}.

Record GraphNode : Type := {
  node_id : string;
  node_label : string;
  node_x : float;
  node_y : float;
  node_size : Z;
  node_color : string;
  node_metadata : NodeMetadata
}.

Record GraphEdge : Type := {
  edge_id : string;
  edge_source : string;
  edge_target : string;
  edge_size : Z;
  edge_color : string
}.

Record GraphData : Type := {
  nodes : list GraphNode;
  edges : list GraphEdge
}.

(** [node_ids.add(x)] on a set kept as a list without repetition.  The order
    of the list stands for the order in which Python iterates the set when
    the edge statement is written; the statement only tests membership in
    the list, so its rows do not depend on that order. *)
Definition set_add (x : Z) (l : list Z) : list Z :=
  if mem x l then l else l ++ [x].

(** One turn of the node loop: the id of the node and its dictionary. *)
Definition ego_node (row : EgoNodeRow) : result (Z * GraphNode) :=
  rbind (int_field (en_id_usuario row)) (fun id_usuario_node =>
  let nombre := str_field (en_nombre row) in
  let apellidos := str_field (en_apellidos row) in
  rbind (int_field (en_edad row)) (fun edad =>
  rbind (float_of_str (str_field (en_latitud row))) (fun latitud =>
  rbind (float_of_str (str_field (en_longitud row))) (fun longitud =>
  let hobby := if field_truthy (en_hobby row)
               then Some (str_field (en_hobby row)) else None in
  Ok (id_usuario_node,
      {| node_id := str_of_int id_usuario_node;
         node_label := (nombre ++ " " ++ apellidos)%string;
         node_x := PrimFloat.mul latitud (float_of_int 100);
         node_y := PrimFloat.mul longitud (float_of_int 100);
         node_size := 10;
         node_color := _get_hobby_color hobby;
         node_metadata := {| md_edad := edad; md_hobby := hobby;
                             md_latitud := latitud; md_longitud := longitud |} |}))))).

(** The node loop: [nodes] and [node_ids] grown row by row. *)
Fixpoint ego_node_loop (node_results : list EgoNodeRow) (nodes : list GraphNode)
  (node_ids : list Z) : result (list GraphNode * list Z) :=
  match node_results with
  | [] => Ok (nodes, node_ids)
  | row :: rest =>
      rbind (ego_node row) (fun '(id_usuario_node, node) =>
      ego_node_loop rest (nodes ++ [node]) (set_add id_usuario_node node_ids))
  end.

(** One turn of the edge loop, [i] being the index [enumerate] gives. *)
Definition ego_edge (i : nat) (row : EgoEdgeRow) : result GraphEdge :=
  rbind (int_field (ee_source row)) (fun source =>
  rbind (int_field (ee_target row)) (fun target =>
  Ok {| edge_id := ("e" ++ str_of_int (Z.of_nat i))%string;
        edge_source := str_of_int source;
        edge_target := str_of_int target;
        edge_size := 1;
        edge_color := "#cccccc" |})).

Definition get_ego_subgraph (id_usuario depth max_nodes : Z) : M GraphData :=
  node_results <- ego_nodes id_usuario depth max_nodes ;;
  '(nodes, node_ids) <- lift (ego_node_loop node_results [] []) ;;
  match node_ids with
  | [] => ret {| nodes := nodes; edges := [] |}
  | _ =>
      edge_results <- Store.ego_edges node_ids ;;
      edges <- lift (rmap (fun '(i, row) => ego_edge i row) (indexed 0 edge_results)) ;;
      ret {| nodes := nodes; edges := edges |}
  end.

(** *** Communities *)

Record Community : Type := {
  community_id : Z;
  hobby_name : string;
  members : list Z;
  community_size : Z;
  density : option float
}.

Definition community (row : CommunityRow) : result Community :=
  rbind (int_field (cr_community_id row)) (fun community_id =>
  let hobby_name := str_field (cr_hobby_name row) in
  let members_raw := str_of_field (cr_members row) in
  rbind (_parse_agtype_array (PyStr members_raw)) (fun members =>
  Ok {| community_id := community_id;
        hobby_name := hobby_name;
        members := members;
        community_size := size members;
        density := None |})).

Definition detect_communities_by_hobby : M (list Community) :=
  results <- Store.communities ;;
  lift (rmap community results).

(** *** All connections *)

Record Conexiones : Type := {
  cx_id_usuario : object;
  conexiones : list Z
}.

(** The loop of [get_all_connections]: rows decoded in order, those left
    with no connection skipped. *)
Fixpoint connections_loop (results : list ConnectionsRow) (conexiones_list : list Conexiones)
  : result (list Conexiones) :=
  match results with
  | [] => Ok conexiones_list
  | row :: rest =>
      let id_usuario_raw := cn_id_usuario row in
      let conexiones_raw := cn_conexiones row in
      let id_usuario := _parse_agtype id_usuario_raw in
      rbind (_parse_agtype_array (obj_of_field conexiones_raw)) (fun conexiones =>
      let conexiones := filter (fun c => negb (int_eq_object c id_usuario)) conexiones in
      connections_loop rest
        (match conexiones with
         | [] => conexiones_list
         | _ => conexiones_list ++ [ {| cx_id_usuario := id_usuario;
                                        conexiones := conexiones |} ]
         end))
  end.

Definition get_all_connections : M (list Conexiones) :=
  results <- Store.all_connections ;;
  lift (connections_loop results []).

End GraphRepository.

(** ** [app/services/graph_service.py] *)

Module GraphService.
Import Py Age Store.
#[local] Open Scope store_scope.

Record ShortestPathResponseDTO : Type := {
  sp_status_code : Z;
  sp_message : string;
  sp_path : list GraphRepository.PathNode;
  sp_length : Z;
  sp_exists : bool
}.

Definition get_shortest_path (id_usuario_origen id_usuario_destino max_depth : Z)
  : M ShortestPathResponseDTO :=
  usuario_origen <- UsuarioRepository.find_by_id id_usuario_origen ;;
  match usuario_origen with
  | None =>
      raise (HTTPException HTTP_404_NOT_FOUND
               ("Usuario origen con ID " ++ str_of_int id_usuario_origen ++ " no encontrado")%string)
  | Some _ =>
      usuario_destino <- UsuarioRepository.find_by_id id_usuario_destino ;;
      match usuario_destino with
      | None =>
          raise (HTTPException HTTP_404_NOT_FOUND
                   ("Usuario destino con ID " ++ str_of_int id_usuario_destino ++ " no encontrado")%string)
      | Some _ =>
          path <- GraphRepository.find_shortest_path
                    id_usuario_origen id_usuario_destino max_depth ;;
          match path with
          | None | Some [] =>
              ret {| sp_status_code := HTTP_200_OK;
                     sp_message := "No existe un camino entre los usuarios";
                     sp_path := [];
                     sp_length := 0;
                     sp_exists := false |}
          | Some path =>
              ret {| sp_status_code := HTTP_200_OK;
                     sp_message := ("Camino más corto encontrado (" ++
                                    str_of_int (size path - 1) ++ " saltos)")%string;
                     sp_path := path;
                     sp_length := size path - 1;
                     sp_exists := true |}
          end
      end
  end.

Record RecommendationsResponseDTO : Type := {
  rr_status_code : Z;
  rr_message : string;
  rr_user_id : Z;
  recommendations : list GraphRepository.Recommendation;
  rr_total : Z
}.

Definition get_recommendations (id_usuario lim min_common_friends : Z)
  : M RecommendationsResponseDTO :=
  usuario <- UsuarioRepository.find_by_id id_usuario ;;
  match usuario with
  | None =>
      raise (HTTPException HTTP_404_NOT_FOUND
               ("Usuario con ID " ++ str_of_int id_usuario ++ " no encontrado")%string)
  | Some _ =>
      recommendations <- GraphRepository.get_friend_of_friend_recommendations
                           id_usuario lim min_common_friends ;;
      ret {| rr_status_code := HTTP_200_OK;
             rr_message := ("Encontradas " ++ str_of_int (size recommendations) ++
                            " recomendaciones")%string;
             rr_user_id := id_usuario;
             recommendations := recommendations;
             rr_total := size recommendations |}
  end.

Record GraphStatsDTO : Type := {
  total_nodes : Z;
  total_edges : Z;
  stats_density : float;
  avg_degree : float
}.

Record GraphResponseDTO : Type := {
  gr_status_code : Z;
  gr_message : string;
  graph : GraphRepository.GraphData;
  stats : GraphStatsDTO
}.

Definition get_ego_graph (id_usuario depth max_nodes : Z) : M GraphResponseDTO :=
  usuario <- UsuarioRepository.find_by_id id_usuario ;;
  match usuario with
  | None =>
      raise (HTTPException HTTP_404_NOT_FOUND
               ("Usuario con ID " ++ str_of_int id_usuario ++ " no encontrado")%string)
  | Some _ =>
      if ((depth <? 1) || (3 <? depth))%bool then
        raise (HTTPException HTTP_400_BAD_REQUEST
                 "El parámetro 'depth' debe estar entre 1 y 3")
      else if ((max_nodes <? 10) || (2000 <? max_nodes))%bool then
        raise (HTTPException HTTP_400_BAD_REQUEST
                 "El parámetro 'max_nodes' debe estar entre 10 y 2000")
      else
        graph_data <- GraphRepository.get_ego_subgraph id_usuario depth max_nodes ;;
        let total_nodes := size (GraphRepository.nodes graph_data) in
        let total_edges := size (GraphRepository.edges graph_data) in
        let avg_degree :=
          if 0 <? total_nodes
          then PrimFloat.div (float_of_int (2 * total_edges)) (float_of_int total_nodes)
          else float_of_int 0 in
        let max_edges :=
          PrimFloat.div (float_of_int (total_nodes * (total_nodes - 1))) (float_of_int 2) in
        let density :=
          if PrimFloat.ltb (float_of_int 0) max_edges
          then PrimFloat.div (float_of_int total_edges) max_edges
          else float_of_int 0 in
        ret {| gr_status_code := HTTP_200_OK;
               gr_message := ("Subgrafo ego obtenido (" ++ str_of_int total_nodes ++
                              " nodos, " ++ str_of_int total_edges ++ " aristas)")%string;
               graph := graph_data;
               stats := {| total_nodes := total_nodes;
                           total_edges := total_edges;
                           stats_density := round density 4;
                           avg_degree := round avg_degree 2 |} |}
  end.

Record CommunityDTO : Type := {
  dto_community_id : Z;
  dto_members : list Z;
  dto_size : Z;
  dto_density : option float
}.

Record CommunitiesResponseDTO : Type := {
  cm_status_code : Z;
  cm_message : string;
  communities : list CommunityDTO;
  total_communities : Z;
  algorithm : string;
  modularity : option float
}.

Definition detect_communities : M CommunitiesResponseDTO :=
  communities <- GraphRepository.detect_communities_by_hobby ;;
  let community_dtos :=
    map (fun comm =>
           {| dto_community_id := GraphRepository.community_id comm;
              dto_members := GraphRepository.members comm;
              dto_size := GraphRepository.community_size comm;
              dto_density := GraphRepository.density comm |})
        communities in
  ret {| cm_status_code := HTTP_200_OK;
         cm_message := ("Detectadas " ++ str_of_int (size communities) ++
                        " comunidades")%string;
         communities := community_dtos;
         total_communities := size communities;
         algorithm := "Hobby-based clustering";
         modularity := None |}.

Record UsuarioConexionesDTO : Type := {
  uc_id_usuario : Z;
  uc_conexiones : list Z
}.

Record ConexionesStatsDTO : Type := {
  total_usuarios_con_conexiones : Z;
  total_conexiones : Z
}.

Record AllConexionesResponseDTO : Type := {
  ac_status_code : Z;
  ac_message : string;
  ac_conexiones : list UsuarioConexionesDTO;
  ac_stats : ConexionesStatsDTO
}.

(** Building a [UsuarioConexionesDTO] from [conn]: pydantic checks the declared field
    types.  An [int] passes; another value in [id_usuario] is reported as a
    [ValidationError] (the conversions pydantic tries on values that are
    not integers are not unfolded). *)
Definition usuario_conexiones_dto (conn : GraphRepository.Conexiones)
  : result UsuarioConexionesDTO :=
  match GraphRepository.cx_id_usuario conn with
  | PyInt z => Ok {| uc_id_usuario := z;
                     uc_conexiones := GraphRepository.conexiones conn |}
  | _ => Raise (ValidationError "id_usuario")
  end.

(** [sum(len(conn['conexiones']) for conn in conexiones)] *)
Definition sum_len (conexiones : list GraphRepository.Conexiones) : Z :=
  fold_left (fun acc conn => acc + size (GraphRepository.conexiones conn)) conexiones 0.

Definition get_all_connections : M AllConexionesResponseDTO :=
  conexiones <- GraphRepository.get_all_connections ;;
  conexiones_dtos <- lift (rmap usuario_conexiones_dto conexiones) ;;
  let total_usuarios_con_conexiones := size conexiones in
  let total_conexiones := sum_len conexiones in
  ret {| ac_status_code := HTTP_200_OK;
         ac_message := "Conexiones obtenidas exitosamente";
         ac_conexiones := conexiones_dtos;
         ac_stats := {| total_usuarios_con_conexiones := total_usuarios_con_conexiones;
                        total_conexiones := total_conexiones |} |}.

End GraphService.

(** ** [app/api/v1/routes/graph.py]

    A route runs FastAPI's check of the declared [Query] bounds, then the
    service method.  The dependency [get_graph_service] only builds the
    repositories around the connection handle; it sends nothing. *)

Module Routes.
Import Py Age Store.
#[local] Open Scope store_scope.

(** [Query(default, ge=lo, le=hi)] *)
Definition query_param (name : string) (lo hi : Z) (v : Z) : M unit :=
  if ((v <? lo) || (hi <? v))%bool then raise (RequestValidationError name)
  else ret tt.

Definition get_shortest_path (id_origen id_destino max_depth : Z)
  : M GraphService.ShortestPathResponseDTO :=
  _ <- query_param "max_depth" 1 5 max_depth ;;
  GraphService.get_shortest_path id_origen id_destino max_depth.

Definition get_recommendations (id_usuario lim min_common : Z)
  : M GraphService.RecommendationsResponseDTO :=
  _ <- query_param "limit" 1 100 lim ;;
  _ <- query_param "min_common" 1 10 min_common ;;
  GraphService.get_recommendations id_usuario lim min_common.

Definition get_ego_graph (id_usuario depth max_nodes : Z)
  : M GraphService.GraphResponseDTO :=
  _ <- query_param "depth" 1 2 depth ;;
  _ <- query_param "max_nodes" 10 2000 max_nodes ;;
  GraphService.get_ego_graph id_usuario depth max_nodes.

Definition detect_communities : M GraphService.CommunitiesResponseDTO :=
  GraphService.detect_communities.

Definition get_all_connections : M GraphService.AllConexionesResponseDTO :=
  GraphService.get_all_connections.

End Routes.

(** ** [app/models/dto/usuario_dto.py]: the validators of the text fields *)

Module PyText.
Import Py.

(** [s.split()] without argument: the maximal runs of characters that are
    not blank, in order, the blanks being those of [isspace].  [word] holds
    the run being read. *)
Fixpoint split_from (word : string) (s : string) : list string :=
  match s with
  | EmptyString => if truthy word then [word] else []
  | String c s' =>
      if isspace c then
        if truthy word then word :: split_from EmptyString s'
        else split_from EmptyString s'
      else split_from (word ++ String c EmptyString) s'
  end.

Definition split (s : string) : list string := split_from EmptyString s.

End PyText.

(** [@field_validator('nombre', 'apellidos')] of [UsuarioCreateDTO]. *)
Module UsuarioCreateDTO.
Import Py Age PyText.

Definition normalize_text (v : string) : result string :=
  if (negb (truthy v) || negb (truthy (strip v)))%bool then
    Raise (ValueError "El campo no puede estar vacio o contener solo espacios")
  else Ok (join " " (split (strip v))).

End UsuarioCreateDTO.

(** The same validator as [UsuarioUpdateDTO] declares it. *)
Module UsuarioUpdateDTO.
Import Py Age PyText.

Definition normalize_text (v : string) : result string :=
  if (negb (truthy v) || negb (truthy (strip v)))%bool then
    Raise (ValueError "El campo no puede estar vacio o contener solo espacios")
  else Ok (join " " (split (strip v))).

End UsuarioUpdateDTO.

(** The validator of [UsuarioPatchDTO], whose fields are optional. *)
Module UsuarioPatchDTO.
Import Py Age PyText.

Definition normalize_text (v : option string) : result (option string) :=
  match v with
  | None => Ok None
  | Some v =>
      if negb (truthy (strip v)) then
        Raise (ValueError "El campo no puede estar vacio o contener solo espacios")
      else Ok (Some (join " " (split (strip v))))
  end.

End UsuarioPatchDTO.

(** ** The store session with writes

    The requests that change the graph run in a session that holds the
    graph as last committed, the graph as the statements of the open
    transaction have left it, and the statements sent.  [with_cursor] is
    [DatabaseConnection.get_cursor] of [db/database.py]: the body runs, then
    the transaction is committed; if the body raises, it is rolled back and
    the exception goes on. *)

Module Tx.
Import Py Age Store.

Inductive statement : Type :=
| Select (q : Store.query)
| SConexionExists (o d : Z)
| SCreateConexion (o d : Z)
| SDeleteConexion (o d : Z)
| SNombreCompleto (id : Z)
| SDetachDelete (id : Z)
| SNextId.

(** What can be raised: the exceptions of the first part, and a plain
    [Exception(msg)]. *)
Inductive error : Type :=
| Builtin (e : exn)
| Exception (msg : string).

Inductive outcome (A : Type) : Type :=
| Return (a : A)
| Throw (e : error).
Arguments Return {A} a.
Arguments Throw {A} e.

Record session : Type := {
  committed : Graph;
  working : Graph;
  sent : list statement
}.

Definition T (A : Type) : Type := session -> outcome A * session.

Definition ret {A} (a : A) : T A := fun s => (Return a, s).

Definition raise {A} (e : error) : T A := fun s => (Throw e, s).

Definition bind {A B} (m : T A) (k : A -> T B) : T B :=
  fun s =>
    match m s with
    | (Return a, s') => k a s'
    | (Throw e, s') => (Throw e, s')
    end.

(** A computation that does not touch the store. *)
Definition lift {A} (r : result A) : T A :=
  fun s => (match r with Ok a => Return a | Raise e => Throw (Builtin e) end, s).

(** [cursor.execute(q)] followed by a fetch: the statement is logged, its
    rows are returned and the graph of the open transaction becomes what
    the statement leaves. *)
Definition execute {R} (q : statement) (sem : Graph -> list R * Graph) : T (list R) :=
  fun s =>
    let (rows, g) := sem (working s) in
    (Return rows,
     {| committed := committed s; working := g; sent := sent s ++ [q] |}).

(** A method of the first part, which only reads. *)
Definition read {A} (m : Store.M A) : T A :=
  fun s =>
    let (r, qs) := m (working s) [] in
    (match r with Ok a => Return a | Raise e => Throw (Builtin e) end,
     {| committed := committed s; working := working s;
        sent := sent s ++ map Select qs |}).

(** [with self.db.get_cursor() as cursor: body] *)
Definition with_cursor {A} (body : T A) : T A :=
  fun s =>
    match body s with
    | (Return a, s') =>
        (Return a, {| committed := working s'; working := working s'; sent := sent s' |})
    | (Throw e, s') =>
        (Throw e, {| committed := committed s'; working := committed s'; sent := sent s' |})
    end.

(** [try: body except Exception as e: handler(e)] *)
Definition try_except {A} (body : T A) (handler : error -> T A) : T A :=
  fun s =>
    match body s with
    | (Return a, s') => (Return a, s')
    | (Throw e, s') => handler e s'
    end.

(** A request on the graph [g], nothing pending: its outcome, the graph it
    leaves committed and the statements it sent. *)
Definition run {A} (m : T A) (g : Graph) : outcome A * Graph * list statement :=
  let (r, s) := m {| committed := g; working := g; sent := [] |} in
  (r, committed s, sent s).

Definition HTTP_409_CONFLICT : Z := 409.
Definition HTTP_500_INTERNAL_SERVER_ERROR : Z := 500.

Definition http (status_code : Z) (detail : string) : error :=
  Builtin (HTTPException status_code detail).

(** *** The statements *)

Definition with_id (g : Graph) (id : Z) : list Usuario :=
  filter (fun u => id_usuario u =? id) (usuarios g).

(** [MATCH (u1:Usuario {id_usuario: o})-[:CONECTADO]->(u2:Usuario {id_usuario: d})
     RETURN u1] *)
Definition conexion_rows (g : Graph) (o d : Z) : list Usuario :=
  flat_map (fun e =>
              if (fst e =? o) && (snd e =? d) && has_usuario g d
              then with_id g o else [])
           (conectado g).

Definition conexion_exists_stmt (o d : Z) (g : Graph) : list Usuario * Graph :=
  (conexion_rows g o d, g).

(** [MATCH (u1:Usuario {id_usuario: o}), (u2:Usuario {id_usuario: d})
     CREATE (u1)-[:CONECTADO]->(u2)
     RETURN u1, u2]: one edge and one row per pair of vertices matched. *)
Definition create_conexion_stmt (o d : Z) (g : Graph)
  : list (Usuario * Usuario) * Graph :=
  let pairs := list_prod (with_id g o) (with_id g d) in
  (pairs,
   {| usuarios := usuarios g;
      hobbies := hobbies g;
      conectado := conectado g ++ map (fun _ => (o, d)) pairs;
      tiene_hobby := tiene_hobby g |}).

(** [MATCH (u1:Usuario {id_usuario: o})-[r:CONECTADO]->(u2:Usuario {id_usuario: d})
     DELETE r
     RETURN u1]: every edge matched is removed. *)
Definition delete_conexion_stmt (o d : Z) (g : Graph) : list Usuario * Graph :=
  (conexion_rows g o d,
   {| usuarios := usuarios g;
      hobbies := hobbies g;
      conectado :=
        filter (fun e => negb ((fst e =? o) && (snd e =? d) &&
                               has_usuario g o && has_usuario g d))
               (conectado g);
      tiene_hobby := tiene_hobby g |}).

(** [MATCH (u:Usuario {id_usuario: id}) RETURN u.nombre, u.apellidos] *)
Record NombreRow : Type := {
  nr_nombre : field;
  nr_apellidos : field
}.

Definition nombre_stmt (id : Z) (g : Graph) : list NombreRow * Graph :=
  (map (fun u => {| nr_nombre := agtype_string (nombre u);
                    nr_apellidos := agtype_string (apellidos u) |})
       (with_id g id),
   g).

(** [MATCH (u:Usuario) WHERE u.id_usuario = id DETACH DELETE u]: the vertex
    goes, and with it every edge that starts or ends at it.  The statement
    returns no row. *)
Definition detach_delete_stmt (id : Z) (g : Graph) : list unit * Graph :=
  ([],
   if has_usuario g id then
     {| usuarios := filter (fun u => negb (id_usuario u =? id)) (usuarios g);
        hobbies := hobbies g;
        conectado :=
          filter (fun e => negb (fst e =? id) && negb (snd e =? id)) (conectado g);
        tiene_hobby := filter (fun e => negb (fst e =? id)) (tiene_hobby g) |}
   else g).

(** [MATCH (u:Usuario)
     RETURN u.id_usuario AS id_usuario
     ORDER BY u.id_usuario DESC
     LIMIT 1] *)
Record NextIdRow : Type := { ni_id_usuario : field }.

Definition next_id_stmt (g : Graph) : list NextIdRow * Graph :=
  (map (fun id => {| ni_id_usuario := agtype_int id |})
       (firstn 1 (sort_by (fun a b => b <=? a) (map id_usuario (usuarios g)))),
   g).

End Tx.

Declare Scope tx_scope.
Delimit Scope tx_scope with tx.
Notation "x <- m ;; k" := (Tx.bind m (fun x => k))
  (at level 61, m at next level, right associativity) : tx_scope.

(** ** [app/repositories/usuario_repository.py]: connections and deletion *)

Module UsuarioRepositoryTx.
Import Py Age Tx.
#[local] Open Scope tx_scope.

(** [find_by_id] of the first part, inside its cursor. *)
Definition find_by_id (id_usuario : Z) : T (option Usuario) :=
  with_cursor (read (UsuarioRepository.find_by_id id_usuario)).

Definition get_next_usuario_id : T Z :=
  with_cursor (
    rows <- execute SNextId next_id_stmt ;;
    match hd_error rows with
    | Some result =>
        if field_truthy (ni_id_usuario result) then
          max_id <- lift (GraphRepository.int_field (ni_id_usuario result)) ;;
          ret (max_id + 1)
        else ret 1
    | None => ret 1
    end).

Definition conexion_exists (id_usuario_origen id_usuario_destino : Z) : T bool :=
  with_cursor (
    rows <- execute (SConexionExists id_usuario_origen id_usuario_destino)
                    (conexion_exists_stmt id_usuario_origen id_usuario_destino) ;;
    ret (match hd_error rows with Some _ => true | None => false end)).

Definition create_conexion (id_usuario_origen id_usuario_destino : Z) : T bool :=
  with_cursor (
    rows <- execute (SCreateConexion id_usuario_origen id_usuario_destino)
                    (create_conexion_stmt id_usuario_origen id_usuario_destino) ;;
    match hd_error rows with
    | Some _ => ret true
    | None => raise (Exception "Error al crear conexión")
    end).

Definition get_usuario_nombre_completo (id_usuario : Z) : T (option string) :=
  with_cursor (
    rows <- execute (SNombreCompleto id_usuario) (nombre_stmt id_usuario) ;;
    match hd_error rows with
    | Some result =>
        let nombre := GraphRepository.str_field (nr_nombre result) in
        let apellidos := GraphRepository.str_field (nr_apellidos result) in
        ret (Some (nombre ++ " " ++ apellidos)%string)
    | None => ret None
    end).

Definition delete_conexion (id_usuario_origen id_usuario_destino : Z) : T bool :=
  with_cursor (
    found <- conexion_exists id_usuario_origen id_usuario_destino ;;
    if negb found then ret false
    else
      rows <- execute (SDeleteConexion id_usuario_origen id_usuario_destino)
                      (delete_conexion_stmt id_usuario_origen id_usuario_destino) ;;
      match hd_error rows with
      | Some _ => ret true
      | None => raise (Exception "Error al eliminar conexión")
      end).

Definition delete (id_usuario : Z) : T bool :=
  with_cursor (
    usuario <- find_by_id id_usuario ;;
    match usuario with
    | None => ret false
    | Some _ =>
        _ <- execute (SDetachDelete id_usuario) (detach_delete_stmt id_usuario) ;;
        ret true
    end).

End UsuarioRepositoryTx.

(** ** [app/services/usuario_service.py]: connections and deletion *)

Module UsuarioService.
Import Py Age Tx.
#[local] Open Scope tx_scope.

Record ConexionCreateDTO : Type := {
  id_usuario_origen : Z;
  id_usuario_destino : Z
}.

Record ConexionInfoDTO : Type := {
  ci_id_usuario_origen : Z;
  ci_usuario_origen : string;
  ci_id_usuario_destino : Z;
  ci_usuario_destino : string
}.

Record ConexionCreateResponseDTO : Type := {
  cc_status_code : Z;
  cc_message : string;
  cc_conexion : ConexionInfoDTO
}.

Record ConexionDeleteResponseDTO : Type := {
  cd_status_code : Z;
  cd_message : string
}.

(** A name inside an f-string: [None] prints as its name. *)
Definition fmt (v : option string) : string :=
  match v with
  | Some s => s
  | None => "None"
  end.

(** Building a [ConexionInfoDTO]: the two names are declared [str], so
    pydantic refuses [None]; the error names the fields refused. *)
Definition conexion_info (id_origen : Z) (usuario_origen : option string)
  (id_destino : Z) (usuario_destino : option string) : result ConexionInfoDTO :=
  match usuario_origen, usuario_destino with
  | Some a, Some b =>
      Ok {| ci_id_usuario_origen := id_origen; ci_usuario_origen := a;
            ci_id_usuario_destino := id_destino; ci_usuario_destino := b |}
  | None, Some _ => Raise (ValidationError "usuario_origen")
  | Some _, None => Raise (ValidationError "usuario_destino")
  | None, None => Raise (ValidationError "usuario_origen,usuario_destino")
  end.

Section Handlers.

(** The text [str(e)] of a pydantic validation error about the fields
    named; it is not modelled. *)
Variable validation_text : string -> string.

(** [str(e)] for what can reach an [except Exception] clause. *)
Definition str_of_error (e : error) : string :=
  match e with
  | Exception msg => msg
  | Builtin (ValueError msg) | Builtin (TypeError msg)
  | Builtin (OverflowError msg) | Builtin (DatabaseError msg) => msg
  | Builtin ZeroDivisionError => "division by zero"
  | Builtin (ValidationError f) | Builtin (RequestValidationError f) => validation_text f
  | Builtin (HTTPException status_code detail) =>
      (str_of_int status_code ++ ": " ++ detail)%string
  end.

(** [except HTTPException: raise
     except ValueError as e: raise HTTPException(400, prefix400 + str(e))
     except Exception as e: raise HTTPException(500, prefix500 + str(e))];
    pydantic's [ValidationError] is a [ValueError]. *)
Definition handler {A} (prefix400 prefix500 : string) (e : error) : T A :=
  match e with
  | Builtin (HTTPException _ _) => raise e
  | Builtin (ValueError _) | Builtin (ValidationError _) =>
      raise (http HTTP_400_BAD_REQUEST (prefix400 ++ str_of_error e)%string)
  | _ =>
      raise (http HTTP_500_INTERNAL_SERVER_ERROR (prefix500 ++ str_of_error e)%string)
  end.

(** [except HTTPException: raise
     except Exception as e: raise HTTPException(500, prefix500 + str(e))] *)
Definition handler500 {A} (prefix500 : string) (e : error) : T A :=
  match e with
  | Builtin (HTTPException _ _) => raise e
  | _ =>
      raise (http HTTP_500_INTERNAL_SERVER_ERROR (prefix500 ++ str_of_error e)%string)
  end.

Definition create_conexion (conexion_dto : ConexionCreateDTO)
  : T ConexionCreateResponseDTO :=
  try_except (
    let id_origen := id_usuario_origen conexion_dto in
    let id_destino := id_usuario_destino conexion_dto in
    if id_origen =? id_destino then
      raise (http HTTP_400_BAD_REQUEST
               "No se puede crear una conexión del usuario consigo mismo")
    else
      usuario_origen <- UsuarioRepositoryTx.find_by_id id_origen ;;
      match usuario_origen with
      | None =>
          raise (http HTTP_404_NOT_FOUND
                   ("Usuario origen con ID " ++ str_of_int id_origen ++ " no encontrado")%string)
      | Some _ =>
      usuario_destino <- UsuarioRepositoryTx.find_by_id id_destino ;;
      match usuario_destino with
      | None =>
          raise (http HTTP_404_NOT_FOUND
                   ("Usuario destino con ID " ++ str_of_int id_destino ++ " no encontrado")%string)
      | Some _ =>
      nombre_origen <- UsuarioRepositoryTx.get_usuario_nombre_completo id_origen ;;
      nombre_destino <- UsuarioRepositoryTx.get_usuario_nombre_completo id_destino ;;
      found <- UsuarioRepositoryTx.conexion_exists id_origen id_destino ;;
      if (found : bool) then
        raise (http HTTP_409_CONFLICT
                 ("La conexión entre " ++ fmt nombre_origen ++ " y " ++ fmt nombre_destino
                  ++ " ya existe")%string)
      else
        _ <- UsuarioRepositoryTx.create_conexion id_origen id_destino ;;
        conexion <- lift (conexion_info id_origen nombre_origen id_destino nombre_destino) ;;
        ret {| cc_status_code := HTTP_200_OK;
               cc_message := ("Conexión creada exitosamente entre " ++ fmt nombre_origen
                              ++ " y " ++ fmt nombre_destino)%string;
               cc_conexion := conexion |}
      end
      end)
    (handler "Error de validación: " "Error al crear conexión: ").

Definition delete_conexion (id_origen id_destino : Z) : T ConexionDeleteResponseDTO :=
  try_except (
    if id_origen =? id_destino then
      raise (http HTTP_400_BAD_REQUEST
               "No se puede eliminar una conexión del usuario consigo mismo")
    else
      usuario_origen <- UsuarioRepositoryTx.find_by_id id_origen ;;
      match usuario_origen with
      | None =>
          raise (http HTTP_404_NOT_FOUND
                   ("Usuario origen con ID " ++ str_of_int id_origen ++ " no encontrado")%string)
      | Some _ =>
      usuario_destino <- UsuarioRepositoryTx.find_by_id id_destino ;;
      match usuario_destino with
      | None =>
          raise (http HTTP_404_NOT_FOUND
                   ("Usuario destino con ID " ++ str_of_int id_destino ++ " no encontrado")%string)
      | Some _ =>
      nombre_origen <- UsuarioRepositoryTx.get_usuario_nombre_completo id_origen ;;
      nombre_destino <- UsuarioRepositoryTx.get_usuario_nombre_completo id_destino ;;
      deleted <- UsuarioRepositoryTx.delete_conexion id_origen id_destino ;;
      if negb deleted then
        raise (http HTTP_404_NOT_FOUND
                 ("La conexión entre " ++ fmt nombre_origen ++ " y " ++ fmt nombre_destino
                  ++ " no existe")%string)
      else
        ret {| cd_status_code := HTTP_200_OK;
               cd_message := ("Conexión eliminada exitosamente entre " ++ fmt nombre_origen
                              ++ " y " ++ fmt nombre_destino)%string |}
      end
      end)
    (handler500 "Error al eliminar conexión: ").

(** The dictionary [delete_usuario] returns, as its only entry. *)
Record DeleteResponse : Type := { dr_message : string }.

Definition delete_usuario (id_usuario : Z) : T DeleteResponse :=
  existing_usuario <- UsuarioRepositoryTx.find_by_id id_usuario ;;
  match existing_usuario with
  | None =>
      raise (http HTTP_404_NOT_FOUND
               ("Usuario con ID " ++ str_of_int id_usuario ++ " no encontrado")%string)
  | Some _ =>
      try_except (
        deleted <- UsuarioRepositoryTx.delete id_usuario ;;
        if negb deleted then
          raise (http HTTP_500_INTERNAL_SERVER_ERROR "Error al eliminar usuario")
        else
          ret {| dr_message := ("Usuario con ID " ++ str_of_int id_usuario ++
                                " eliminado exitosamente (incluidas todas sus relaciones)")%string |})
        (handler500 "Error al eliminar usuario: ")
  end.

End Handlers.

End UsuarioService.

(* ====================================================================== *)
(** * Part II.  Vocabulary of the properties                               *)
(* ====================================================================== *)

(** The notions the statements of Part III are written with, and the
    functions that describe what a method returns in terms of what the store
    holds. *)

Module Props.
Import Py Age Store.
Import GraphRepository GraphService.

(** Every character of [s] satisfies [p]. *)
Fixpoint all_chars (p : ascii -> bool) (s : string) : bool :=
  match s with
  | EmptyString => true
  | String c s' => p c && all_chars p s'
  end.

(** The decimal digits of a positive number. *)
Definition digits_of (p : positive) : string :=
  NilEmpty.string_of_uint (Pos.to_uint p).

(** The characters of an integer's text: digits and the minus sign. *)
Definition is_int_char (c : ascii) : bool := is_digit c || Ascii.eqb c "-".

(** [r] cannot continue a number that ends just before it. *)
Definition ends_number (r : string) : bool :=
  match r with
  | EmptyString => true
  | String c _ =>
      negb (is_digit c || Ascii.eqb c "." || Ascii.eqb c "e" || Ascii.eqb c "E")
  end.

(** The text of the items of a non-empty list, followed by [t]. *)
Fixpoint items_text (x : Z) (l : list Z) (t : string) : string :=
  match l with
  | [] => (str_of_int x ++ t)%string
  | y :: l' => (str_of_int x ++ String "," (String " " (items_text y l' t)))%string
  end.

Definition not_colon (c : ascii) : bool := negb (Ascii.eqb c ":").

(** An undirected [CONECTADO] edge joins [v] and [w]. *)
Definition adjacent (g : Graph) (v w : Z) : Prop :=
  In (v, w) (conectado g) \/ In (w, v) (conectado g).

(** [chain g o d k]: there is an undirected chain of [k] edges from [o] to
    [d].  Edges and vertices may repeat. *)
Inductive chain (g : Graph) : Z -> Z -> nat -> Prop :=
| chain_here v : chain g v v 0
| chain_step v w d k : adjacent g v w -> chain g w d k -> chain g v d (S k).

(** Consecutive vertices of [vs] are adjacent. *)
Fixpoint linked (g : Graph) (vs : list Z) : Prop :=
  match vs with
  | a :: (b :: _) as t => adjacent g a b /\ linked g t
  | _ => True
  end.

(** A walk given by its steps, each an edge identity and the vertex reached. *)
Fixpoint is_walk (g : Graph) (v : Z) (p : list (nat * Z)) : Prop :=
  match p with
  | [] => True
  | (i, w) :: p' => In (i, w) (steps g v) /\ is_walk g w p'
  end.

Fixpoint endpoint (v : Z) (p : list (nat * Z)) : Z :=
  match p with
  | [] => v
  | (_, w) :: p' => endpoint w p'
  end.

(** A trail: a walk that takes no edge twice. *)
Definition is_trail (g : Graph) (v : Z) (p : list (nat * Z)) : Prop :=
  is_walk g v p /\ NoDup (map fst p).

(** The decoded node of vertex [v] on a path. *)
Definition node_of (g : Graph) (v : Z) : GraphRepository.PathNode :=
  {| GraphRepository.pn_id := v;
     GraphRepository.nombre_completo :=
       (GraphRepository.str_field (name_field g nombre v) ++ " " ++
        GraphRepository.str_field (name_field g apellidos v))%string |}.

Definition probe (o d : Z) (j : nat) : query := QPathExists o d (Z.of_nat j).

(** The two responses of [get_shortest_path]. *)
Definition not_found : GraphService.ShortestPathResponseDTO :=
  {| GraphService.sp_status_code := HTTP_200_OK;
     GraphService.sp_message := "No existe un camino entre los usuarios";
     GraphService.sp_path := [];
     GraphService.sp_length := 0;
     GraphService.sp_exists := false |}.

Definition found (path : list GraphRepository.PathNode)
  : GraphService.ShortestPathResponseDTO :=
  {| GraphService.sp_status_code := HTTP_200_OK;
     GraphService.sp_message :=
       ("Camino más corto encontrado (" ++ str_of_int (size path - 1) ++ " saltos)")%string;
     GraphService.sp_path := path;
     GraphService.sp_length := size path - 1;
     GraphService.sp_exists := true |}.

(** C2 as the specification words it, for the user [x] of graph [g]: the
    request returns the single vertex [x] with length 0 and the log holds no
    path probe. *)
Definition trivial_path_without_probe (g : Graph) (x max_depth : Z) : Prop :=
  exists r log,
    run (get_shortest_path x x max_depth) g = (Ok r, log) /\
    map pn_id (sp_path r) = [x] /\
    sp_length r = 0 /\
    existsb is_path_probe log = false.

(** Decreasing order of [key], and the comparison [ORDER BY key DESC]
    sorts with. *)
Definition desc {A} (key : A -> Z) (a b : A) : Prop := key b <= key a.

Definition desc_le {A} (key : A -> Z) (a b : A) : bool := key b <=? key a.

(** The decoded row of a group, and its scored entry. *)
Definition temp_of (g : Graph) (grp : Z * list Z) : TempResult :=
  {| tr_id_usuario := fst grp;
     tr_nombre := str_field (name_field g nombre (fst grp));
     tr_apellidos := str_field (name_field g apellidos (fst grp));
     tr_common_friends := snd grp;
     tr_common_count := size (snd grp) |}.

Definition scored (g : Graph) (max_common : Z) (grp : Z * list Z) : Recommendation :=
  {| rec_id_usuario := fst grp;
     rec_nombre_completo :=
       (str_field (name_field g nombre (fst grp)) ++ " " ++
        str_field (name_field g apellidos (fst grp)))%string;
     common_friends := size (snd grp);
     common_friends_ids := snd grp;
     score := round (PrimFloat.div (float_of_int (size (snd grp)))
                                   (float_of_int max_common)) 2 |}.

(** [max_common] after the first loop, started at [m]. *)
Definition max_count (grps : list (Z * list Z)) (m : Z) : Z :=
  fold_left (fun m grp => Z.max m (size (snd grp))) grps m.

(** The largest [common_friends] among the entries returned (0 for none). *)
Definition observed_max (recs : list Recommendation) : Z :=
  fold_right Z.max 0 (map common_friends recs).

(** The candidate is two directed CONECTADO hops away from [u]. *)
Definition two_hops (g : Graph) (u x : Z) : Prop :=
  exists f, In (u, f) (conectado g) /\ In (f, x) (conectado g).

Definition recommendations_response (u : Z) (recs : list Recommendation)
  : RecommendationsResponseDTO :=
  {| rr_status_code := HTTP_200_OK;
     rr_message := ("Encontradas " ++ str_of_int (size recs) ++ " recomendaciones")%string;
     rr_user_id := u;
     recommendations := recs;
     rr_total := size recs |}.

(** User [m] holds a TIENE_HOBBY edge to a hobby vertex with the grouping
    key [(id, name)]. *)
Definition holds_hobby (g : Graph) (key : Z * string) (m : Z) : Prop :=
  has_usuario g m = true /\
  In (m, fst key) (tiene_hobby g) /\
  exists hb, In hb (hobbies g) /\ id_hobby hb = fst key /\ hobby_nombre hb = snd key.

(** The decoded community of a group. *)
Definition community_of (grp : (Z * string) * list Z) : Community :=
  {| community_id := fst (fst grp);
     hobby_name := str_field (agtype_string (snd (fst grp)));
     members := snd grp;
     community_size := size (snd grp);
     density := None |}.

Definition community_dto_of (grp : (Z * string) * list Z) : CommunityDTO :=
  {| dto_community_id := fst (fst grp);
     dto_members := snd grp;
     dto_size := size (snd grp);
     dto_density := None |}.

(** The connections of a group without the user itself. *)
Definition others (grp : Z * list Z) : list Z :=
  filter (fun c => negb (c =? fst grp)) (snd grp).

(** The entries the repository builds from the groups: those left with a
    connection. *)
Definition entries (grps : list (Z * list Z)) : list (Z * list Z) :=
  map (fun grp => (fst grp, others grp))
      (filter (fun grp => match others grp with [] => false | _ => true end) grps).

Definition conexiones_of (e : Z * list Z) : Conexiones :=
  {| cx_id_usuario := PyInt (fst e); conexiones := snd e |}.

Definition dto_of (e : Z * list Z) : UsuarioConexionesDTO :=
  {| uc_id_usuario := fst e; uc_conexiones := snd e |}.

(** Sum of the lengths of the neighbour lists returned. *)
Definition sum_neighbors (l : list UsuarioConexionesDTO) : Z :=
  fold_right (fun e acc => size (uc_conexiones e) + acc) 0 l.


Definition bad_depth : exn :=
  HTTPException HTTP_400_BAD_REQUEST "El parámetro 'depth' debe estar entre 1 y 3".

Definition bad_max_nodes : exn :=
  HTTPException HTTP_400_BAD_REQUEST "El parámetro 'max_nodes' debe estar entre 10 y 2000".

Definition not_found_user (id : Z) : exn :=
  HTTPException HTTP_404_NOT_FOUND ("Usuario con ID " ++ str_of_int id ++ " no encontrado")%string.

(** C4 as the specification words it, for the service method: a depth
    outside 1..2 is refused with nothing sent to the store. *)
Definition rejected_before_store (g : Graph) (id depth max_nodes : Z) : Prop :=
  exists e, run (get_ego_graph id depth max_nodes) g = (Raise e, []).

End Props.

(** Example graphs. *)

Module Examples.
Import Py Age.

Definition usuario (id : Z) (n a : string) : Usuario :=
  {| id_usuario := id; nombre := n; apellidos := a; edad := 30;
     latitud := 40.5%float; longitud := (-3.25)%float |}.

Definition people : list Usuario :=
  [ usuario 1 "Ana" "Ruiz"; usuario 2 "Luis" "Gil"; usuario 3 "Eva" "Sanz";
    usuario 4 "Juan" "Mora"; usuario 5 "Sara" "Vega" ].

(** Edges 1->2, 2->3, 1->4, 4->3. *)
Definition diamond : Graph :=
  {| usuarios := people; hobbies := []; conectado := [(1, 2); (2, 3); (1, 4); (4, 3)];
     tiene_hobby := [] |}.

(** Users and no edge. *)
Definition islands : Graph :=
  {| usuarios := people; hobbies := []; conectado := []; tiene_hobby := [] |}.

(** A reciprocated connection 1->2, 2->1. *)
Definition mutual : Graph :=
  {| usuarios := people; hobbies := []; conectado := [(1, 2); (2, 1)]; tiene_hobby := [] |}.

(** Edges 1->2, 1->3, 2->5, 3->5. *)
Definition fan : Graph :=
  {| usuarios := people; hobbies := []; conectado := [(1, 2); (1, 3); (2, 5); (3, 5)];
     tiene_hobby := [] |}.

Definition futbol : Hobby := {| id_hobby := 7; hobby_nombre := "Futbol" |}.

Definition piano : Hobby := {| id_hobby := 8; hobby_nombre := "Piano" |}.

Definition ajedrez : Hobby := {| id_hobby := 9; hobby_nombre := "Ajedrez" |}.

(** Three users play football, two the piano, one chess; user 2 follows
    itself besides 1 and 3. *)
Definition club : Graph :=
  {| usuarios := people;
     hobbies := [futbol; piano; ajedrez];
     conectado := [(1, 2); (2, 1); (2, 2); (2, 3); (4, 4)];
     tiene_hobby := [(1, 8); (2, 7); (3, 7); (4, 8); (5, 7); (1, 9)] |}.

End Examples.

(** Further notions: walks taken backwards, simple graphs, and the graphs the
    requests that write leave. *)

Module Notions.
Import Py Age Store Props.
Import GraphRepository GraphService.

(** The steps of a walk taken backwards, from its end to its start [v]. *)
Fixpoint rev_walk (v : Z) (p : list (nat * Z)) : list (nat * Z) :=
  match p with
  | [] => []
  | (i, w) :: p' => rev_walk w p' ++ [(i, v)]
  end.

(** No character of [s] needs escaping in an agtype text. *)
Definition plain (s : string) : bool :=
  all_chars (fun c => negb (Ascii.eqb c dquote) && negb (Ascii.eqb c "\") &&
                      negb (nat_of_ascii c <? 32)%nat) s.

(** A simple directed graph on the users: ids are unique, every CONECTADO
    edge joins two existing users, no edge occurs twice and none is a
    loop. *)
Definition simple_graph (g : Graph) : Prop :=
  wf_graph g /\ NoDup (conectado g) /\ (forall a, ~ In (a, a) (conectado g)).

(** Sum of [f] over a list. *)
Definition sum_over {A} (f : A -> Z) (l : list A) : Z :=
  fold_right (fun x acc => f x + acc) 0 l.



(** A session with nothing pending. *)
Definition at_rest (g : Graph) (l : list Tx.statement) : Tx.session :=
  {| Tx.committed := g; Tx.working := g; Tx.sent := l |}.

(** The name [get_usuario_nombre_completo] returns for the user [id]. *)
Definition full_name (g : Graph) (id : Z) : option string :=
  option_map (fun u => (str_field (agtype_string (nombre u)) ++ " " ++
                        str_field (agtype_string (apellidos u)))%string)
             (find_usuario g id).

(** A CONECTADO edge leads from the user [o] to the user [d]. *)
Definition connected (g : Graph) (o d : Z) : bool :=
  has_usuario g o && has_usuario g d &&
  existsb (fun e => (fst e =? o) && (snd e =? d)) (conectado g).

(** The graph with the edges [es] added after those it has. *)
Definition add_edges (g : Graph) (es : list (Z * Z)) : Graph :=
  {| usuarios := usuarios g; hobbies := hobbies g;
     conectado := conectado g ++ es; tiene_hobby := tiene_hobby g |}.

(** The graph without the edges from [o] to [d]. *)
Definition remove_edges (g : Graph) (o d : Z) : Graph :=
  {| usuarios := usuarios g; hobbies := hobbies g;
     conectado := filter (fun e => negb ((fst e =? o) && (snd e =? d))) (conectado g);
     tiene_hobby := tiene_hobby g |}.

(** The graph without the user [id] and the edges at it. *)
Definition remove_usuario (g : Graph) (id : Z) : Graph :=
  {| usuarios := filter (fun u => negb (id_usuario u =? id)) (usuarios g);
     hobbies := hobbies g;
     conectado := filter (fun e => negb (fst e =? id) && negb (snd e =? id)) (conectado g);
     tiene_hobby := filter (fun e => negb (fst e =? id)) (tiene_hobby g) |}.

Definition dto (o d : Z) : UsuarioService.ConexionCreateDTO :=
  {| UsuarioService.id_usuario_origen := o; UsuarioService.id_usuario_destino := d |}.

(** The requests that change the connections and remove users. *)
Inductive request : Type :=
| CreateConexion (o d : Z)
| DeleteConexion (o d : Z)
| DeleteUsuario (id : Z).

(** The graph a request leaves committed, whatever its outcome. *)
Definition after (validation_text : string -> string) (req : request) (g : Graph) : Graph :=
  match req with
  | CreateConexion o d =>
      snd (fst (Tx.run (UsuarioService.create_conexion validation_text (dto o d)) g))
  | DeleteConexion o d =>
      snd (fst (Tx.run (UsuarioService.delete_conexion validation_text o d) g))
  | DeleteUsuario id =>
      snd (fst (Tx.run (UsuarioService.delete_usuario validation_text id) g))
  end.

End Notions.

(* ====================================================================== *)
(** * Part III.  Properties                                                *)
(* ====================================================================== *)

Module PyFacts.
Import Py Props.

Lemma all_chars_app p s t :
  all_chars p (s ++ t)%string = all_chars p s && all_chars p t.
Proof.
  induction s as [|c s IH]; simpl; [reflexivity|].
  now rewrite IH, andb_assoc.
Qed.

Lemma all_chars_weaken (p q : ascii -> bool) s :
  (forall c, p c = true -> q c = true) ->
  all_chars p s = true -> all_chars q s = true.
Proof.
  intros Hpq. induction s as [|c s IH]; simpl; [easy|].
  rewrite !andb_true_iff. intros [Hc Hs]. auto.
Qed.

Lemma lstrip_by_keep p c s :
  p c = false -> lstrip_by p (String c s) = String c s.
Proof. intros H. simpl. now rewrite H. Qed.

Lemma rstrip_by_last p s c :
  p c = false ->
  rstrip_by p (s ++ String c EmptyString)%string = (s ++ String c EmptyString)%string.
Proof.
  intros Hc. induction s as [|a s IH]; simpl.
  - now rewrite Hc.
  - rewrite IH. destruct s; reflexivity.
Qed.

Lemma rstrip_by_none p s :
  all_chars (fun c => negb (p c)) s = true -> rstrip_by p s = s.
Proof.
  induction s as [|a s IH]; simpl; [reflexivity|].
  rewrite andb_true_iff, negb_true_iff. intros [Ha Hs].
  rewrite (IH Hs), Ha. destruct s; reflexivity.
Qed.

Lemma lstrip_by_none p s :
  all_chars (fun c => negb (p c)) s = true -> lstrip_by p s = s.
Proof.
  destruct s as [|a s]; simpl; [reflexivity|].
  rewrite andb_true_iff, negb_true_iff. intros [Ha _]. now rewrite Ha.
Qed.

(** *** The text of an integer *)

Lemma string_of_uint_digits d :
  all_chars is_digit (NilEmpty.string_of_uint d) = true.
Proof. induction d; simpl; auto. Qed.

Lemma digits_of_nonempty p : digits_of p <> EmptyString.
Proof.
  unfold digits_of. pose proof (DecimalPos.Unsigned.to_uint_nonnil p) as H.
  destruct (Pos.to_uint p); simpl; congruence.
Qed.

Lemma digits_of_digits p : all_chars is_digit (digits_of p) = true.
Proof. apply string_of_uint_digits. Qed.

Lemma to_uint_head p d : Pos.to_uint p <> Decimal.D0 d.
Proof.
  intros H.
  assert (E : Decimal.unorm (Pos.to_uint p) = Pos.to_uint p).
  { rewrite <- (DecimalPos.Unsigned.to_of (Pos.to_uint p)), DecimalPos.Unsigned.of_to. reflexivity. }
  rewrite H in E. unfold Decimal.unorm in E. simpl in E.
  destruct (Decimal.nzhead d) eqn:Hd;
    try (rewrite E in Hd; now apply nzhead_nonzero in Hd).
  injection E as <-.
  now apply (DecimalPos.Unsigned.to_uint_nonzero p).
Qed.

Lemma digits_of_head p r : digits_of p <> String "0" r.
Proof.
  unfold digits_of. pose proof (to_uint_head p) as H.
  destruct (Pos.to_uint p) eqn:E; simpl; try discriminate.
  now specialize (H u).
Qed.

Lemma str_of_int_pos p : str_of_int (Zpos p) = digits_of p.
Proof.
  unfold str_of_int, digits_of. simpl.
  pose proof (DecimalPos.Unsigned.to_uint_nonnil p).
  destruct (Pos.to_uint p); simpl; congruence.
Qed.

Lemma str_of_int_neg p : str_of_int (Zneg p) = String "-" (digits_of p).
Proof.
  unfold str_of_int, digits_of. simpl.
  pose proof (DecimalPos.Unsigned.to_uint_nonnil p).
  destruct (Pos.to_uint p); simpl; congruence.
Qed.

Lemma str_of_int_0 : str_of_int 0 = "0".
Proof. reflexivity. Qed.

Lemma digits_of_value p :
  NilEmpty.uint_of_string (digits_of p) = Some (Pos.to_uint p).
Proof. apply NilEmpty.usu. Qed.

Lemma of_uint_to_uint p : Z.of_uint (Pos.to_uint p) = Zpos p.
Proof. unfold Z.of_uint. now rewrite DecimalPos.Unsigned.of_to. Qed.

Lemma digits_value_of p : digits_value (digits_of p) = Zpos p.
Proof. unfold digits_value. now rewrite digits_of_value, of_uint_to_uint. Qed.

Lemma str_of_int_chars z : all_chars is_int_char (str_of_int z) = true.
Proof.
  assert (D : forall p, all_chars is_int_char (digits_of p) = true).
  { intros p. apply (all_chars_weaken is_digit); [|apply digits_of_digits].
    intros c Hc. unfold is_int_char. now rewrite Hc. }
  destruct z as [|p|p].
  - reflexivity.
  - rewrite str_of_int_pos. apply D.
  - rewrite str_of_int_neg. simpl. apply D.
Qed.

Lemma is_int_char_not_space c : is_int_char c = true -> isspace c = false.
Proof.
  destruct c as [[] [] [] [] [] [] [] []]; vm_compute; congruence.
Qed.

Lemma is_int_char_not_quote c : is_int_char c = true -> Ascii.eqb dquote c = false.
Proof.
  destruct c as [[] [] [] [] [] [] [] []]; vm_compute; congruence.
Qed.

Lemma strip_int z : strip (str_of_int z) = str_of_int z.
Proof.
  unfold strip.
  assert (H : all_chars (fun c => negb (isspace c)) (str_of_int z) = true).
  { apply (all_chars_weaken is_int_char); [|apply str_of_int_chars].
    intros c Hc. now rewrite is_int_char_not_space. }
  now rewrite lstrip_by_none, rstrip_by_none.
Qed.

Lemma strip_quote_int z : strip_char dquote (str_of_int z) = str_of_int z.
Proof.
  unfold strip_char.
  assert (H : all_chars (fun c => negb (Ascii.eqb dquote c)) (str_of_int z) = true).
  { apply (all_chars_weaken is_int_char); [|apply str_of_int_chars].
    intros c Hc. now rewrite is_int_char_not_quote. }
  now rewrite lstrip_by_none, rstrip_by_none.
Qed.

Lemma digits_of_cons p : exists c r, digits_of p = String c r /\ is_digit c = true /\ c <> "0"%char.
Proof.
  pose proof (digits_of_nonempty p) as Hn.
  pose proof (digits_of_digits p) as Hd.
  pose proof (digits_of_head p) as Hh.
  destruct (digits_of p) as [|c r]; [congruence|].
  exists c, r. simpl in Hd. apply andb_true_iff in Hd as [Hc _].
  repeat split; auto. intros ->. now apply (Hh r).
Qed.

Lemma nilzero_digits_of p :
  NilZero.uint_of_string (digits_of p) = Some (Pos.to_uint p).
Proof.
  unfold NilZero.uint_of_string.
  destruct (digits_of p) eqn:E.
  - now apply digits_of_nonempty in E.
  - rewrite <- E. apply digits_of_value.
Qed.

(** [int(str(z)) == z] *)
Lemma int_of_str_of_int z : int_of_str (str_of_int z) = Ok z.
Proof.
  unfold int_of_str. rewrite strip_int.
  destruct z as [|p|p].
  - reflexivity.
  - rewrite str_of_int_pos.
    pose proof (nilzero_digits_of p) as U.
    destruct (digits_of_cons p) as (c & r & E & Hc & _).
    rewrite E in *.
    destruct c as [[] [] [] [] [] [] [] []]; try discriminate Hc;
      rewrite U, of_uint_to_uint; reflexivity.
  - rewrite str_of_int_neg.
    now rewrite nilzero_digits_of, of_uint_to_uint.
Qed.

End PyFacts.


Module JsonFacts.
Import Py Json PyFacts Props.

Lemma span_digits_app ds r :
  all_chars is_digit ds = true -> ends_number r = true ->
  span_digits (ds ++ r)%string = (ds, r).
Proof.
  intros Hd Hr. induction ds as [|c ds IH]; simpl in *.
  - destruct r as [|c r]; [reflexivity|]. simpl in *.
    destruct (is_digit c); [discriminate|reflexivity].
  - apply andb_true_iff in Hd as [Hc Hd]. now rewrite Hc, IH.
Qed.

Lemma scan_frac_none r : ends_number r = true -> scan_frac r = None.
Proof.
  destruct r as [|c r]; [reflexivity|]. simpl.
  destruct c as [[] [] [] [] [] [] [] []]; try reflexivity; discriminate.
Qed.

Lemma scan_exp_none r : ends_number r = true -> scan_exp r = None.
Proof.
  destruct r as [|c r]; [reflexivity|]. simpl.
  destruct c as [[] [] [] [] [] [] [] []]; try reflexivity; discriminate.
Qed.

Lemma scan_int_part_digits p r :
  ends_number r = true ->
  scan_int_part (digits_of p ++ r)%string = Some (digits_of p, r).
Proof.
  intros Hr. unfold scan_int_part.
  rewrite (span_digits_app _ _ (digits_of_digits p) Hr).
  destruct (digits_of_cons p) as (c & t & E & Hc & Hz).
  rewrite E. simpl.
  destruct c as [[] [] [] [] [] [] [] []]; try discriminate Hc;
    try reflexivity; congruence.
Qed.

Lemma scan_number_int z r :
  ends_number r = true ->
  scan_number (str_of_int z ++ r)%string = Some (PyInt z, r).
Proof.
  intros Hr. destruct z as [|p|p].
  - simpl. unfold scan_number. simpl.
    now rewrite (scan_frac_none r Hr), (scan_exp_none r Hr).
  - rewrite str_of_int_pos. unfold scan_number.
    assert (E : (match (digits_of p ++ r)%string with
                 | String "-" r0 => (true, r0)
                 | _ => (false, (digits_of p ++ r)%string)
                 end) = (false, (digits_of p ++ r)%string)).
    { destruct (digits_of_cons p) as (c & t & E & Hc & _). rewrite E. simpl.
      destruct c as [[] [] [] [] [] [] [] []]; try discriminate Hc; reflexivity. }
    rewrite E, (scan_int_part_digits p r Hr).
    now rewrite (scan_frac_none r Hr), (scan_exp_none r Hr), digits_value_of.
  - rewrite str_of_int_neg. unfold scan_number. simpl.
    rewrite (scan_int_part_digits p r Hr).
    now rewrite (scan_frac_none r Hr), (scan_exp_none r Hr), digits_value_of.
Qed.

Lemma scan_value_int f z r :
  ends_number r = true ->
  scan_value (S f) (str_of_int z ++ r)%string = Some (PyInt z, r).
Proof.
  intros Hr. rewrite <- (scan_number_int z r Hr).
  destruct z as [|p|p].
  - reflexivity.
  - rewrite str_of_int_pos.
    destruct (digits_of_cons p) as (c & t & E & Hc & _). rewrite E.
    destruct c as [[] [] [] [] [] [] [] []]; try discriminate Hc; reflexivity.
  - rewrite str_of_int_neg.
    destruct (digits_of_cons p) as (c & t & E & Hc & _). rewrite E.
    destruct c as [[] [] [] [] [] [] [] []]; try discriminate Hc; reflexivity.
Qed.

(** [json.loads(str(z)) == z] *)
Lemma loads_int z : loads (str_of_int z) = Some (PyInt z).
Proof.
  unfold loads.
  assert (W : skip_ws (str_of_int z) = str_of_int z).
  { apply lstrip_by_none.
    apply (all_chars_weaken is_int_char); [|apply str_of_int_chars].
    intros c Hc. destruct c as [[] [] [] [] [] [] [] []]; try discriminate Hc; reflexivity. }
  rewrite W.
  replace (str_of_int z) with (str_of_int z ++ "")%string at 2
    by (clear; induction (str_of_int z); simpl; congruence).
  replace (2 * String.length (str_of_int z) + 2)%nat
    with (S (2 * String.length (str_of_int z) + 1)) by lia.
  now rewrite scan_value_int.
Qed.

End JsonFacts.


Module AgtypeFacts.
Import Py Json Age PyFacts JsonFacts Props.

Lemma sapp_assoc (a b c : string) : ((a ++ b) ++ c = a ++ (b ++ c))%string.
Proof. induction a; simpl; congruence. Qed.

Lemma sapp_nil_r (a : string) : (a ++ "")%string = a.
Proof. induction a; simpl; congruence. Qed.

Lemma slength_app (a b : string) :
  String.length (a ++ b)%string = (String.length a + String.length b)%nat.
Proof. induction a; simpl; congruence. Qed.

Lemma join_items x l t :
  (join ", " (map str_of_int (x :: l)) ++ t)%string = items_text x l t.
Proof.
  revert x. induction l as [|y l IH]; intros x.
  - reflexivity.
  - change (join ", " (map str_of_int (x :: y :: l)))
      with (str_of_int x ++ ", " ++ join ", " (map str_of_int (y :: l)))%string.
    rewrite !sapp_assoc. simpl. now rewrite <- IH.
Qed.

Lemma str_of_int_cons z :
  exists c r, str_of_int z = String c r /\ is_int_char c = true.
Proof.
  pose proof (str_of_int_chars z) as H.
  destruct z as [|p|p].
  - now exists "0"%char, EmptyString.
  - rewrite str_of_int_pos in *.
    destruct (digits_of_cons p) as (c & r & E & _). rewrite E in *.
    exists c, r. simpl in H. apply andb_true_iff in H as [Hc _]. auto.
  - rewrite str_of_int_neg. now exists "-"%char, (digits_of p).
Qed.

Lemma items_text_cons x l t :
  exists c r, items_text x l t = String c r /\ is_int_char c = true.
Proof.
  destruct (str_of_int_cons x) as (c & r & E & Hc).
  destruct l; simpl; rewrite E; simpl; eauto.
Qed.

Lemma skip_ws_items x l t : skip_ws (items_text x l t) = items_text x l t.
Proof.
  destruct (items_text_cons x l t) as (c & r & E & Hc). rewrite E.
  apply lstrip_by_keep.
  destruct c as [[] [] [] [] [] [] [] []]; try discriminate Hc; reflexivity.
Qed.

Lemma scan_elements_eq f s acc :
  scan_elements (S f) s acc =
  match scan_value f s with
  | None => None
  | Some (v, r) =>
      match skip_ws r with
      | String "]" r' => Some (PyList (rev (v :: acc)), r')
      | String "," r' => scan_elements f (skip_ws r') (v :: acc)
      | _ => None
      end
  end.
Proof. reflexivity. Qed.

Lemma scan_elements_items l : forall x acc f rest,
  (List.length l < f)%nat ->
  scan_elements (S f) (items_text x l (String "]" rest)) acc
  = Some (PyList (rev acc ++ map PyInt (x :: l)), rest).
Proof.
  induction l as [|y l IH]; intros x acc f rest Hf;
    rewrite scan_elements_eq;
    (destruct f as [|f]; [simpl in Hf; lia|]);
    cbn [items_text];
    rewrite scan_value_int by reflexivity.
  - reflexivity.
  - cbn [skip_ws lstrip_by is_ws].
    change (lstrip_by is_ws (items_text y l (String "]" rest)))
      with (skip_ws (items_text y l (String "]" rest))).
    rewrite skip_ws_items, IH by (simpl in Hf; lia).
    simpl. now rewrite <- List.app_assoc.
Qed.

Lemma items_text_length x l t :
  (List.length l < String.length (items_text x l t))%nat.
Proof.
  revert x. induction l as [|y l IH]; intros x; simpl.
  - destruct (str_of_int_cons x) as (c & r & E & _). rewrite E. simpl. lia.
  - rewrite slength_app. simpl. specialize (IH y). lia.
Qed.

(** [json.loads] of the text of an integer array. *)
Lemma loads_int_list l :
  loads (str_of_field (agtype_int_list l)) = Some (PyList (map PyInt l)).
Proof.
  destruct l as [|x l]; [reflexivity|].
  unfold agtype_int_list, str_of_field.
  change ("[" ++ join ", " (map str_of_int (x :: l)) ++ "]")%string
    with (String "[" (join ", " (map str_of_int (x :: l)) ++ "]")%string).
  rewrite join_items.
  unfold loads. cbn [skip_ws lstrip_by is_ws].
  remember (String.length (String "[" (items_text x l "]"))) as n eqn:Hn.
  assert (Hl : (List.length l + 1 < n)%nat).
  { subst n. simpl. pose proof (items_text_length x l "]"). lia. }
  replace (2 * n + 2)%nat with (S (S (2 * n))) by lia.
  cbn [scan_value].
  change (lstrip_by is_ws (items_text x l "]")) with (skip_ws (items_text x l "]")).
  rewrite skip_ws_items.
  destruct (items_text_cons x l "]") as (c & r & E & Hc).
  assert (G : scan_elements (S (2 * n)) (items_text x l "]") []
              = Some (PyList (map PyInt (x :: l)), "")).
  { apply (scan_elements_items l x [] (2 * n) ""). lia. }
  rewrite E in *.
  destruct c as [[] [] [] [] [] [] [] []]; try discriminate Hc;
    cbv beta iota zeta delta [Ascii.eqb Bool.eqb dquote ascii_of_nat ascii_of_pos Pos.of_succ_nat Pos.succ shift ascii_of_N zero one];
    cbn match; rewrite G; reflexivity.
Qed.

Lemma contains_colons_none s :
  all_chars not_colon s = true -> contains "::" s = false.
Proof.
  induction s as [|c s IH]; [reflexivity|].
  cbn [all_chars]. rewrite andb_true_iff. intros [Hc Hs].
  change (contains "::" (String c s))
    with (if String.prefix "::" (String c s) then true else contains "::" s).
  change (String.prefix "::" (String c s))
    with (if ascii_dec ":" c then String.prefix ":" s else false).
  unfold not_colon in Hc. apply negb_true_iff, Ascii.eqb_neq in Hc.
  destruct (ascii_dec ":" c) as [E|_]; [congruence|]. now apply IH.
Qed.

Lemma is_int_char_not_colon c : is_int_char c = true -> not_colon c = true.
Proof.
  destruct c as [[] [] [] [] [] [] [] []]; vm_compute; congruence.
Qed.

Lemma items_text_no_colon x l t :
  all_chars not_colon t = true -> all_chars not_colon (items_text x l t) = true.
Proof.
  intros Ht.
  assert (I : forall z, all_chars not_colon (str_of_int z) = true).
  { intros z. apply (all_chars_weaken is_int_char); [|apply str_of_int_chars].
    apply is_int_char_not_colon. }
  revert x. induction l as [|y l IH]; intros x; cbn [items_text];
    rewrite all_chars_app, I; simpl; auto.
Qed.

Lemma items_text_last x l c :
  exists s, items_text x l (String c EmptyString) = (s ++ String c EmptyString)%string.
Proof.
  revert x. induction l as [|y l IH]; intros x; cbn [items_text].
  - now exists (str_of_int x).
  - destruct (IH y) as [s ->].
    exists (str_of_int x ++ String "," (String " " s))%string.
    rewrite sapp_assoc. reflexivity.
Qed.

Lemma ints_of_ints l : GraphRepository.ints_of (map PyInt l) = Ok l.
Proof.
  unfold GraphRepository.ints_of.
  induction l as [|x l IH]; [reflexivity|].
  cbn [map filter rmap int_of_object rbind] in *. now rewrite IH.
Qed.

(** The array decoder gives back the list the store sent. *)
Lemma parse_array_int_list l :
  GraphRepository._parse_agtype_array (PyStr (str_of_field (agtype_int_list l))) = Ok l.
Proof.
  destruct l as [|x l]; [reflexivity|].
  pose proof (loads_int_list (x :: l)) as L.
  unfold agtype_int_list, str_of_field in *.
  change ("[" ++ join ", " (map str_of_int (x :: l)) ++ "]")%string
    with (String "[" (join ", " (map str_of_int (x :: l)) ++ "]")%string) in *.
  rewrite join_items in *.
  set (T := String "[" (items_text x l "]")) in *.
  assert (S1 : strip T = T).
  { unfold strip, T. rewrite lstrip_by_keep by reflexivity.
    destruct (items_text_last x l "]") as [s ->].
    change (String "[" (s ++ "]")%string) with (String "[" s ++ "]")%string.
    now apply rstrip_by_last. }
  assert (S2 : String.eqb T "[]" = false).
  { apply String.eqb_neq. unfold T.
    destruct (items_text_cons x l "]") as (c & r & E & Hc). rewrite E.
    intros [= -> _]. discriminate Hc. }
  assert (S3 : contains "::" T = false).
  { apply contains_colons_none. unfold T. cbn [all_chars].
    rewrite items_text_no_colon; reflexivity. }
  unfold GraphRepository._parse_agtype_array.
  rewrite S1, S2, S3, L. cbn [truthy T negb orb].
  apply ints_of_ints.
Qed.

Lemma parse_array_field l :
  GraphRepository._parse_agtype_array (obj_of_field (agtype_int_list l)) = Ok l.
Proof. apply parse_array_int_list. Qed.

Lemma int_field_int z : GraphRepository.int_field (agtype_int z) = Ok z.
Proof.
  unfold GraphRepository.int_field, agtype_int, str_of_field.
  now rewrite strip_quote_int, int_of_str_of_int.
Qed.

Lemma parse_agtype_int z : GraphRepository._parse_agtype (agtype_int z) = PyInt z.
Proof.
  unfold GraphRepository._parse_agtype, agtype_int, str_of_field.
  now rewrite loads_int.
Qed.

End AgtypeFacts.


Module Chains.
Import Py Age Props.

Lemma in_indexed {A} (l : list A) : forall n i x,
  In (i, x) (indexed n l) <-> (n <= i)%nat /\ nth_error l (i - n) = Some x.
Proof.
  induction l as [|y l IH]; intros n i x; simpl.
  - split; [tauto|]. intros [_ H]. now destruct (i - n)%nat.
  - rewrite IH. split.
    + intros [[= <- <-]|[Hn Hx]].
      * split; [lia|]. now rewrite Nat.sub_diag.
      * split; [lia|]. replace (i - n)%nat with (S (i - S n)) by lia. exact Hx.
    + intros [Hn Hx]. destruct (Nat.eq_dec n i) as [->|Hne].
      * left. rewrite Nat.sub_diag in Hx. simpl in Hx. congruence.
      * right. split; [lia|].
        replace (i - n)%nat with (S (i - S n)) in Hx by lia. exact Hx.
Qed.

Lemma steps_spec g v i w :
  In (i, w) (steps g v) <->
  exists a b, nth_error (conectado g) i = Some (a, b) /\
              ((a = v /\ w = b) \/ (b = v /\ w = a)).
Proof.
  unfold steps. rewrite in_flat_map. split.
  - intros ([j [a b]] & Hin & Hw).
    apply in_indexed in Hin as [_ Hn]. rewrite Nat.sub_0_r in Hn.
    apply in_app_or in Hw.
    destruct Hw as [Hw|Hw].
    + destruct (Z.eqb_spec a v); [|contradiction].
      destruct Hw as [[= <- <-]|[]]. exists a, b. auto.
    + destruct (Z.eqb_spec b v); [|contradiction].
      destruct Hw as [[= <- <-]|[]]. exists a, b. auto.
  - intros (a & b & Hn & Hc). exists (i, (a, b)). split.
    + apply in_indexed. rewrite Nat.sub_0_r. split; [lia|exact Hn].
    + apply in_or_app. destruct Hc as [[-> ->]|[-> ->]].
      * left. rewrite Z.eqb_refl. now left.
      * right. rewrite Z.eqb_refl. now left.
Qed.

Lemma adjacent_steps g v w :
  adjacent g v w <-> exists i, In (i, w) (steps g v).
Proof.
  unfold adjacent. split.
  - intros [H|H]; apply In_nth_error in H as [i Hi]; exists i;
      apply steps_spec; eauto 6.
  - intros [i Hi]. apply steps_spec in Hi as (a & b & Hn & Hc).
    apply nth_error_In in Hn.
    destruct Hc as [[-> ->]|[-> ->]]; auto.
Qed.

Lemma is_walk_app g p : forall v q,
  is_walk g v (p ++ q) <-> is_walk g v p /\ is_walk g (endpoint v p) q.
Proof.
  induction p as [|[i w] p IH]; intros v q; simpl.
  - tauto.
  - rewrite IH. tauto.
Qed.

Lemma endpoint_app p : forall v q,
  endpoint v (p ++ q) = endpoint (endpoint v p) q.
Proof. induction p as [|[i w] p IH]; intros v q; simpl; auto. Qed.

Lemma last_endpoint p : forall v o, last (v :: map snd p) o = endpoint v p.
Proof.
  induction p as [|[i w] p IH]; intros v o; [reflexivity|].
  change (last (v :: map snd ((i, w) :: p)) o) with (last (w :: map snd p) o).
  apply IH.
Qed.

Lemma chain_walk g o d k :
  chain g o d k <->
  exists p, List.length p = k /\ is_walk g o p /\ endpoint o p = d.
Proof.
  split.
  - induction 1 as [v|v w d k Ha _ (p & Hl & Hw & He)].
    + now exists [].
    + apply adjacent_steps in Ha as [i Hi].
      exists ((i, w) :: p). simpl. auto.
  - intros (p & Hl & Hw & He). subst k d. revert o Hw.
    induction p as [|[i w] p IH]; intros o Hw; simpl in *.
    + constructor.
    + destruct Hw as [Hs Hw]. econstructor; [|now apply IH].
      apply adjacent_steps. eauto.
Qed.

Lemma walk_linked g p : forall v, is_walk g v p -> linked g (v :: map snd p).
Proof.
  induction p as [|[i w] p IH]; intros v Hw; simpl in *; [exact I|].
  destruct Hw as [Hs Hw]. split; [|now apply IH].
  apply adjacent_steps. eauto.
Qed.

(** A repeated edge can be cut out of a walk. *)
Lemma dup_split (p : list (nat * Z)) :
  ~ NoDup (map fst p) ->
  exists p1 i w1 p2 w2 p3, p = p1 ++ (i, w1) :: p2 ++ (i, w2) :: p3.
Proof.
  induction p as [|[i w] p IH]; simpl; intros Hn.
  - destruct Hn. constructor.
  - destruct (in_dec Nat.eq_dec i (map fst p)) as [Hin|Hnin].
    + apply in_map_iff in Hin as ([j w2] & Hj & Hin). simpl in Hj. subst j.
      apply in_split in Hin as (p2 & p3 & ->).
      now exists [], i, w, p2, w2, p3.
    + destruct IH as (p1 & j & w1 & p2 & w2 & p3 & ->).
      { intros Hnd. apply Hn. now constructor. }
      now exists ((i, w) :: p1), j, w1, p2, w2, p3.
Qed.

Lemma walk_shortcut g o p :
  is_walk g o p -> ~ NoDup (map fst p) ->
  exists p', (List.length p' < List.length p)%nat /\
             is_walk g o p' /\ endpoint o p' = endpoint o p.
Proof.
  intros Hw Hn.
  destruct (dup_split p Hn) as (p1 & i & w1 & p2 & w2 & p3 & ->).
  apply is_walk_app in Hw as [H1 Hw]. simpl in Hw. destruct Hw as [S1 Hw].
  apply is_walk_app in Hw as [H2 Hw]. simpl in Hw. destruct Hw as [S2 H3].
  assert (E : endpoint o (p1 ++ (i, w1) :: p2 ++ (i, w2) :: p3) = endpoint w2 p3).
  { rewrite endpoint_app. simpl. now rewrite endpoint_app. }
  rewrite E.
  pose proof S1 as T1. pose proof S2 as T2.
  apply steps_spec in T1 as (a & b & Hn1 & C1).
  apply steps_spec in T2 as (a' & b' & Hn2 & C2).
  rewrite Hn1 in Hn2. injection Hn2 as <- <-.
  assert (Hcase : endpoint o p1 = endpoint w1 p2 \/ w2 = endpoint o p1).
  { destruct C1 as [[? ?]|[? ?]], C2 as [[? ?]|[? ?]]; [left|right|right|left]; congruence. }
  destruct Hcase as [Hxy|Hx].
  - exists (p1 ++ (i, w2) :: p3). repeat split.
    + rewrite !List.length_app. simpl. rewrite List.length_app. simpl. lia.
    + apply is_walk_app. split; [exact H1|]. simpl. rewrite Hxy. auto.
    + rewrite endpoint_app. reflexivity.
  - exists (p1 ++ p3). repeat split.
    + rewrite !List.length_app. simpl. rewrite List.length_app. simpl. lia.
    + apply is_walk_app. split; [exact H1|]. now rewrite <- Hx.
    + rewrite endpoint_app. now rewrite <- Hx.
Qed.

(** Every walk contains a trail between the same ends, no longer than it. *)
Lemma walk_trail g o : forall n p,
  (List.length p <= n)%nat -> is_walk g o p ->
  exists p', (List.length p' <= List.length p)%nat /\
             is_trail g o p' /\ endpoint o p' = endpoint o p.
Proof.
  induction n as [|n IH]; intros p Hl Hw.
  - destruct p; [|simpl in Hl; lia]. exists []. repeat split; auto. constructor.
  - destruct (NoDup_dec Nat.eq_dec (map fst p)) as [Hnd|Hnd].
    + exists p. repeat split; auto.
    + destruct (walk_shortcut g o p Hw Hnd) as (q & Hq & Hwq & Heq).
      destruct (IH q ltac:(lia) Hwq) as (p' & Hl' & Ht & He).
      exists p'. split; [lia|]. split; [exact Ht|]. congruence.
Qed.

(** *** The enumeration of trails *)

Lemma trails_spec g n : forall v used vs,
  In vs (trails g n v used) <->
  exists p, List.length p = n /\ is_trail g v p /\
            (forall i, In i (map fst p) -> ~ In i used) /\
            vs = v :: map snd p.
Proof.
  induction n as [|n IH]; intros v used vs.
  - simpl. split.
    + intros [<-|[]]. exists []. split; [reflexivity|].
      split; [split; [exact I|constructor]|]. split; [intros i []|reflexivity].
    + intros (p & Hl & _ & _ & ->). destruct p; [now left|discriminate].
  - cbn [trails]. rewrite in_flat_map. split.
    + intros ([i w] & Hs & Hin).
      destruct (existsb (Nat.eqb i) used) eqn:Hu; [destruct Hin|].
      apply in_map_iff in Hin as (vs' & <- & Hin).
      apply IH in Hin as (p & Hl & [Hw Hnd] & Hfresh & ->).
      exists ((i, w) :: p). simpl. repeat split; auto.
      * constructor; [|exact Hnd]. intros Hi. apply (Hfresh i Hi). now left.
      * intros j [<-|Hj].
        -- intros Hin. rewrite <- not_true_iff_false in Hu. apply Hu.
           apply existsb_exists. exists i. split; [exact Hin|apply Nat.eqb_refl].
        -- intros Hin. apply (Hfresh j Hj). now right.
    + intros (p & Hl & [Hw Hnd] & Hfresh & ->).
      destruct p as [|[i w] p]; [discriminate|]. simpl in *.
      destruct Hw as [Hs Hw]. injection Hl as Hl.
      exists (i, w). split; [exact Hs|].
      destruct (existsb (Nat.eqb i) used) eqn:Hu.
      * apply existsb_exists in Hu as (j & Hj & Hij).
        apply Nat.eqb_eq in Hij. subst j. exfalso. apply (Hfresh i); auto.
      * apply in_map. apply IH. exists p. inversion Hnd; subst.
        repeat split; auto.
        intros j Hj [<-|Hin]; [contradiction|]. apply (Hfresh j); auto.
Qed.

(** The paths matched at depth [n]: the trails of [n] edges from [o] to [d]. *)
Lemma match_paths_spec g o d n vs :
  In vs (match_paths g o d n) <->
  has_usuario g o = true /\ has_usuario g d = true /\
  exists p, List.length p = n /\ is_trail g o p /\ endpoint o p = d /\
            vs = o :: map snd p.
Proof.
  unfold match_paths.
  destruct (has_usuario g o), (has_usuario g d); simpl;
    try (split; [intros []|intros (? & ? & _); discriminate]).
  rewrite filter_In, trails_spec. split.
  - intros ((p & Hl & Ht & _ & ->) & He).
    rewrite last_endpoint in He. apply Z.eqb_eq in He. eauto 10.
  - intros (_ & _ & p & Hl & Ht & He & ->). split.
    + exists p. repeat split; auto; apply Ht.
    + rewrite last_endpoint. now apply Z.eqb_eq.
Qed.

Lemma match_paths_length g o d n vs :
  In vs (match_paths g o d n) -> List.length vs = S n.
Proof.
  intros H. apply match_paths_spec in H as (_ & _ & p & Hl & _ & _ & ->).
  simpl. now rewrite length_map, Hl.
Qed.

(** A chain yields a match at some depth not beyond its length. *)
Lemma chain_match g o d k :
  has_usuario g o = true -> has_usuario g d = true ->
  chain g o d k ->
  exists n, (n <= k)%nat /\ match_paths g o d n <> [].
Proof.
  intros Ho Hd Hc. apply chain_walk in Hc as (p & Hl & Hw & He).
  destruct (walk_trail g o (List.length p) p (le_n _) Hw) as (p' & Hl' & Ht & He').
  exists (List.length p'). split; [lia|].
  intros Hnil.
  assert (Hin : In (o :: map snd p') (match_paths g o d (List.length p'))).
  { apply match_paths_spec. repeat split; auto. exists p'. repeat split; try apply Ht; congruence. }
  rewrite Hnil in Hin. destruct Hin.
Qed.

(** A match is a chain of the probed length. *)
Lemma match_chain g o d n vs :
  In vs (match_paths g o d n) ->
  chain g o d n /\ linked g vs /\ hd o vs = o /\ last vs o = d.
Proof.
  intros H. apply match_paths_spec in H as (_ & _ & p & Hl & [Hw _] & He & ->).
  repeat split.
  - apply chain_walk. eauto.
  - now apply walk_linked.
  - rewrite last_endpoint. exact He.
Qed.

End Chains.


Module PathFacts.
Import Py Age Store PyFacts AgtypeFacts Chains Props.

Lemma find_by_id_eq g id log :
  UsuarioRepository.find_by_id id g log
  = (Ok (find_usuario g id), log ++ [QUsuarioById id]).
Proof.
  unfold UsuarioRepository.find_by_id, bind, usuario_by_id, execute, usuario_query, ret.
  unfold find_usuario. f_equal. f_equal.
  induction (usuarios g) as [|u l IH]; simpl; [reflexivity|].
  destruct (id_usuario u =? id); [reflexivity|exact IH].
Qed.

Lemma has_usuario_find g id :
  has_usuario g id = true <-> exists u, find_usuario g id = Some u.
Proof.
  unfold has_usuario, find_usuario. split.
  - intros H. apply existsb_exists in H as (u & Hin & Hu).
    destruct (find (fun u0 => id_usuario u0 =? id) (usuarios g)) eqn:E; [eauto|].
    apply (find_none _ _ E) in Hin. congruence.
  - intros [u H]. apply find_some in H as [Hin Hu].
    apply existsb_exists. eauto.
Qed.

Lemma has_usuario_none g id :
  has_usuario g id = false <-> find_usuario g id = None.
Proof.
  split; intros H.
  - destruct (find_usuario g id) eqn:E; [|reflexivity].
    assert (has_usuario g id = true) by (apply has_usuario_find; eauto). congruence.
  - destruct (has_usuario g id) eqn:E; [|reflexivity].
    apply has_usuario_find in E as [u E]. congruence.
Qed.

Lemma path_nodes_decoded g vs :
  rmap GraphRepository.path_node (map (path_node_row g) vs) = Ok (map (node_of g) vs).
Proof.
  induction vs as [|v vs IH]; [reflexivity|].
  cbn [map rmap]. rewrite IH.
  unfold GraphRepository.path_node at 1. cbn [pn_id_usuario path_node_row].
  rewrite int_field_int. reflexivity.
Qed.

Lemma agtype_path_truthy vs : field_truthy (agtype_path vs) = true.
Proof. reflexivity. Qed.

(** One turn of the loop of [find_shortest_path]. *)
Lemma find_from_cons g o d a depths log :
  GraphRepository.find_from o d (Z.of_nat a :: depths) g log
  = match match_paths g o d a with
    | [] => GraphRepository.find_from o d depths g (log ++ [probe o d a])
    | vs :: _ =>
        (Ok (Some (map (node_of g) vs)),
         log ++ [probe o d a; QPathNodes o d (Z.of_nat a)])
    end.
Proof.
  cbn [GraphRepository.find_from].
  unfold bind at 1. unfold path_exists at 1, execute at 1, path_query at 1.
  rewrite Nat2Z.id.
  destruct (match_paths g o d a) as [|vs rest] eqn:Hm.
  - reflexivity.
  - cbn [firstn map hd_error path]. rewrite agtype_path_truthy.
    unfold bind, path_nodes, execute, path_nodes_query, lift, ret.
    rewrite Nat2Z.id, Hm. cbn [firstn flat_map]. rewrite List.app_nil_r.
    rewrite path_nodes_decoded.
    assert (Hv : vs <> []).
    { pose proof (match_paths_length g o d a vs) as Hlen.
      rewrite Hm in Hlen. specialize (Hlen (or_introl eq_refl)).
      intros ->. discriminate. }
    destruct vs as [|v vs]; [congruence|].
    rewrite <- List.app_assoc. reflexivity.
Qed.

(** The loop of [find_shortest_path] over the depths [a, a+1, ..., a+n-1]:
    either it stops at the first depth [L] with a match, after probing
    [a..L] in that order and reading the nodes of the match at [L], or no
    depth has a match and all have been probed. *)
Lemma find_from_seq g o d n : forall a log,
  (exists L vs rest,
      (a <= L < a + n)%nat /\
      (forall j, (a <= j < L)%nat -> match_paths g o d j = []) /\
      match_paths g o d L = vs :: rest /\
      GraphRepository.find_from o d (map Z.of_nat (seq a n)) g log
      = (Ok (Some (map (node_of g) vs)),
         log ++ map (probe o d) (seq a (S (L - a))) ++ [QPathNodes o d (Z.of_nat L)]))
  \/
  ((forall j, (a <= j < a + n)%nat -> match_paths g o d j = []) /\
   GraphRepository.find_from o d (map Z.of_nat (seq a n)) g log
   = (Ok None, log ++ map (probe o d) (seq a n))).
Proof.
  induction n as [|n IH]; intros a log.
  - right. split; [intros; lia|]. simpl. unfold ret. now rewrite List.app_nil_r.
  - change (map Z.of_nat (seq a (S n))) with (Z.of_nat a :: map Z.of_nat (seq (S a) n)).
    rewrite find_from_cons.
    destruct (match_paths g o d a) as [|vs rest] eqn:Hm.
    + destruct (IH (S a) (log ++ [probe o d a]))
        as [(L & vs & rest & HL & Hlow & HmL & E)|[Hall E]].
      * left. exists L, vs, rest. split; [lia|]. split.
        { intros j Hj. destruct (Nat.eq_dec j a) as [->|]; [exact Hm|apply Hlow; lia]. }
        split; [exact HmL|]. rewrite E. f_equal.
        replace (L - a)%nat with (S (L - S a)) by lia.
        cbn [seq map]. rewrite <- !List.app_assoc. reflexivity.
      * right. split.
        { intros j Hj. destruct (Nat.eq_dec j a) as [->|]; [exact Hm|apply Hall; lia]. }
        rewrite E. f_equal. cbn [seq map]. rewrite <- List.app_assoc. reflexivity.
    + left. exists a, vs, rest. split; [lia|]. split; [intros; lia|].
      split; [exact Hm|].
      rewrite Nat.sub_diag. reflexivity.
Qed.

Lemma get_shortest_path_eq g o d max_depth :
  has_usuario g o = true -> has_usuario g d = true ->
  run (GraphService.get_shortest_path o d max_depth) g
  = match GraphRepository.find_from o d (GraphRepository.range1 max_depth) g
            [QUsuarioById o; QUsuarioById d] with
    | (Ok None, log) | (Ok (Some []), log) => (Ok not_found, log)
    | (Ok (Some path), log) => (Ok (found path), log)
    | (Raise e, log) => (Raise e, log)
    end.
Proof.
  intros Ho Hd.
  apply has_usuario_find in Ho as [uo Ho]. apply has_usuario_find in Hd as [ud Hd].
  unfold run, GraphService.get_shortest_path.
  unfold bind at 1. rewrite find_by_id_eq, Ho.
  unfold bind at 1. rewrite find_by_id_eq, Hd.
  unfold bind at 1. unfold GraphRepository.find_shortest_path.
  cbn [app].
  destruct (GraphRepository.find_from o d (GraphRepository.range1 max_depth) g
              [QUsuarioById o; QUsuarioById d]) as [[[[|n path]|]|e] log];
    reflexivity.
Qed.

(** What a request for the path between two existing users does: the two
    vertex lookups, then the probes at depths 1, 2, ... up to the first depth
    [L] with a match, whose nodes are read and returned; or, when no depth up
    to [max_depth] has a match, all the probes and the not-found response. *)
Lemma get_shortest_path_run g o d max_depth :
  has_usuario g o = true -> has_usuario g d = true ->
  (exists L vs rest,
      (1 <= L <= Z.to_nat max_depth)%nat /\
      (forall j, (1 <= j < L)%nat -> match_paths g o d j = []) /\
      match_paths g o d L = vs :: rest /\
      run (GraphService.get_shortest_path o d max_depth) g
      = (Ok (found (map (node_of g) vs)),
         [QUsuarioById o; QUsuarioById d] ++ map (probe o d) (seq 1 L)
           ++ [QPathNodes o d (Z.of_nat L)]))
  \/
  ((forall j, (1 <= j <= Z.to_nat max_depth)%nat -> match_paths g o d j = []) /\
   run (GraphService.get_shortest_path o d max_depth) g
   = (Ok not_found,
      [QUsuarioById o; QUsuarioById d] ++ map (probe o d) (seq 1 (Z.to_nat max_depth)))).
Proof.
  intros Ho Hd.
  rewrite (get_shortest_path_eq g o d max_depth Ho Hd).
  unfold GraphRepository.range1.
  destruct (find_from_seq g o d (Z.to_nat max_depth) 1%nat
              [QUsuarioById o; QUsuarioById d])
    as [(L & vs & rest & HL & Hlow & Hm & E)|[Hall E]].
  - left. exists L, vs, rest. split; [lia|]. split; [exact Hlow|]. split; [exact Hm|].
    rewrite E.
    assert (Hv : List.length vs = S L).
    { apply (match_paths_length g o d). rewrite Hm. now left. }
    destruct vs as [|v vs]; [discriminate|].
    cbn [map]. replace (S (L - 1)) with L by lia. reflexivity.
  - right. split; [intros j Hj; apply Hall; lia|].
    rewrite E. reflexivity.
Qed.

End PathFacts.


Module PathClaims.
Import Py Age Store PyFacts AgtypeFacts Chains PathFacts Examples Props.
Import GraphService GraphRepository.

Lemma ids_of_nodes g vs : map pn_id (map (node_of g) vs) = vs.
Proof. rewrite map_map. simpl. apply map_id. Qed.

Lemma match_nonempty_pos g o d n :
  o <> d -> match_paths g o d n <> [] -> (1 <= n)%nat.
Proof.
  intros Hod Hm. destruct n; [|lia]. exfalso. apply Hm.
  unfold match_paths. destruct (has_usuario g o && has_usuario g d); [|reflexivity].
  simpl. destruct (Z.eqb_spec o d); [contradiction|reflexivity].
Qed.

(** C1.  When origin and destination are distinct existing users joined by
    an undirected chain of [k <= max_depth] CONECTADO edges, the request
    succeeds with [exists = true]; it has probed the depths 1, 2, ..., L in
    that order and stopped at L, the first depth with a chain; the returned
    path has L+1 vertices, runs from origin to destination along adjacent
    users, and its length L is at most [k] and no chain between them is
    shorter than L.  In particular the length is [k] when [k] is the length
    of a shortest chain. *)
Theorem shortest_path_is_shortest (g : Graph) (o d max_depth : Z) (k : nat) :
  o <> d ->
  has_usuario g o = true -> has_usuario g d = true ->
  chain g o d k -> Z.of_nat k <= max_depth ->
  exists r L,
    run (get_shortest_path o d max_depth) g
    = (Ok r, [QUsuarioById o; QUsuarioById d] ++ map (probe o d) (seq 1 L)
               ++ [QPathNodes o d (Z.of_nat L)]) /\
    sp_exists r = true /\
    sp_length r = Z.of_nat L /\
    List.length (sp_path r) = S L /\
    hd o (map pn_id (sp_path r)) = o /\
    last (map pn_id (sp_path r)) o = d /\
    linked g (map pn_id (sp_path r)) /\
    (L <= k)%nat /\
    (forall j, chain g o d j -> (L <= j)%nat) /\
    ((forall j, chain g o d j -> (k <= j)%nat) -> sp_length r = Z.of_nat k).
Proof.
  intros Hod Ho Hd Hk Hmax.
  assert (Hmin : forall L, (forall j, (1 <= j < L)%nat -> match_paths g o d j = []) ->
                 forall j, chain g o d j -> match_paths g o d L <> [] -> (L <= j)%nat).
  { intros L Hlow j Hj HL.
    destruct (chain_match g o d j Ho Hd Hj) as (n & Hn & Hne).
    pose proof (match_nonempty_pos g o d n Hod Hne).
    destruct (le_lt_dec L n); [lia|]. exfalso. apply Hne, Hlow. lia. }
  destruct (get_shortest_path_run g o d max_depth Ho Hd)
    as [(L & vs & rest & HL & Hlow & Hm & E)|[Hall E]].
  - assert (Hin : In vs (match_paths g o d L)) by (rewrite Hm; now left).
    destruct (match_chain g o d L vs Hin) as (Hc & Hlk & Hhd & Hlast).
    pose proof (match_paths_length g o d L vs Hin) as Hlen.
    assert (Hne : match_paths g o d L <> []) by (rewrite Hm; discriminate).
    assert (HLk : (L <= k)%nat) by (apply (Hmin L Hlow k Hk Hne)).
    exists (found (map (node_of g) vs)), L.
    split; [exact E|]. split; [reflexivity|].
    assert (Hsz : sp_length (found (map (node_of g) vs)) = Z.of_nat L).
    { cbn [found sp_length]. unfold size. rewrite length_map, Hlen. lia. }
    split; [exact Hsz|].
    cbn [found sp_path]. rewrite ids_of_nodes, length_map.
    split; [exact Hlen|]. split; [exact Hhd|]. split; [exact Hlast|].
    split; [exact Hlk|]. split; [exact HLk|]. split.
    + intros j Hj. apply (Hmin L Hlow j Hj Hne).
    + intros Hkmin. rewrite Hsz. f_equal. specialize (Hkmin L Hc). lia.
  - exfalso.
    destruct (chain_match g o d k Ho Hd Hk) as (n & Hn & Hne).
    pose proof (match_nonempty_pos g o d n Hod Hne).
    apply Hne, Hall. lia.
Qed.

(** The example of the specification: edges 1->2, 2->3, 1->4, 4->3 and the
    path from 1 to 3 within depth 3. *)
Lemma shortest_path_is_shortest_witness :
  exists r L,
    run (get_shortest_path 1 3 3) diamond
    = (Ok r, [QUsuarioById 1; QUsuarioById 3] ++ map (probe 1 3) (seq 1 L)
               ++ [QPathNodes 1 3 (Z.of_nat L)]) /\
    sp_exists r = true /\
    sp_length r = Z.of_nat L /\
    List.length (sp_path r) = S L /\
    hd 1 (map pn_id (sp_path r)) = 1 /\
    last (map pn_id (sp_path r)) 1 = 3 /\
    linked diamond (map pn_id (sp_path r)) /\
    (L <= 2)%nat /\
    (forall j, chain diamond 1 3 j -> (L <= j)%nat) /\
    ((forall j, chain diamond 1 3 j -> (2 <= j)%nat) -> sp_length r = Z.of_nat 2).
Proof.
  apply (shortest_path_is_shortest diamond 1 3 3 2).
  - discriminate.
  - reflexivity.
  - reflexivity.
  - apply (chain_step diamond 1 2 3 1); [left; simpl; auto|].
    apply (chain_step diamond 2 3 3 0); [left; simpl; auto|].
    apply chain_here.
  - lia.
Defined.

(** C8.  When no undirected chain of length at most [max_depth] joins two
    existing users, the request succeeds with status 200 and the response
    [{exists: false, path: [], length: 0}], after the two lookups and one
    probe per depth; nothing is raised. *)
Theorem no_path_is_success (g : Graph) (o d max_depth : Z) :
  has_usuario g o = true -> has_usuario g d = true ->
  (forall k, Z.of_nat k <= max_depth -> ~ chain g o d k) ->
  run (get_shortest_path o d max_depth) g
  = (Ok {| sp_status_code := 200;
           sp_message := "No existe un camino entre los usuarios";
           sp_path := [];
           sp_length := 0;
           sp_exists := false |},
     [QUsuarioById o; QUsuarioById d]
       ++ map (probe o d) (seq 1 (Z.to_nat max_depth))).
Proof.
  intros Ho Hd Hno.
  destruct (get_shortest_path_run g o d max_depth Ho Hd)
    as [(L & vs & rest & HL & Hlow & Hm & E)|[Hall E]].
  - exfalso. apply (Hno L); [lia|].
    apply (match_chain g o d L vs). rewrite Hm. now left.
  - exact E.
Qed.

Lemma islands_no_chain k : (1 <= k)%nat -> forall o d, ~ chain islands o d k.
Proof.
  intros Hk o d Hc. inversion Hc as [|v w d' k' Ha _]; subst; [lia|].
  destruct Ha as [[]|[]].
Qed.

Lemma no_path_is_success_witness :
  run (get_shortest_path 1 3 3) islands
  = (Ok {| sp_status_code := 200;
           sp_message := "No existe un camino entre los usuarios";
           sp_path := [];
           sp_length := 0;
           sp_exists := false |},
     [QUsuarioById 1; QUsuarioById 3] ++ map (probe 1 3) (seq 1 (Z.to_nat 3))).
Proof.
  apply (no_path_is_success islands 1 3 3).
  - reflexivity.
  - reflexivity.
  - intros k _ Hc. destruct k as [|k].
    + inversion Hc.
    + apply (islands_no_chain (S k) ltac:(lia) 1 3 Hc).
Defined.

(** C2, counterexample.  For user 1 of a graph without edges and depth 3
    the code sends three probes and answers that no path exists. *)
Lemma same_user_counterexample :
  run (get_shortest_path 1 1 3) islands
  = (Ok not_found,
     [QUsuarioById 1; QUsuarioById 1;
      QPathExists 1 1 1; QPathExists 1 1 2; QPathExists 1 1 3]) /\
  ~ trivial_path_without_probe islands 1 3.
Proof.
  assert (E : run (get_shortest_path 1 1 3) islands
              = (Ok not_found,
                 [QUsuarioById 1; QUsuarioById 1;
                  QPathExists 1 1 1; QPathExists 1 1 2; QPathExists 1 1 3]))
    by (vm_compute; reflexivity).
  split; [exact E|].
  intros (r & log & Hrun & Hpath & _). rewrite E in Hrun.
  injection Hrun as <- <-. discriminate Hpath.
Qed.

(** C2, as the code has it.  For an existing user [x] the request never
    returns the single-vertex path: after the two lookups of [x] it probes
    the depths 1, 2, ... like any other request, so at least one probe is
    sent when [max_depth >= 1], and it answers either that no path exists
    (when no chain without repeated edge leads from [x] back to [x] within
    the bound) or with the first closed chain found, of length [L >= 1] and
    [L + 1] vertices, starting and ending at [x]. *)
Theorem same_user_path (g : Graph) (x max_depth : Z) :
  has_usuario g x = true ->
  exists r log,
    run (get_shortest_path x x max_depth) g = (Ok r, log) /\
    List.length (sp_path r) <> 1%nat /\
    (1 <= max_depth -> existsb is_path_probe log = true) /\
    ((r = not_found /\
      log = [QUsuarioById x; QUsuarioById x]
              ++ map (probe x x) (seq 1 (Z.to_nat max_depth)) /\
      forall j, (1 <= j <= Z.to_nat max_depth)%nat -> match_paths g x x j = [])
     \/
     (exists L,
        (1 <= L <= Z.to_nat max_depth)%nat /\
        sp_exists r = true /\
        sp_length r = Z.of_nat L /\
        List.length (sp_path r) = S L /\
        hd x (map pn_id (sp_path r)) = x /\
        last (map pn_id (sp_path r)) x = x /\
        linked g (map pn_id (sp_path r)) /\
        forall j, (1 <= j < L)%nat -> match_paths g x x j = [])).
Proof.
  intros Hx.
  destruct (get_shortest_path_run g x x max_depth Hx Hx)
    as [(L & vs & rest & HL & Hlow & Hm & E)|[Hall E]].
  - assert (Hin : In vs (match_paths g x x L)) by (rewrite Hm; now left).
    destruct (match_chain g x x L vs Hin) as (Hc & Hlk & Hhd & Hlast).
    pose proof (match_paths_length g x x L vs Hin) as Hlen.
    eexists _, _. split; [exact E|].
    cbn [found sp_path sp_length sp_exists]. rewrite ids_of_nodes, length_map.
    split; [lia|]. split.
    + intros _. rewrite !existsb_app. simpl. now rewrite orb_true_r.
    + right. exists L. split; [exact HL|]. split; [reflexivity|].
      split; [unfold size; rewrite length_map; lia|]. auto.
  - eexists _, _. split; [exact E|].
    split; [discriminate|]. split.
    + intros Hm. destruct (Z.to_nat max_depth) as [|n] eqn:En; [lia|]. reflexivity.
    + left. auto.
Qed.

(** A reciprocated connection 1->2, 2->1: the request from 1 to 1 finds the
    closed chain 1, 2, 1. *)
Lemma same_user_path_witness :
  exists r log,
    run (get_shortest_path 1 1 3) mutual = (Ok r, log) /\
    List.length (sp_path r) <> 1%nat /\
    (1 <= 3 -> existsb is_path_probe log = true) /\
    ((r = not_found /\
      log = [QUsuarioById 1; QUsuarioById 1]
              ++ map (probe 1 1) (seq 1 (Z.to_nat 3)) /\
      forall j, (1 <= j <= Z.to_nat 3)%nat -> match_paths mutual 1 1 j = [])
     \/
     (exists L,
        (1 <= L <= Z.to_nat 3)%nat /\
        sp_exists r = true /\
        sp_length r = Z.of_nat L /\
        List.length (sp_path r) = S L /\
        hd 1 (map pn_id (sp_path r)) = 1 /\
        last (map pn_id (sp_path r)) 1 = 1 /\
        linked mutual (map pn_id (sp_path r)) /\
        forall j, (1 <= j < L)%nat -> match_paths mutual 1 1 j = [])).
Proof.
  apply (same_user_path mutual 1 3). reflexivity.
Defined.

(** On that graph the answer is the path 1, 2, 1 of length 2. *)
Example same_user_mutual :
  exists r log,
    run (get_shortest_path 1 1 3) mutual = (Ok r, log) /\
    map pn_id (sp_path r) = [1; 2; 1] /\ sp_length r = 2 /\ sp_exists r = true /\
    log = [QUsuarioById 1; QUsuarioById 1; QPathExists 1 1 1; QPathExists 1 1 2;
           QPathNodes 1 1 2].
Proof. eexists _, _. vm_compute. repeat split. Qed.

End PathClaims.


Module QueryFacts.
Import Py Age Props.

(** *** [ORDER BY] and [LIMIT] *)

Lemma firstn_in {A} n (l : list A) x : In x (firstn n l) -> In x l.
Proof.
  revert l. induction n as [|n IH]; intros [|a l]; simpl; try tauto.
  intros [->|H]; auto.
Qed.

Lemma in_insert_by {A} (le : A -> A -> bool) (x a : A) l :
  In x (insert_by le a l) <-> x = a \/ In x l.
Proof.
  induction l as [|y l IH]; simpl; [intuition|].
  destruct (le a y); simpl; rewrite ?IH; intuition.
Qed.

Lemma in_sort_by {A} (le : A -> A -> bool) (x : A) l : In x (sort_by le l) <-> In x l.
Proof.
  induction l as [|y l IH]; simpl; [tauto|].
  rewrite in_insert_by, IH. intuition.
Qed.

Section Sorting.
Context {A : Type} (key : A -> Z).

Lemma insert_by_desc a l :
  StronglySorted (desc key) l -> StronglySorted (desc key) (insert_by (desc_le key) a l).
Proof.
  induction 1 as [|y l Hs IH Hy]; simpl.
  - repeat constructor.
  - unfold desc_le at 1. destruct (Z.leb_spec (key y) (key a)) as [Hle|Hlt].
    + constructor; [now constructor|]. constructor; [exact Hle|].
      rewrite Forall_forall in *. intros z Hz. specialize (Hy z Hz).
      unfold desc in *. lia.
    + constructor; [exact IH|].
      rewrite Forall_forall in *. intros z Hz.
      apply in_insert_by in Hz as [->|Hz]; [unfold desc; lia|auto].
Qed.

Lemma sort_by_desc l : StronglySorted (desc key) (sort_by (desc_le key) l).
Proof.
  induction l as [|a l IH]; simpl; [constructor|]. now apply insert_by_desc.
Qed.

Lemma firstn_sorted (R : A -> A -> Prop) n : forall l,
  StronglySorted R l -> StronglySorted R (firstn n l).
Proof.
  induction n as [|n IH]; intros l Hs; [constructor|].
  destruct Hs as [|a l Hs Ha]; simpl; [constructor|].
  constructor; [now apply IH|].
  rewrite Forall_forall in *. intros x Hx. apply Ha.
  now apply (firstn_in n l).
Qed.

End Sorting.

Lemma sorted_map {A B} (f : A -> B) (R : B -> B -> Prop) l :
  StronglySorted (fun a b => R (f a) (f b)) l -> StronglySorted R (map f l).
Proof.
  induction 1 as [|a l Hs IH Ha]; simpl; constructor; auto.
  rewrite Forall_forall in *. intros y Hy.
  apply in_map_iff in Hy as (x & <- & Hx). auto.
Qed.

Lemma limit_ok {A} n (rows : list A) :
  0 <= n -> limit n rows = Ok (firstn (Z.to_nat n) rows).
Proof. intros H. unfold limit. destruct (Z.ltb_spec n 0); [lia|reflexivity]. Qed.

Lemma limit_neg {A} n (rows : list A) :
  n < 0 -> limit n rows = Raise (DatabaseError "LIMIT must not be negative").
Proof. intros H. unfold limit. destruct (Z.ltb_spec n 0); [reflexivity|lia]. Qed.

(** *** [collect(DISTINCT ...)] *)

Lemma in_collect_distinct {K} (eq_dec : forall a b : K, {a = b} + {a <> b}) l k vs :
  In (k, vs) (collect_distinct eq_dec l) ->
  In k (map fst l) /\
  NoDup vs /\
  (forall v, In v vs <-> In (k, v) l).
Proof.
  unfold collect_distinct. intros H.
  apply in_map_iff in H as (k' & [= <- <-] & Hk).
  apply nodup_In in Hk. split; [exact Hk|]. split; [apply NoDup_nodup|].
  intros v. rewrite nodup_In, in_map_iff. split.
  - intros ([k0 v0] & Hv & Hin). simpl in Hv. subst v0.
    apply filter_In in Hin as [Hin Hk0]. simpl in Hk0.
    destruct (eq_dec k0 k'); [subst; exact Hin|discriminate].
  - intros Hin. exists (k', v). split; [reflexivity|].
    apply filter_In. split; [exact Hin|]. simpl.
    destruct (eq_dec k' k'); [reflexivity|contradiction].
Qed.

Lemma collect_distinct_keys {K} (eq_dec : forall a b : K, {a = b} + {a <> b}) l :
  NoDup (map fst (collect_distinct eq_dec l)).
Proof.
  unfold collect_distinct. rewrite map_map. simpl. rewrite map_id. apply NoDup_nodup.
Qed.

Lemma collect_distinct_complete {K} (eq_dec : forall a b : K, {a = b} + {a <> b}) l k v :
  In (k, v) l -> exists vs, In (k, vs) (collect_distinct eq_dec l).
Proof.
  intros H. unfold collect_distinct. eexists. apply in_map_iff. exists k.
  split; [reflexivity|]. apply nodup_In. apply in_map_iff. now exists (k, v).
Qed.

Lemma collect_distinct_nonempty {K} (eq_dec : forall a b : K, {a = b} + {a <> b}) l k vs :
  In (k, vs) (collect_distinct eq_dec l) -> 1 <= size vs.
Proof.
  intros H. apply in_collect_distinct in H as (Hk & _ & Hv).
  apply in_map_iff in Hk as ([k0 v] & Hk0 & Hin). simpl in Hk0. subst k0.
  apply Hv in Hin. unfold size. destruct vs; [destruct Hin|simpl; lia].
Qed.

(** *** Friends of friends *)

Lemma in_out_neighbors g v w : In w (out_neighbors g v) <-> In (v, w) (conectado g).
Proof.
  unfold out_neighbors. rewrite in_map_iff. split.
  - intros ([a b] & Hb & Hin). simpl in Hb. subst b.
    apply filter_In in Hin as [Hin Ha]. simpl in Ha.
    apply Z.eqb_eq in Ha. now subst.
  - intros H. exists (v, w). split; [reflexivity|].
    apply filter_In. split; [exact H|]. simpl. apply Z.eqb_refl.
Qed.

Lemma in_fof_matches g u fof friend :
  In (fof, friend) (fof_matches g u) <->
  has_usuario g u = true /\ has_usuario g friend = true /\ has_usuario g fof = true /\
  In (u, friend) (conectado g) /\ In (friend, fof) (conectado g) /\
  fof <> u /\ ~ In (u, fof) (conectado g).
Proof.
  unfold fof_matches. destruct (has_usuario g u); [|split; [intros []|intros [? _]; discriminate]].
  rewrite in_flat_map. split.
  - intros (f & Hf & Hin).
    apply filter_In in Hf as [Hf Hfu]. apply in_out_neighbors in Hf.
    apply in_map_iff in Hin as (x & [= <- <-] & Hx).
    apply filter_In in Hx as [Hx Hc]. apply in_out_neighbors in Hx.
    apply andb_true_iff in Hc as [Hc Hnc]. apply andb_true_iff in Hc as [Hxu Hne].
    apply negb_true_iff in Hne, Hnc. apply Z.eqb_neq in Hne.
    repeat split; auto.
    intros Hd. apply in_out_neighbors in Hd.
    rewrite <- not_true_iff_false in Hnc. apply Hnc.
    apply existsb_exists. exists x. split; [exact Hd|apply Z.eqb_refl].
  - intros (_ & Hfu & Hxu & Huf & Hfx & Hne & Hnd).
    exists friend. split.
    + apply filter_In. split; [now apply in_out_neighbors|exact Hfu].
    + apply in_map_iff. exists fof. split; [reflexivity|].
      apply filter_In. split; [now apply in_out_neighbors|].
      rewrite Hxu. simpl. apply andb_true_iff. split.
      * apply negb_true_iff, Z.eqb_neq. congruence.
      * apply negb_true_iff. apply not_true_iff_false. intros He.
        apply existsb_exists in He as (y & Hy & Hxy). apply Z.eqb_eq in Hxy. subst y.
        apply Hnd. now apply in_out_neighbors.
Qed.

(** What the friend-of-friend statement guarantees of each group returned. *)
Lemma in_fof_groups g u min_common fof friends :
  In (fof, friends) (fof_groups g u min_common) ->
  min_common <= size friends /\ 1 <= size friends /\ NoDup friends /\
  fof <> u /\ ~ In (u, fof) (conectado g) /\
  (forall f, In f friends <->
             has_usuario g f = true /\ In (u, f) (conectado g) /\ In (f, fof) (conectado g)).
Proof.
  unfold fof_groups. rewrite in_sort_by, filter_In. simpl.
  intros [Hin Hmin]. apply Z.leb_le in Hmin.
  pose proof (collect_distinct_nonempty _ _ _ _ Hin) as Hpos.
  apply in_collect_distinct in Hin as (Hk & Hnd & Hv).
  apply in_map_iff in Hk as ([x f0] & Hx & Hm). simpl in Hx. subst x.
  apply in_fof_matches in Hm as (Hu & _ & Hxu & _ & _ & Hne & Hnc).
  split; [exact Hmin|]. split; [exact Hpos|]. split; [exact Hnd|].
  split; [exact Hne|]. split; [exact Hnc|].
  intros f. rewrite Hv, in_fof_matches. tauto.
Qed.

Lemma fof_groups_sorted g u min_common :
  StronglySorted (desc (fun grp : Z * list Z => size (snd grp)))
                 (fof_groups g u min_common).
Proof. apply (sort_by_desc (fun grp : Z * list Z => size (snd grp))). Qed.

End QueryFacts.


Module RecommendationFacts.
Import Py Age Store PyFacts AgtypeFacts PathFacts QueryFacts Props.
Import GraphRepository GraphService.

Lemma process_rows_groups g grps : forall m acc,
  process_rows (map (fof_row g) grps) m acc
  = Ok (acc ++ map (temp_of g) grps, max_count grps m).
Proof.
  induction grps as [|grp grps IH]; intros m acc.
  - simpl. now rewrite List.app_nil_r.
  - cbn [map process_rows fof_row fr_id_usuario fr_nombre fr_apellidos fr_common_friends].
    rewrite int_field_int. cbn [rbind].
    rewrite parse_array_int_list. cbn [rbind].
    rewrite IH. cbn [max_count fold_left].
    rewrite <- List.app_assoc. cbn [app].
    replace (if m <? size (snd grp) then size (snd grp) else m)
      with (Z.max m (size (snd grp))); [reflexivity|].
    destruct (Z.ltb_spec m (size (snd grp))); lia.
Qed.

Lemma max_count_ge grps : forall m, m <= max_count grps m.
Proof.
  induction grps as [|grp grps IH]; intros m; [simpl; lia|].
  change (max_count (grp :: grps) m) with (max_count grps (Z.max m (size (snd grp)))).
  specialize (IH (Z.max m (size (snd grp)))). lia.
Qed.

Lemma score_items g M grps :
  M <> 0 -> rmap (score_item M) (map (temp_of g) grps) = Ok (map (scored g M) grps).
Proof.
  intros HM. induction grps as [|grp grps IH]; [reflexivity|].
  cbn [map rmap]. rewrite IH.
  unfold score_item at 1, truediv.
  destruct (Z.eqb_spec M 0); [contradiction|]. reflexivity.
Qed.

(** The repository method, as a function of the groups the store returns. *)
Lemma fof_recommendations_eq g u lim min_common log :
  get_friend_of_friend_recommendations u lim min_common g log
  = match limit lim (fof_groups g u min_common) with
    | Ok grps => (Ok (map (scored g (max_count grps 1)) grps),
                  log ++ [QFriendOfFriend u lim min_common])
    | Raise e => (Raise e, log ++ [QFriendOfFriend u lim min_common])
    end.
Proof.
  unfold get_friend_of_friend_recommendations, bind, friend_of_friend, execute, fof_query.
  destruct (limit lim (fof_groups g u min_common)) as [grps|e]; [|reflexivity].
  cbn [rbind].
  destruct grps as [|grp grps]; [reflexivity|].
  remember (grp :: grps) as l eqn:El.
  replace (match map (fof_row g) l with
           | [] => ret []
           | _ :: _ =>
               fun (g0 : Graph) (log0 : list query) =>
               match lift (process_rows (map (fof_row g) l) 1 []) g0 log0 with
               | (Ok a, log') =>
                   (let '(temp_results, max_common) := a in
                    lift (rmap (score_item max_common) temp_results)) g0 log'
               | (Raise e, log') => (Raise e, log')
               end
           end g (log ++ [QFriendOfFriend u lim min_common]))
    with (match lift (process_rows (map (fof_row g) l) 1 []) g
                  (log ++ [QFriendOfFriend u lim min_common]) with
          | (Ok a, log') =>
              (let '(temp_results, max_common) := a in
               lift (rmap (score_item max_common) temp_results)) g log'
          | (Raise e, log') => (Raise e, log')
          end) by (subst l; reflexivity).
  unfold lift. rewrite process_rows_groups. cbn [app].
  rewrite score_items; [reflexivity|].
  pose proof (max_count_ge l 1). lia.
Qed.

(** The service method on every input. *)
Lemma get_recommendations_run g u lim min_common :
  run (get_recommendations u lim min_common) g
  = if has_usuario g u then
      match limit lim (fof_groups g u min_common) with
      | Ok grps =>
          (Ok (recommendations_response u (map (scored g (max_count grps 1)) grps)),
           [QUsuarioById u; QFriendOfFriend u lim min_common])
      | Raise e => (Raise e, [QUsuarioById u; QFriendOfFriend u lim min_common])
      end
    else
      (Raise (HTTPException HTTP_404_NOT_FOUND
                ("Usuario con ID " ++ str_of_int u ++ " no encontrado")%string),
       [QUsuarioById u]).
Proof.
  unfold run, get_recommendations. unfold bind at 1. rewrite find_by_id_eq.
  destruct (has_usuario g u) eqn:Hu.
  - apply has_usuario_find in Hu as [usr ->].
    unfold bind. rewrite fof_recommendations_eq.
    destruct (limit lim (fof_groups g u min_common)); reflexivity.
  - apply has_usuario_none in Hu. rewrite Hu. reflexivity.
Qed.

End RecommendationFacts.


Module RecommendationClaims.
Import Py Age Store PyFacts AgtypeFacts PathFacts QueryFacts RecommendationFacts Examples Props.
Import GraphRepository GraphService.

Lemma limit_inv {A} n (rows out : list A) :
  limit n rows = Ok out -> 0 <= n /\ out = firstn (Z.to_nat n) rows.
Proof.
  unfold limit. destruct (Z.ltb_spec n 0); [discriminate|].
  intros [= <-]. auto.
Qed.

Lemma limit_raise {A} n (rows : list A) e :
  limit n rows = Raise e -> e = DatabaseError "LIMIT must not be negative".
Proof. unfold limit. destruct (n <? 0); [congruence|discriminate]. Qed.

(** What a successful run returns. *)
Lemma get_recommendations_ok g u lim min_common r log :
  run (get_recommendations u lim min_common) g = (Ok r, log) ->
  exists grps,
    0 <= lim /\ grps = firstn (Z.to_nat lim) (fof_groups g u min_common) /\
    recommendations r = map (scored g (max_count grps 1)) grps.
Proof.
  rewrite get_recommendations_run.
  destruct (has_usuario g u); [|discriminate].
  destruct (limit lim (fof_groups g u min_common)) as [grps|e] eqn:El; [|discriminate].
  intros [= <- <-]. apply limit_inv in El as [Hl ->]. eauto.
Qed.

Lemma get_recommendations_total g u lim min_common :
  has_usuario g u = true -> 0 <= lim ->
  exists r, run (get_recommendations u lim min_common) g
            = (Ok r, [QUsuarioById u; QFriendOfFriend u lim min_common]).
Proof.
  intros Hu Hl. rewrite get_recommendations_run, Hu, limit_ok by exact Hl. eauto.
Qed.

(** C7.  For every user, limit and minimum: a request for an existing user
    with a non-negative limit succeeds, and whenever the request succeeds,
    every entry is a person two directed CONECTADO hops away from the user,
    is not the user, is not a direct connection of the user, has at least
    [min_common] common friends (its count being the number of the ids
    listed, each a direct connection of the user that is connected to the
    entry); the entries are in decreasing order of the count, and there are
    at most [limit] of them. *)
Theorem recommendations_sound (g : Graph) (u lim min_common : Z) :
  (has_usuario g u = true -> 0 <= lim ->
   exists r, run (get_recommendations u lim min_common) g
             = (Ok r, [QUsuarioById u; QFriendOfFriend u lim min_common])) /\
  (forall r log,
     run (get_recommendations u lim min_common) g = (Ok r, log) ->
     (forall rec, In rec (recommendations r) ->
        two_hops g u (rec_id_usuario rec) /\
        rec_id_usuario rec <> u /\
        ~ In (u, rec_id_usuario rec) (conectado g) /\
        min_common <= common_friends rec /\
        common_friends rec = size (common_friends_ids rec) /\
        (forall f, In f (common_friends_ids rec) ->
                   In (u, f) (conectado g) /\ In (f, rec_id_usuario rec) (conectado g))) /\
     StronglySorted (fun a b => common_friends b <= common_friends a)
                    (recommendations r) /\
     size (recommendations r) <= lim).
Proof.
  split.
  - apply get_recommendations_total.
  - intros r log Hrun.
    apply get_recommendations_ok in Hrun as (grps & Hl & Hg & ->).
    split; [|split].
    + intros rec Hrec. apply in_map_iff in Hrec as ([x fs] & <- & Hin).
      rewrite Hg in Hin. apply firstn_in in Hin.
      apply in_fof_groups in Hin as (Hmin & Hpos & Hnd & Hne & Hnc & Hfs).
      cbn [scored rec_id_usuario common_friends common_friends_ids fst snd].
      split.
      { unfold size in Hpos. destruct fs as [|f fs]; [simpl in Hpos; lia|].
        exists f. apply Hfs. now left. }
      repeat split; auto; apply Hfs in H; tauto.
    + apply sorted_map. rewrite Hg. apply firstn_sorted.
      apply fof_groups_sorted.
    + unfold size. rewrite length_map, Hg.
      pose proof (firstn_le_length (Z.to_nat lim) (fof_groups g u min_common)). lia.
Qed.

(** The example of the specification: edges 1->2, 1->3, 2->5, 3->5 and the
    request of user 1 with limit 10 and minimum 1. *)
Lemma recommendations_sound_witness :
  exists r,
    run (get_recommendations 1 10 1) fan
    = (Ok r, [QUsuarioById 1; QFriendOfFriend 1 10 1]) /\
    (forall rec, In rec (recommendations r) ->
        two_hops fan 1 (rec_id_usuario rec) /\
        rec_id_usuario rec <> 1 /\
        ~ In (1, rec_id_usuario rec) (conectado fan) /\
        1 <= common_friends rec /\
        common_friends rec = size (common_friends_ids rec) /\
        (forall f, In f (common_friends_ids rec) ->
                   In (1, f) (conectado fan) /\ In (f, rec_id_usuario rec) (conectado fan))) /\
    StronglySorted (fun a b => common_friends b <= common_friends a)
                   (recommendations r) /\
    size (recommendations r) <= 10.
Proof.
  destruct (recommendations_sound fan 1 10 1) as [Htotal Hsound].
  destruct (Htotal eq_refl ltac:(lia)) as [r Hr].
  exists r. split; [exact Hr|]. exact (Hsound r _ Hr).
Defined.

Example recommendations_fan :
  fst (run (get_recommendations 1 10 1) fan)
  = Ok {| rr_status_code := 200;
          rr_message := "Encontradas 1 recomendaciones";
          rr_user_id := 1;
          recommendations :=
            [ {| rec_id_usuario := 5;
                 rec_nombre_completo := "Sara Vega";
                 common_friends := 2;
                 common_friends_ids := [2; 3];
                 score := 1%float |} ];
          rr_total := 1 |}.
Proof. vm_compute. reflexivity. Qed.

Lemma max_count_observed grps : forall m,
  0 <= m ->
  max_count grps m = Z.max m (fold_right Z.max 0 (map (fun grp => size (snd grp)) grps)).
Proof.
  induction grps as [|grp grps IH]; intros m Hm.
  - simpl. lia.
  - change (max_count (grp :: grps) m) with (max_count grps (Z.max m (size (snd grp)))).
    rewrite IH by lia. cbn [map fold_right]. lia.
Qed.

Lemma max_attained (l : list Z) :
  l <> [] -> (forall x, In x l -> 0 <= x) -> In (fold_right Z.max 0 l) l.
Proof.
  induction l as [|a l IH]; [congruence|]. intros _ Hpos.
  cbn [fold_right]. destruct l as [|b l].
  - left. simpl. specialize (Hpos a (or_introl eq_refl)). lia.
  - assert (Hin : In (fold_right Z.max 0 (b :: l)) (b :: l)).
    { apply IH; [discriminate|]. intros x Hx. apply Hpos. now right. }
    destruct (Z.max_spec a (fold_right Z.max 0 (b :: l))) as [[_ ->]|[_ ->]];
      [now right|now left].
Qed.

(** C6.  A request never raises a division error, and whenever it succeeds
    with a non-empty list, the counts returned have a maximum of at least 1
    that one of the entries attains, and the score of each entry is its count
    divided by that maximum, rounded to two decimals.  The maximum is taken
    over the entries returned, that is after the limit was applied. *)
Theorem score_uses_returned_max (g : Graph) (u lim min_common : Z) :
  fst (run (get_recommendations u lim min_common) g) <> Raise ZeroDivisionError /\
  (forall r log,
     run (get_recommendations u lim min_common) g = (Ok r, log) ->
     forall rec, In rec (recommendations r) ->
       1 <= observed_max (recommendations r) /\
       (exists top, In top (recommendations r) /\
                    common_friends top = observed_max (recommendations r)) /\
       exists q, truediv (common_friends rec) (observed_max (recommendations r)) = Ok q /\
                 score rec = round q 2).
Proof.
  split.
  - rewrite get_recommendations_run.
    destruct (has_usuario g u); [|discriminate].
    destruct (limit lim (fof_groups g u min_common)) as [grps|e] eqn:El; [discriminate|].
    apply limit_raise in El. subst e. discriminate.
  - intros r log Hrun rec Hrec.
    apply get_recommendations_ok in Hrun as (grps & Hl & Hg & Hr).
    rewrite Hr in *. clear Hr.
    set (M := max_count grps 1) in *.
    assert (Hsizes : forall x, In x (map (fun grp : Z * list Z => size (snd grp)) grps) -> 1 <= x).
    { intros x Hx. apply in_map_iff in Hx as ([y fs] & <- & Hin).
      rewrite Hg in Hin. apply firstn_in in Hin. apply in_fof_groups in Hin. tauto. }
    assert (Hobs : observed_max (map (scored g M) grps)
                   = fold_right Z.max 0 (map (fun grp : Z * list Z => size (snd grp)) grps)).
    { unfold observed_max. now rewrite map_map. }
    assert (Hne : grps <> []) by (intros ->; destruct Hrec).
    assert (Hatt : In (fold_right Z.max 0 (map (fun grp : Z * list Z => size (snd grp)) grps))
                      (map (fun grp : Z * list Z => size (snd grp)) grps)).
    { apply max_attained.
      - destruct grps; [congruence|discriminate].
      - intros x Hx. specialize (Hsizes x Hx). lia. }
    assert (HM : M = observed_max (map (scored g M) grps)).
    { rewrite Hobs. unfold M. rewrite max_count_observed by lia.
      specialize (Hsizes _ Hatt). lia. }
    assert (H1 : 1 <= observed_max (map (scored g M) grps))
      by (rewrite Hobs; apply Hsizes, Hatt).
    split; [exact H1|]. split.
    + rewrite Hobs.
      apply in_map_iff in Hatt as (grp & Hs & Hin).
      exists (scored g M grp). split; [now apply in_map|]. exact Hs.
    + rewrite <- HM in *.
      apply in_map_iff in Hrec as (grp & <- & Hin).
      unfold truediv. destruct (Z.eqb_spec M 0); [lia|].
      eexists. split; reflexivity.
Qed.

Lemma score_uses_returned_max_witness :
  exists r,
    run (get_recommendations 1 10 1) fan
    = (Ok r, [QUsuarioById 1; QFriendOfFriend 1 10 1]) /\
    forall rec, In rec (recommendations r) ->
       1 <= observed_max (recommendations r) /\
       (exists top, In top (recommendations r) /\
                    common_friends top = observed_max (recommendations r)) /\
       exists q, truediv (common_friends rec) (observed_max (recommendations r)) = Ok q /\
                 score rec = round q 2.
Proof.
  destruct (get_recommendations_total fan 1 10 1 eq_refl ltac:(lia)) as [r Hr].
  exists r. split; [exact Hr|].
  exact (proj2 (score_uses_returned_max fan 1 10 1) r _ Hr).
Defined.

End RecommendationClaims.


Module CommunityFacts.
Import Py Age Store PyFacts AgtypeFacts PathFacts QueryFacts Examples Props.
Import GraphRepository GraphService.

Lemma in_hobby_matches g key m :
  In (key, m) (hobby_matches g) <-> holds_hobby g key m.
Proof.
  unfold hobby_matches, holds_hobby. rewrite in_flat_map. split.
  - intros ([a h] & Hin & Hm).
    destruct (has_usuario g a) eqn:Ha; [|destruct Hm].
    apply in_map_iff in Hm as (hb & [= <- <-] & Hhb).
    apply filter_In in Hhb as [Hhb Hid]. apply Z.eqb_eq in Hid.
    simpl. rewrite Hid. eauto 6.
  - intros (Hm & Hin & hb & Hhb & Hid & Hname).
    exists (m, fst key). split; [exact Hin|]. rewrite Hm.
    apply in_map_iff. exists hb. split.
    + destruct key. simpl in *. congruence.
    + apply filter_In. split; [exact Hhb|]. now apply Z.eqb_eq.
Qed.

Lemma in_hobby_groups g key ms :
  In (key, ms) (hobby_groups g) ->
  2 <= size ms /\ NoDup ms /\ (forall m, In m ms <-> holds_hobby g key m).
Proof.
  unfold hobby_groups. rewrite in_sort_by, filter_In. simpl.
  intros [Hin Hsz]. apply Z.ltb_lt in Hsz.
  apply in_collect_distinct in Hin as (_ & Hnd & Hv).
  split; [lia|]. split; [exact Hnd|].
  intros m. rewrite Hv. apply in_hobby_matches.
Qed.

Lemma hobby_groups_sorted g :
  StronglySorted (desc (fun grp : (Z * string) * list Z => size (snd grp)))
                 (hobby_groups g).
Proof. apply (sort_by_desc (fun grp : (Z * string) * list Z => size (snd grp))). Qed.

Lemma insert_by_keys {A B} (f : A -> B) (le : A -> A -> bool) a l :
  NoDup (map f l) -> ~ In (f a) (map f l) -> NoDup (map f (insert_by le a l)).
Proof.
  induction l as [|b l IH]; simpl; intros Hn Hni.
  - constructor; [intros []|constructor].
  - destruct (le a b); simpl.
    + constructor; [exact Hni|exact Hn].
    + inversion Hn as [|x xs Hx Hxs]; subst. constructor.
      * rewrite in_map_iff. intros (y & Hy & Hin).
        apply in_insert_by in Hin as [->|Hin].
        -- apply Hni. left. congruence.
        -- apply Hx. rewrite <- Hy. now apply in_map.
      * apply IH; [exact Hxs|]. intros Hin. apply Hni. now right.
Qed.

Lemma sort_by_keys {A B} (f : A -> B) (le : A -> A -> bool) l :
  NoDup (map f l) -> NoDup (map f (sort_by le l)).
Proof.
  induction l as [|a l IH]; simpl; [auto|].
  intros Hn. inversion Hn as [|x xs Hx Hxs]; subst.
  apply insert_by_keys; [auto|].
  rewrite in_map_iff. intros (y & Hy & Hin). apply in_sort_by in Hin.
  apply Hx. rewrite <- Hy. now apply in_map.
Qed.

Lemma filter_keys {A B} (f : A -> B) (p : A -> bool) l :
  NoDup (map f l) -> NoDup (map f (filter p l)).
Proof.
  induction l as [|a l IH]; simpl; [auto|].
  intros Hn. inversion Hn as [|x xs Hx Hxs]; subst.
  destruct (p a); simpl; [|auto].
  constructor; [|auto]. rewrite in_map_iff. intros (y & Hy & Hin).
  apply filter_In in Hin as [Hin _]. apply Hx. rewrite <- Hy. now apply in_map.
Qed.

Lemma hobby_groups_keys g : NoDup (map fst (hobby_groups g)).
Proof.
  unfold hobby_groups. apply sort_by_keys, filter_keys, collect_distinct_keys.
Qed.

Lemma communities_decoded grps :
  rmap community
       (map (fun grp : (Z * string) * list Z =>
               {| cr_community_id := agtype_int (fst (fst grp));
                  cr_hobby_name := agtype_string (snd (fst grp));
                  cr_members := agtype_int_list (snd grp) |}) grps)
  = Ok (map community_of grps).
Proof.
  induction grps as [|grp grps IH]; [reflexivity|].
  cbn [map rmap]. rewrite IH.
  unfold community at 1. cbn [cr_community_id cr_hobby_name cr_members].
  rewrite int_field_int. cbn [rbind]. rewrite parse_array_int_list. reflexivity.
Qed.

Lemma detect_communities_run g :
  run detect_communities g
  = (Ok {| cm_status_code := HTTP_200_OK;
           cm_message := ("Detectadas " ++ str_of_int (size (hobby_groups g)) ++
                          " comunidades")%string;
           communities := map community_dto_of (hobby_groups g);
           total_communities := size (hobby_groups g);
           algorithm := "Hobby-based clustering";
           modularity := None |},
     [QCommunities]).
Proof.
  unfold run, detect_communities, detect_communities_by_hobby, bind, Store.communities,
    execute, communities_query, lift, ret.
  rewrite communities_decoded. cbn [app].
  unfold size. rewrite !length_map, map_map. reflexivity.
Qed.

(** C9.  The request for the communities always succeeds with one
    statement sent.  Every community returned has at least two members; its
    size is the number of its members, which are pairwise distinct and are
    exactly the users holding a TIENE_HOBBY edge to the hobby that is its
    grouping key (the hobby's id, which is the community id, and its name);
    no two communities share a key; and the communities come in decreasing
    order of size. *)
Theorem communities_by_hobby (g : Graph) :
  exists r,
    run detect_communities g = (Ok r, [QCommunities]) /\
    (forall c, In c (communities r) ->
       2 <= dto_size c /\
       dto_size c = size (dto_members c) /\
       NoDup (dto_members c) /\
       exists name,
         In ((dto_community_id c, name), dto_members c) (hobby_groups g) /\
         forall m, In m (dto_members c) <-> holds_hobby g (dto_community_id c, name) m) /\
    NoDup (map fst (hobby_groups g)) /\
    StronglySorted (fun a b => dto_size b <= dto_size a) (communities r).
Proof.
  eexists. split; [apply detect_communities_run|].
  cbn [communities]. split; [|split].
  - intros c Hc. apply in_map_iff in Hc as ([[id name] ms] & <- & Hin).
    pose proof (in_hobby_groups g _ _ Hin) as (Hsz & Hnd & Hms).
    cbn [community_dto_of dto_size dto_members dto_community_id fst snd].
    repeat split; auto. exists name. split; [exact Hin|exact Hms].
  - apply hobby_groups_keys.
  - apply sorted_map. apply hobby_groups_sorted.
Qed.

Example communities_club :
  fst (run detect_communities club)
  = Ok {| cm_status_code := 200;
          cm_message := "Detectadas 2 comunidades";
          communities :=
            [ {| dto_community_id := 7; dto_members := [2; 3; 5]; dto_size := 3;
                 dto_density := None |};
              {| dto_community_id := 8; dto_members := [1; 4]; dto_size := 2;
                 dto_density := None |} ];
          total_communities := 2;
          algorithm := "Hobby-based clustering";
          modularity := None |}.
Proof. vm_compute. reflexivity. Qed.

End CommunityFacts.


Module ConnectionFacts.
Import Py Age Store PyFacts AgtypeFacts PathFacts QueryFacts Examples Props.
Import GraphRepository GraphService.

Lemma connections_loop_groups grps : forall acc,
  connections_loop
    (map (fun grp : Z * list Z =>
            {| cn_id_usuario := agtype_int (fst grp);
               cn_conexiones := agtype_int_list (snd grp) |}) grps) acc
  = Ok (acc ++ map conexiones_of (entries grps)).
Proof.
  induction grps as [|grp grps IH]; intros acc.
  - simpl. now rewrite List.app_nil_r.
  - cbn [map connections_loop cn_id_usuario cn_conexiones].
    rewrite parse_agtype_int, parse_array_field. cbn [rbind int_eq_object].
    rewrite IH. unfold entries. cbn [filter]. fold (others grp).
    destruct (others grp) as [|c cs] eqn:E.
    + reflexivity.
    + cbn [map fst snd]. rewrite E, <- List.app_assoc. reflexivity.
Qed.

Lemma dtos_of_entries es :
  rmap usuario_conexiones_dto (map conexiones_of es) = Ok (map dto_of es).
Proof.
  induction es as [|e es IH]; [reflexivity|].
  cbn [map rmap]. rewrite IH. reflexivity.
Qed.

Lemma sum_len_acc l : forall a,
  fold_left (fun acc conn => acc + size (conexiones conn)) l a
  = a + fold_right (fun conn acc => size (conexiones conn) + acc) 0 l.
Proof.
  induction l as [|c l IH]; intros a; simpl; [lia|]. rewrite IH. lia.
Qed.

Lemma sum_len_entries es :
  sum_len (map conexiones_of es) = sum_neighbors (map dto_of es).
Proof.
  unfold sum_len. rewrite sum_len_acc. unfold sum_neighbors.
  induction es as [|e es IH]; simpl in *; [reflexivity|]. lia.
Qed.

Lemma get_all_connections_run g :
  run GraphService.get_all_connections g
  = (Ok {| ac_status_code := HTTP_200_OK;
           ac_message := "Conexiones obtenidas exitosamente";
           ac_conexiones := map dto_of (entries (connection_groups g));
           ac_stats :=
             {| total_usuarios_con_conexiones := size (entries (connection_groups g));
                total_conexiones :=
                  sum_neighbors (map dto_of (entries (connection_groups g))) |} |},
     [QAllConnections]).
Proof.
  unfold run, GraphService.get_all_connections, GraphRepository.get_all_connections,
    bind, Store.all_connections, execute, connections_query, lift, ret.
  rewrite connections_loop_groups. cbn [app].
  rewrite dtos_of_entries, sum_len_entries.
  unfold size. rewrite !length_map. reflexivity.
Qed.

Lemma in_connection_groups g id cs :
  In (id, cs) (connection_groups g) ->
  has_usuario g id = true /\ NoDup cs /\
  forall c, In c cs <-> has_usuario g c = true /\ In (id, c) (conectado g).
Proof.
  unfold connection_groups. intros H.
  apply in_map_iff in H as (i & [= <- <-] & Hi).
  apply in_sort_by, nodup_In, in_map_iff in Hi as (usr & Hid & Hin).
  split.
  - unfold has_usuario. apply existsb_exists. exists usr. split; [exact Hin|].
    now apply Z.eqb_eq.
  - split; [apply NoDup_nodup|]. intros c.
    rewrite nodup_In, filter_In, in_out_neighbors. tauto.
Qed.

(** C10.  The request for all connections always succeeds with one
    statement sent.  Every entry returned has a non-empty list of distinct
    neighbours, each of them a user its own user is connected to by a
    CONECTADO edge (so a user without outgoing edge has no entry), none of
    them the entry's own id; and the statistics
    count the entries and the sum of the lengths of their lists. *)
Theorem all_connections_sparse (g : Graph) :
  exists r,
    run GraphService.get_all_connections g = (Ok r, [QAllConnections]) /\
    (forall e, In e (ac_conexiones r) ->
       uc_conexiones e <> [] /\
       out_neighbors g (uc_id_usuario e) <> [] /\
       ~ In (uc_id_usuario e) (uc_conexiones e) /\
       NoDup (uc_conexiones e) /\
       forall c, In c (uc_conexiones e) <->
                 c <> uc_id_usuario e /\ has_usuario g c = true /\
                 In (uc_id_usuario e, c) (conectado g)) /\
    total_conexiones (ac_stats r) = sum_neighbors (ac_conexiones r) /\
    total_usuarios_con_conexiones (ac_stats r) = size (ac_conexiones r).
Proof.
  eexists. split; [apply get_all_connections_run|].
  cbn [ac_conexiones ac_stats total_conexiones total_usuarios_con_conexiones].
  split; [|split; [reflexivity|unfold size; now rewrite length_map]].
  intros e He. apply in_map_iff in He as ([id cs'] & <- & Hin).
  unfold entries in Hin. apply in_map_iff in Hin as ([id' cs] & [= <- <-] & Hin).
  apply filter_In in Hin as [Hin Hne].
  apply in_connection_groups in Hin as (Hid & Hnd & Hcs).
  cbn [dto_of uc_id_usuario uc_conexiones fst snd].
  assert (Hmem : forall c, In c (others (id', cs)) <->
                           c <> id' /\ has_usuario g c = true /\ In (id', c) (conectado g)).
  { intros c. unfold others. rewrite filter_In, Hcs. cbn [fst snd].
    rewrite negb_true_iff, Z.eqb_neq. tauto. }
  assert (Hex : exists c, In c (others (id', cs))).
  { destruct (others (id', cs)) as [|c l]; [discriminate|]. exists c. now left. }
  destruct Hex as [c Hc].
  split; [intros Hnil; rewrite Hnil in Hc; destruct Hc|].
  split.
  { apply Hmem in Hc as (_ & _ & Hc). apply in_out_neighbors in Hc.
    intros Hnil. rewrite Hnil in Hc. destruct Hc. }
  split; [intros Hself; apply Hmem in Hself; tauto|].
  split; [apply NoDup_filter; exact Hnd|exact Hmem].
Qed.

Example all_connections_club :
  fst (run GraphService.get_all_connections club)
  = Ok {| ac_status_code := 200;
          ac_message := "Conexiones obtenidas exitosamente";
          ac_conexiones :=
            [ {| uc_id_usuario := 1; uc_conexiones := [2] |};
              {| uc_id_usuario := 2; uc_conexiones := [1; 3] |} ];
          ac_stats := {| total_usuarios_con_conexiones := 2;
                         total_conexiones := 3 |} |}.
Proof. vm_compute. reflexivity. Qed.

End ConnectionFacts.


Module DecoderClaims.
Import Py Age Store PyFacts AgtypeFacts Props.
Import GraphRepository.




(** An item that is no number makes [int] fail: the error is about the item,
    not a decode error about the envelope. *)
Example array_item_not_numeric :
  _parse_agtype_array (PyStr (String "[" (String "1" (String "," (String dquote
                         (String "x" (String dquote (String "]" EmptyString))))))))
  = Raise (ValueError "invalid literal for int() with base 10: x").
Proof. vm_compute. reflexivity. Qed.

End DecoderClaims.

Module EgoFacts.
Import Py Age Store Props PyFacts AgtypeFacts PathFacts QueryFacts Chains.
Import GraphRepository GraphService.

Lemma str_of_int_inj a b : str_of_int a = str_of_int b -> a = b.
Proof.
  intros H. pose proof (int_of_str_of_int a) as Ha. rewrite H, int_of_str_of_int in Ha.
  congruence.
Qed.

Lemma agtype_int_inj a b : agtype_int a = agtype_int b -> a = b.
Proof. unfold agtype_int. intros [= H]. now apply str_of_int_inj. Qed.

Lemma rmap_in {A B} (f : A -> result B) l : forall ys y,
  rmap f l = Ok ys -> In y ys -> exists x, In x l /\ f x = Ok y.
Proof.
  induction l as [|a l IH]; intros ys y H Hy.
  - simpl in H. injection H as <-. destruct Hy.
  - cbn [rmap] in H. destruct (f a) as [b|e] eqn:Ea; [|discriminate]. cbn [rbind] in H.
    destruct (rmap f l) as [bs|e]; [|discriminate]. cbn [rbind] in H.
    injection H as <-. destruct Hy as [<-|Hy].
    + exists a. split; [now left|exact Ea].
    + destruct (IH bs y eq_refl Hy) as (x & Hx & Hfx). exists x. split; [now right|exact Hfx].
Qed.

(** A decoded node row carries the id the store sent. *)
Lemma ego_node_id row v i node :
  en_id_usuario row = agtype_int v -> ego_node row = Ok (i, node) ->
  i = v /\ node_id node = str_of_int v.
Proof.
  unfold ego_node. intros ->. rewrite int_field_int. cbn [rbind].
  destruct (int_field (en_edad row)); [|discriminate]. cbn [rbind].
  destruct (float_of_str (str_field (en_latitud row))); [|discriminate]. cbn [rbind].
  destruct (float_of_str (str_field (en_longitud row))); [|discriminate]. cbn [rbind].
  intros [= <- <-]. auto.
Qed.

(** The node loop: the ids of the nodes and the set [node_ids] are those of
    the rows. *)
Lemma ego_node_loop_ids rows : forall ns ids ns' ids',
  (forall row, In row rows -> exists v, en_id_usuario row = agtype_int v) ->
  ego_node_loop rows ns ids = Ok (ns', ids') ->
  (forall s, In s (map node_id ns') <->
             In s (map node_id ns) \/
             exists row v, In row rows /\ en_id_usuario row = agtype_int v /\ s = str_of_int v) /\
  (forall x, In x ids' <->
             In x ids \/ exists row, In row rows /\ en_id_usuario row = agtype_int x) /\
  List.length ns' = (List.length ns + List.length rows)%nat.
Proof.
  induction rows as [|row rows IH]; intros ns ids ns' ids' Hrows Hl.
  - simpl in Hl. injection Hl as <- <-. split; [|split].
    + intros s. split; [auto|]. intros [H|(r & _ & [] & _)]; exact H.
    + intros x. split; [auto|]. intros [H|(r & [] & _)]; exact H.
    + simpl. lia.
  - cbn [ego_node_loop] in Hl.
    destruct (Hrows row (or_introl eq_refl)) as [v Hv].
    destruct (ego_node row) as [[i node]|e] eqn:En; [|discriminate].
    cbn [rbind] in Hl.
    destruct (ego_node_id row v i node Hv En) as [-> Hid].
    destruct (IH _ _ _ _ (fun r Hr => Hrows r (or_intror Hr)) Hl) as (Hs & Hx & Hlen).
    split; [|split].
    + intros s. rewrite Hs, map_app, in_app_iff. cbn [map In]. rewrite Hid. split.
      * intros [[H|[<-|[]]]|(r & w & Hr & Hw & ->)].
        -- now left.
        -- right. exists row, v. split; [now left|]. split; [exact Hv|reflexivity].
        -- right. exists r, w. split; [now right|]. split; [exact Hw|reflexivity].
      * intros [H|(r & w & [<-|Hr] & Hw & ->)].
        -- left. now left.
        -- left. right. left. rewrite Hv in Hw. now apply agtype_int_inj in Hw as ->.
        -- right. exists r, w. split; [exact Hr|]. split; [exact Hw|reflexivity].
    + intros x. rewrite Hx. unfold set_add, mem. split.
      * intros [H|(r & Hr & Hw)].
        -- destruct (existsb (Z.eqb v) ids); [now left|].
           apply in_app_iff in H as [H|[<-|[]]]; [now left|].
           right. exists row. split; [now left|exact Hv].
        -- right. exists r. split; [now right|exact Hw].
      * intros [H|(r & [<-|Hr] & Hw)].
        -- left. destruct (existsb (Z.eqb v) ids); [exact H|]. apply in_app_iff. now left.
        -- left. rewrite Hv in Hw. apply agtype_int_inj in Hw as <-.
           destruct (existsb (Z.eqb v) ids) eqn:E.
           ++ apply existsb_exists in E as (y & Hy & Hvy). apply Z.eqb_eq in Hvy. now subst y.
           ++ apply in_app_iff. right. now left.
        -- right. exists r. split; [exact Hr|exact Hw].
    + rewrite Hlen, List.length_app. simpl. lia.
Qed.

Lemma in_ego_node_rows g v row :
  In row (ego_node_rows g v) ->
  en_id_usuario row = agtype_int v /\ has_usuario g v = true.
Proof.
  unfold ego_node_rows. rewrite in_flat_map. intros (u & Hu & Hrow).
  apply filter_In in Hu as [Hu Hid]. apply Z.eqb_eq in Hid.
  apply in_map_iff in Hrow as (h & <- & _). cbn [en_id_usuario]. split; [now rewrite Hid|].
  unfold has_usuario. apply existsb_exists. exists u. split; [exact Hu|now apply Z.eqb_eq].
Qed.

Lemma ego_node_rows_exists g v :
  has_usuario g v = true -> exists row, In row (ego_node_rows g v).
Proof.
  unfold has_usuario, ego_node_rows. intros H.
  apply existsb_exists in H as (u & Hu & Hid).
  assert (Hh : exists h, In h (hobby_names g v)).
  { unfold hobby_names. destruct (flat_map _ (tiene_hobby g)) as [|h hs];
      [exists None|exists h]; now left. }
  destruct Hh as [h Hh]. eexists. apply in_flat_map. exists u. split.
  - apply filter_In. auto.
  - apply in_map_iff. exists h. split; [reflexivity|exact Hh].
Qed.

(** At depth 1 the node statement reaches the vertices adjacent to the
    center. *)
Lemma in_ego_reached_one g c w :
  In w (ego_reached g c 1) <-> has_usuario g c = true /\ adjacent g c w.
Proof.
  unfold ego_reached. destruct (has_usuario g c); [|split; [intros []|intros [? _]; discriminate]].
  change (seq 1 (Z.to_nat 1)) with [1%nat]. cbn [flat_map]. rewrite List.app_nil_r, in_map_iff.
  split.
  - intros (vs & <- & Hvs). split; [reflexivity|].
    apply trails_spec in Hvs as (p & Hl & [Hw _] & _ & ->).
    destruct p as [|[i x] [|]]; try discriminate. simpl in Hw.
    apply adjacent_steps. exists i. cbn. tauto.
  - intros [_ Ha]. apply adjacent_steps in Ha as [i Hi].
    exists [c; w]. split; [reflexivity|]. apply trails_spec.
    exists [(i, w)]. split; [reflexivity|]. split; [|split; [intros j _ []|reflexivity]].
    split; [simpl; auto|]. simpl. constructor; [intros []|constructor].
Qed.

Lemma firstn_all_short {A} n (l : list A) :
  (List.length (firstn n l) < n)%nat -> firstn n l = l.
Proof.
  revert l. induction n as [|n IH]; intros l H; [simpl in H; lia|].
  destruct l as [|a l]; [reflexivity|]. simpl in *. f_equal. apply IH. lia.
Qed.

(** The rows of a successful node statement. *)
Lemma ego_nodes_rows g c depth max_nodes rows :
  ego_nodes_query g c depth max_nodes = Ok rows ->
  (forall row, In row rows ->
     exists v, en_id_usuario row = agtype_int v /\ has_usuario g v = true /\
               In v (ego_reached g c depth)) /\
  (Z.of_nat (List.length rows) < max_nodes ->
   forall v, In v (ego_reached g c depth) -> has_usuario g v = true ->
             exists row, In row rows /\ en_id_usuario row = agtype_int v).
Proof.
  unfold ego_nodes_query, limit.
  destruct (Z.ltb_spec max_nodes 0); [discriminate|]. intros [= <-]. split.
  - intros row Hrow. apply firstn_in, nodup_In, in_flat_map in Hrow as (v & Hv & Hrow).
    apply in_ego_node_rows in Hrow as [Hid Hu]. eauto.
  - intros Hlen v Hv Hu.
    rewrite firstn_all_short in * by lia.
    destruct (ego_node_rows_exists g v Hu) as [row Hrow].
    exists row. split.
    + apply nodup_In, in_flat_map. eauto.
    + now apply in_ego_node_rows in Hrow.
Qed.

(** What a successful run of [get_ego_subgraph] went through. *)
Lemma get_ego_subgraph_ok g c depth max_nodes log gd log' :
  get_ego_subgraph c depth max_nodes g log = (Ok gd, log') ->
  exists rows ids,
    ego_nodes_query g c depth max_nodes = Ok rows /\
    ego_node_loop rows [] [] = Ok (nodes gd, ids) /\
    forall e, In e (edges gd) ->
      exists a b, mem a ids = true /\ mem b ids = true /\
                  In (a, b) (conectado g) /\
                  edge_source e = str_of_int a /\ edge_target e = str_of_int b.
Proof.
  unfold get_ego_subgraph, bind, ego_nodes, execute, lift.
  destruct (ego_nodes_query g c depth max_nodes) as [rows|e]; [|discriminate].
  destruct (ego_node_loop rows [] []) as [[ns ids]|e] eqn:El; [|discriminate].
  destruct ids as [|i ids].
  - unfold ret. intros [= <- _]. exists rows, [].
    split; [reflexivity|]. split; [exact El|]. intros e [].
  - unfold Store.ego_edges, execute, ego_edges_query, ret.
    destruct (rmap _ (indexed 0 _)) as [es|e] eqn:Er; [|discriminate].
    intros [= <- _]. exists rows, (i :: ids). split; [reflexivity|]. split; [exact El|].
    cbn [edges]. intros e He.
    destruct (rmap_in _ _ _ _ Er He) as ([j row] & Hin & Hrow).
    apply in_indexed in Hin as [_ Hn]. apply nth_error_In in Hn.
    apply in_map_iff in Hn as ([a b] & <- & Hab).
    unfold Age.ego_edges in Hab. apply nodup_In, filter_In in Hab as [Hab Hm].
    cbn [fst snd] in Hm. apply andb_true_iff in Hm as [Hm Hb].
    apply andb_true_iff in Hm as [_ Ha].
    unfold ego_edge in Hrow. cbn [ee_source ee_target fst snd] in Hrow.
    rewrite !int_field_int in Hrow. cbn [rbind] in Hrow. injection Hrow as <-.
    exists a, b. cbn [edge_source edge_target]. auto.
Qed.

(** What a successful run of the service method went through. *)
Lemma get_ego_graph_ok g c depth max_nodes r log :
  run (get_ego_graph c depth max_nodes) g = (Ok r, log) ->
  has_usuario g c = true /\
  exists log', get_ego_subgraph c depth max_nodes g [QUsuarioById c] = (Ok (graph r), log').
Proof.
  unfold run, get_ego_graph. unfold bind at 1. rewrite find_by_id_eq.
  destruct (find_usuario g c) as [u|] eqn:Eu; [|discriminate].
  assert (Hu : has_usuario g c = true) by (apply has_usuario_find; eauto).
  destruct ((depth <? 1) || (3 <? depth))%bool; [discriminate|].
  destruct ((max_nodes <? 10) || (2000 <? max_nodes))%bool; [discriminate|].
  unfold bind. cbn [app].
  destruct (get_ego_subgraph c depth max_nodes g [QUsuarioById c]) as [[gd|e] log'];
    [|discriminate].
  unfold ret. intros [= <- _]. cbn [graph]. eauto.
Qed.

(** X12. The ego subgraph at depth 1, on every graph: whenever the request
    succeeds, the ids of the nodes returned are ids of users adjacent to the
    center; the center is not among them unless it is connected to itself;
    when fewer than [max_nodes] nodes are returned, every user adjacent to the
    center is among them; and both ends of every edge returned are ids of
    nodes returned. *)
Lemma ego_graph_depth_one g c max_nodes r log :
  run (get_ego_graph c 1 max_nodes) g = (Ok r, log) ->
  (forall s, In s (map node_id (nodes (graph r))) ->
             exists w, s = str_of_int w /\ has_usuario g w = true /\ adjacent g c w) /\
  (~ In (c, c) (conectado g) -> ~ In (str_of_int c) (map node_id (nodes (graph r)))) /\
  (size (nodes (graph r)) < max_nodes ->
   forall w, has_usuario g w = true -> adjacent g c w ->
             In (str_of_int w) (map node_id (nodes (graph r)))) /\
  (forall e, In e (edges (graph r)) ->
             In (edge_source e) (map node_id (nodes (graph r))) /\
             In (edge_target e) (map node_id (nodes (graph r)))).
Proof.
  intros Hrun. apply get_ego_graph_ok in Hrun as (Hc & log' & Hsub).
  apply get_ego_subgraph_ok in Hsub as (rows & ids & Hq & Hloop & Hedges).
  destruct (ego_nodes_rows g c 1 max_nodes rows Hq) as [Hrows Hfull].
  destruct (ego_node_loop_ids rows [] [] _ _
              (fun row Hr => let (v, H) := Hrows row Hr in ex_intro _ v (proj1 H)) Hloop)
    as (Hs & Hx & Hlen).
  assert (Hnodes : forall s, In s (map node_id (nodes (graph r))) ->
             exists w, s = str_of_int w /\ has_usuario g w = true /\ adjacent g c w).
  { intros s Hin. apply Hs in Hin as [[]|(row & v & Hrow & Hv & ->)].
    destruct (Hrows row Hrow) as (v' & Hv' & Hu & Hreach).
    rewrite Hv in Hv'. apply agtype_int_inj in Hv' as <-.
    apply in_ego_reached_one in Hreach as [_ Ha]. eauto. }
  split; [exact Hnodes|]. split; [|split].
  - intros Hloopless Hin. apply Hnodes in Hin as (w & Hw & _ & Ha).
    apply str_of_int_inj in Hw as <-. destruct Ha as [Ha|Ha]; auto.
  - intros Hsz w Hw Ha. apply Hs. right.
    destruct (Hfull ltac:(unfold size in Hsz; simpl in Hlen; lia) w) as (row & Hrow & Hid);
      [apply in_ego_reached_one; auto|exact Hw|].
    exists row, w. auto.
  - intros e He. destruct (Hedges e He) as (a & b & Ha & Hb & _ & -> & ->).
    assert (Hmem : forall x, mem x ids = true -> In (str_of_int x) (map node_id (nodes (graph r)))).
    { intros x Hm. unfold mem in Hm. apply existsb_exists in Hm as (y & Hy & Hxy).
      apply Z.eqb_eq in Hxy. subst y.
      apply Hx in Hy as [[]|(row & Hrow & Hid)]. apply Hs. right. exists row, x. auto. }
    auto.
Qed.

End EgoFacts.

Module EgoClaims.
Import Py Age Store PyFacts AgtypeFacts PathFacts Examples Props.
Import GraphRepository GraphService.

(** The log of [get_ego_subgraph] starts with the node statement. *)
Lemma get_ego_subgraph_log g id depth max_nodes log :
  exists rest,
    snd (get_ego_subgraph id depth max_nodes g log)
    = log ++ QEgoNodes id depth max_nodes :: rest.
Proof.
  unfold get_ego_subgraph, bind, ego_nodes, execute, lift.
  destruct (ego_nodes_query g id depth max_nodes) as [rows|e].
  - destruct (ego_node_loop rows [] []) as [[ns ids]|e].
    + destruct ids as [|i ids].
      * exists []. reflexivity.
      * unfold Store.ego_edges, execute, ret.
        destruct (ego_edges_query g (i :: ids)) as [erows|e].
        -- destruct (rmap _ (indexed 0 erows)); eexists; simpl; rewrite <- List.app_assoc; reflexivity.
        -- eexists; simpl; rewrite <- List.app_assoc; reflexivity.
    + exists []. reflexivity.
  - exists []. reflexivity.
Qed.

(** C4, counterexample.  The service method accepts depth 3, and it looks
    the user up before it checks the parameters: depth 0 is refused after one
    statement, and for an unknown user the answer is 404 whatever the
    depth. *)
Lemma ego_validation_counterexample :
  (exists r ids, run (get_ego_graph 1 3 500) fan
                 = (Ok r, [QUsuarioById 1; QEgoNodes 1 3 500; QEgoEdges ids])) /\
  run (get_ego_graph 1 0 500) fan = (Raise bad_depth, [QUsuarioById 1]) /\
  run (get_ego_graph 99 0 500) fan = (Raise (not_found_user 99), [QUsuarioById 99]) /\
  ~ rejected_before_store fan 1 3 500 /\
  ~ rejected_before_store fan 1 0 500.
Proof.
  split; [do 2 eexists; vm_compute; reflexivity|].
  split; [vm_compute; reflexivity|]. split; [vm_compute; reflexivity|].
  split; intros [e He]; vm_compute in He; discriminate He.
Qed.

(** C4, as the code has it.  The route refuses a depth outside 1..2 and a
    maximum outside 10..2000 with a validation error and an empty log.  The
    service method sends the lookup of the user first: an unknown user is
    answered 404 whatever the parameters; for a known user a depth outside
    1..3 or a maximum outside 10..2000 is answered 400 with the lookup as the
    only statement sent; a depth of 1, 2 or 3 with a maximum within bounds is
    accepted, the node statement being sent next. *)
Theorem ego_validation (g : Graph) (id depth max_nodes : Z) :
  (~ (1 <= depth <= 2) \/ ~ (10 <= max_nodes <= 2000) ->
   exists p, run (Routes.get_ego_graph id depth max_nodes) g
             = (Raise (RequestValidationError p), [])) /\
  (has_usuario g id = false ->
   run (get_ego_graph id depth max_nodes) g
   = (Raise (not_found_user id), [QUsuarioById id])) /\
  (has_usuario g id = true -> ~ (1 <= depth <= 3) ->
   run (get_ego_graph id depth max_nodes) g = (Raise bad_depth, [QUsuarioById id])) /\
  (has_usuario g id = true -> 1 <= depth <= 3 -> ~ (10 <= max_nodes <= 2000) ->
   run (get_ego_graph id depth max_nodes) g = (Raise bad_max_nodes, [QUsuarioById id])) /\
  (has_usuario g id = true -> 1 <= depth <= 3 -> 10 <= max_nodes <= 2000 ->
   exists rest,
     snd (run (get_ego_graph id depth max_nodes) g)
     = QUsuarioById id :: QEgoNodes id depth max_nodes :: rest).
Proof.
  split; [|split; [|split; [|split]]].
  - intros H. unfold run, Routes.get_ego_graph, Routes.query_param, bind, raise, ret.
    destruct (Z.ltb_spec depth 1), (Z.ltb_spec 2 depth); cbn [orb]; eauto.
    destruct (Z.ltb_spec max_nodes 10), (Z.ltb_spec 2000 max_nodes); cbn [orb]; eauto.
    lia.
  - intros Hu. unfold run, get_ego_graph. unfold bind at 1. rewrite find_by_id_eq.
    apply has_usuario_none in Hu. rewrite Hu. reflexivity.
  - intros Hu Hd. unfold run, get_ego_graph. unfold bind at 1. rewrite find_by_id_eq.
    apply has_usuario_find in Hu as [usr ->].
    destruct (Z.ltb_spec depth 1), (Z.ltb_spec 3 depth); cbn [orb]; try reflexivity. lia.
  - intros Hu Hd Hm. unfold run, get_ego_graph. unfold bind at 1. rewrite find_by_id_eq.
    apply has_usuario_find in Hu as [usr ->].
    destruct (Z.ltb_spec depth 1), (Z.ltb_spec 3 depth); cbn [orb]; try lia.
    destruct (Z.ltb_spec max_nodes 10), (Z.ltb_spec 2000 max_nodes); cbn [orb];
      try reflexivity. lia.
  - intros Hu Hd Hm. unfold run, get_ego_graph. unfold bind at 1. rewrite find_by_id_eq.
    apply has_usuario_find in Hu as [usr ->].
    destruct (Z.ltb_spec depth 1), (Z.ltb_spec 3 depth); cbn [orb]; try lia.
    destruct (Z.ltb_spec max_nodes 10), (Z.ltb_spec 2000 max_nodes); cbn [orb]; try lia.
    destruct (get_ego_subgraph_log g id depth max_nodes ([] ++ [QUsuarioById id]))
      as [rest Hlog].
    exists rest. unfold bind.
    destruct (get_ego_subgraph id depth max_nodes g ([] ++ [QUsuarioById id]))
      as [[gd|e] log']; simpl in *; exact Hlog.
Qed.

Lemma ego_validation_witness :
  (exists p, run (Routes.get_ego_graph 1 3 500) fan
             = (Raise (RequestValidationError p), [])) /\
  run (get_ego_graph 99 1 500) fan = (Raise (not_found_user 99), [QUsuarioById 99]) /\
  run (get_ego_graph 1 4 500) fan = (Raise bad_depth, [QUsuarioById 1]) /\
  run (get_ego_graph 1 2 5) fan = (Raise bad_max_nodes, [QUsuarioById 1]) /\
  (exists rest,
     snd (run (get_ego_graph 1 3 500) fan)
     = QUsuarioById 1 :: QEgoNodes 1 3 500 :: rest).
Proof.
  split; [apply (proj1 (ego_validation fan 1 3 500)); left; lia|].
  split; [apply (proj1 (proj2 (ego_validation fan 99 1 500))); reflexivity|].
  split; [apply (proj1 (proj2 (proj2 (ego_validation fan 1 4 500)))); [reflexivity|lia]|].
  split; [apply (proj1 (proj2 (proj2 (proj2 (ego_validation fan 1 2 5))))); [reflexivity|lia|lia]|].
  apply (proj2 (proj2 (proj2 (proj2 (ego_validation fan 1 3 500))))); [reflexivity|lia|lia].
Defined.

(** C3, the failing input.  For user 1 of the graph with edges 1->2, 1->3,
    2->5, 3->5, depth 1 and at most 500 nodes, the nodes returned are 2 and
    3: the center 1 is not among them, and the two edges from 1 are not
    returned either. *)
Theorem ego_graph_misses_center :
  exists r ids,
    run (get_ego_graph 1 1 500) fan
    = (Ok r, [QUsuarioById 1; QEgoNodes 1 1 500; QEgoEdges ids]) /\
    (forall s, In s (map node_id (nodes (graph r))) <-> s = "2" \/ s = "3") /\
    ~ In "1" (map node_id (nodes (graph r))) /\
    edges (graph r) = [] /\
    total_nodes (stats r) = 2.
Proof.
  do 2 eexists. split; [vm_compute; reflexivity|].
  cbn [graph nodes edges stats total_nodes map node_id].
  split; [|split; [|split; reflexivity]].
  - intros s. split.
    + intros [H|[H|[]]]; auto.
    + intros [->| ->]; simpl; auto.
  - intros [H|[H|[]]]; discriminate H.
Qed.

End EgoClaims.

Module PathProperties.
Import Py Age Store PyFacts AgtypeFacts Chains PathFacts Examples Props Notions.
Import GraphRepository GraphService.

(** *** Requests about users that do not exist *)

Lemma get_shortest_path_no_origin g o d max_depth :
  has_usuario g o = false ->
  run (get_shortest_path o d max_depth) g
  = (Raise (HTTPException HTTP_404_NOT_FOUND
              ("Usuario origen con ID " ++ str_of_int o ++ " no encontrado")%string),
     [QUsuarioById o]).
Proof.
  intros Ho. unfold run, get_shortest_path. unfold bind at 1. rewrite find_by_id_eq.
  apply has_usuario_none in Ho. rewrite Ho. reflexivity.
Qed.

Lemma get_shortest_path_no_destination g o d max_depth :
  has_usuario g o = true -> has_usuario g d = false ->
  run (get_shortest_path o d max_depth) g
  = (Raise (HTTPException HTTP_404_NOT_FOUND
              ("Usuario destino con ID " ++ str_of_int d ++ " no encontrado")%string),
     [QUsuarioById o; QUsuarioById d]).
Proof.
  intros Ho Hd. unfold run, get_shortest_path. unfold bind at 1. rewrite find_by_id_eq.
  apply has_usuario_find in Ho as [uo ->]. unfold bind at 1. rewrite find_by_id_eq.
  apply has_usuario_none in Hd. rewrite Hd. reflexivity.
Qed.

(** A request that succeeds was about two existing users. *)
Lemma get_shortest_path_users g o d max_depth r log :
  run (get_shortest_path o d max_depth) g = (Ok r, log) ->
  has_usuario g o = true /\ has_usuario g d = true.
Proof.
  intros E. destruct (has_usuario g o) eqn:Ho.
  - destruct (has_usuario g d) eqn:Hd; [auto|].
    rewrite (get_shortest_path_no_destination g o d max_depth Ho Hd) in E. discriminate E.
  - rewrite (get_shortest_path_no_origin g o d max_depth Ho) in E. discriminate E.
Qed.

(** The outcome of a successful request, as [get_shortest_path_run] gives
    it, with the request as a hypothesis. *)
Lemma get_shortest_path_inv g o d max_depth r log :
  run (get_shortest_path o d max_depth) g = (Ok r, log) ->
  (exists L vs rest,
      (1 <= L <= Z.to_nat max_depth)%nat /\
      (forall j, (1 <= j < L)%nat -> match_paths g o d j = []) /\
      match_paths g o d L = vs :: rest /\
      r = found (map (node_of g) vs) /\
      log = [QUsuarioById o; QUsuarioById d] ++ map (probe o d) (seq 1 L)
              ++ [QPathNodes o d (Z.of_nat L)])
  \/
  ((forall j, (1 <= j <= Z.to_nat max_depth)%nat -> match_paths g o d j = []) /\
   r = not_found /\
   log = [QUsuarioById o; QUsuarioById d] ++ map (probe o d) (seq 1 (Z.to_nat max_depth))).
Proof.
  intros E. destruct (get_shortest_path_users g o d max_depth r log E) as [Ho Hd].
  destruct (get_shortest_path_run g o d max_depth Ho Hd)
    as [(L & vs & rest & HL & Hlow & Hm & E')|[Hall E']];
    rewrite E' in E; injection E as <- <-.
  - left. exists L, vs, rest. auto 10.
  - right. auto.
Qed.

Lemma found_length g vs L :
  List.length vs = S L -> sp_length (found (map (node_of g) vs)) = Z.of_nat L.
Proof.
  intros H. cbn [found sp_length]. unfold size. rewrite length_map, H. lia.
Qed.

(** *** Walks: reversal and repeated vertices *)

Lemma steps_sym g v i w : In (i, w) (steps g v) -> In (i, v) (steps g w).
Proof.
  rewrite !steps_spec. intros (a & b & Hn & [[Ha Hb]|[Ha Hb]]); exists a, b; subst; auto.
Qed.

Lemma rev_walk_spec g p : forall v,
  is_walk g v p ->
  is_walk g (endpoint v p) (rev_walk v p) /\
  endpoint (endpoint v p) (rev_walk v p) = v /\
  List.length (rev_walk v p) = List.length p /\
  map fst (rev_walk v p) = rev (map fst p).
Proof.
  induction p as [|[i w] p IH]; intros v Hw; simpl.
  - auto.
  - destruct Hw as [Hs Hw]. destruct (IH w Hw) as (Hr & He & Hl & Hf).
    split; [|split; [|split]].
    + apply is_walk_app. split; [exact Hr|]. rewrite He. simpl. split; [|exact I].
      apply steps_sym, Hs.
    + rewrite endpoint_app. reflexivity.
    + rewrite length_app, Hl. simpl. lia.
    + rewrite map_app, Hf. reflexivity.
Qed.

Lemma match_paths_sym g o d n vs :
  In vs (match_paths g o d n) -> match_paths g d o n <> [].
Proof.
  intros Hin. apply match_paths_spec in Hin as (Ho & Hd & p & Hl & [Hw Hnd] & He & _).
  destruct (rev_walk_spec g p o Hw) as (Hr & Hre & Hrl & Hrf). rewrite He in Hr, Hre.
  assert (Hin : In (d :: map snd (rev_walk o p)) (match_paths g d o n)).
  { apply match_paths_spec. split; [exact Hd|]. split; [exact Ho|].
    exists (rev_walk o p). split; [lia|]. split; [|split; [exact Hre|reflexivity]].
    split; [exact Hr|]. rewrite Hrf. apply NoDup_rev, Hnd. }
  intros E. rewrite E in Hin. exact Hin.
Qed.

Lemma match_paths_empty_sym g o d n :
  match_paths g o d n = [] -> match_paths g d o n = [].
Proof.
  intros E. destruct (match_paths g d o n) as [|vs rest] eqn:E'; [reflexivity|].
  exfalso. apply (match_paths_sym g d o n vs); [rewrite E'; now left|exact E].
Qed.

(** A walk that visits a vertex twice can be cut short. *)
Lemma walk_vertex_shortcut g p : forall o,
  is_walk g o p -> ~ NoDup (o :: map snd p) ->
  exists p', (List.length p' < List.length p)%nat /\
             is_walk g o p' /\ endpoint o p' = endpoint o p.
Proof.
  induction p as [|[i w] p IH]; intros o Hw Hnd.
  - exfalso. apply Hnd. constructor; [intros []|constructor].
  - destruct (in_dec Z.eq_dec o (map snd ((i, w) :: p))) as [Hin|Hout].
    + apply in_map_iff in Hin as ([j x] & Hx & Hin). simpl in Hx. subst x.
      apply in_split in Hin as (p1 & p2 & E).
      exists p2. rewrite E. split; [rewrite length_app; simpl; lia|].
      rewrite E in Hw.
      replace (p1 ++ (j, o) :: p2) with ((p1 ++ [(j, o)]) ++ p2) in *
        by (rewrite <- List.app_assoc; reflexivity).
      apply is_walk_app in Hw as [_ Hw].
      rewrite !endpoint_app in *. simpl in *. auto.
    + assert (Hnd' : ~ NoDup (w :: map snd p)).
      { intros H. apply Hnd. constructor; assumption. }
      destruct Hw as [Hs Hw]. destruct (IH w Hw Hnd') as (p' & Hl & Hw' & He).
      exists ((i, w) :: p'). simpl. split; [lia|]. auto.
Qed.

(** *** Names *)

Lemma escape_plain s : plain s = true -> escape s = s.
Proof.
  unfold plain. induction s as [|c s IH]; [reflexivity|].
  cbn [all_chars escape]. intros H.
  apply andb_prop in H as [Hc Hs]. apply andb_prop in Hc as [Hc H32].
  apply andb_prop in Hc as [Hq Hb].
  apply negb_true_iff in Hq, Hb, H32. rewrite Hq, Hb.
  apply Nat.ltb_ge in H32.
  repeat match goal with
         | |- context [(?n =? ?k)%nat] =>
             destruct (Nat.eqb_spec n k); [exfalso; lia|]
         end.
  destruct (Nat.ltb_spec (nat_of_ascii c) 32); [lia|].
  rewrite (IH Hs). reflexivity.
Qed.

Lemma plain_no_quote s :
  plain s = true -> all_chars (fun c => negb (Ascii.eqb dquote c)) s = true.
Proof.
  unfold plain. apply all_chars_weaken. intros c H.
  apply andb_prop in H as [H _]. apply andb_prop in H as [H _].
  rewrite Ascii.eqb_sym. exact H.
Qed.

Lemma rstrip_by_app_last p s c :
  p c = true -> all_chars (fun c => negb (p c)) s = true ->
  rstrip_by p (s ++ String c EmptyString)%string = s.
Proof.
  intros Hc. induction s as [|a s IH]; simpl.
  - rewrite Hc. reflexivity.
  - intros H. apply andb_prop in H as [Ha Hs]. rewrite (IH Hs).
    apply negb_true_iff in Ha.
    destruct s as [|b s]; [rewrite Ha; reflexivity|reflexivity].
Qed.

Lemma str_field_plain s : plain s = true -> str_field (agtype_string s) = s.
Proof.
  intros H. unfold str_field, agtype_string, str_of_field, strip_char.
  rewrite (escape_plain s H). pose proof (plain_no_quote s H) as Hq.
  cbn [lstrip_by]. rewrite Ascii.eqb_refl.
  destruct s as [|c s]; [reflexivity|].
  cbn [all_chars] in Hq. apply andb_prop in Hq as [Hc Hs].
  change (String c s ++ String dquote EmptyString)%string
    with (String c (s ++ String dquote EmptyString)).
  rewrite lstrip_by_keep by (apply negb_true_iff, Hc).
  change (String c (s ++ String dquote EmptyString))
    with (String c s ++ String dquote EmptyString)%string.
  apply rstrip_by_app_last; [apply Ascii.eqb_refl|].
  cbn [all_chars]. rewrite Hc, Hs. reflexivity.
Qed.

Lemma walk_vertices_exist g p : forall o,
  wf_graph g -> is_walk g o p ->
  forall v, In v (map snd p) -> has_usuario g v = true.
Proof.
  induction p as [|[i w] p IH]; intros o Hwf Hw v Hv; [destruct Hv|].
  destruct Hw as [Hs Hw]. destruct Hv as [<-|Hv]; [|apply (IH w Hwf Hw v Hv)].
  simpl. apply steps_spec in Hs as (a & b & Hn & Hab).
  apply nth_error_In in Hn. destruct Hwf as (_ & _ & He).
  destruct (He a b Hn) as [Ha Hb].
  destruct Hab as [[_ ->]|[_ ->]]; assumption.
Qed.

(** *** The properties *)

(** X1. A request about a user that does not exist is answered 404 and sends
    no path statement: the origin is looked up first, and an unknown origin is
    reported after that single lookup; an unknown destination is reported
    after the two lookups. *)
Theorem shortest_path_unknown_user (g : Graph) (o d max_depth : Z) :
  (has_usuario g o = false ->
   run (get_shortest_path o d max_depth) g
   = (Raise (HTTPException 404
               ("Usuario origen con ID " ++ str_of_int o ++ " no encontrado")%string),
      [QUsuarioById o])) /\
  (has_usuario g o = true -> has_usuario g d = false ->
   run (get_shortest_path o d max_depth) g
   = (Raise (HTTPException 404
               ("Usuario destino con ID " ++ str_of_int d ++ " no encontrado")%string),
      [QUsuarioById o; QUsuarioById d])).
Proof.
  split.
  - apply get_shortest_path_no_origin.
  - apply get_shortest_path_no_destination.
Qed.

Lemma shortest_path_unknown_user_witness :
  run (get_shortest_path 99 1 3) islands
  = (Raise (HTTPException 404 "Usuario origen con ID 99 no encontrado"), [QUsuarioById 99]) /\
  run (get_shortest_path 1 99 3) islands
  = (Raise (HTTPException 404 "Usuario destino con ID 99 no encontrado"),
     [QUsuarioById 1; QUsuarioById 99]).
Proof.
  split.
  - apply (proj1 (shortest_path_unknown_user islands 99 1 3)). reflexivity.
  - apply (proj2 (shortest_path_unknown_user islands 1 99 3)); reflexivity.
Defined.

(** X2. Every response of a successful request is well formed and within the
    bound: with [exists] the length is between 1 and [max_depth], the path has
    one vertex more than its length, and the statements sent are the two
    lookups, one probe per depth up to the length and the node statement;
    without [exists] the path is empty, the length 0, and one probe per depth
    was sent. Never more than [max_depth + 3] statements are sent. *)
Theorem shortest_path_bounded (g : Graph) (o d max_depth : Z)
  (r : ShortestPathResponseDTO) (log : list query) :
  run (get_shortest_path o d max_depth) g = (Ok r, log) ->
  sp_status_code r = 200 /\
  (sp_exists r = true ->
   1 <= sp_length r <= max_depth /\
   size (sp_path r) = sp_length r + 1 /\
   size log = sp_length r + 3) /\
  (sp_exists r = false ->
   sp_path r = [] /\ sp_length r = 0 /\ size log = Z.max 0 max_depth + 2) /\
  size log <= Z.max 0 max_depth + 3.
Proof.
  intros E.
  destruct (get_shortest_path_inv g o d max_depth r log E)
    as [(L & vs & rest & HL & Hlow & Hm & -> & ->)|(Hall & -> & ->)].
  - assert (Hin : In vs (match_paths g o d L)) by (rewrite Hm; now left).
    pose proof (match_paths_length g o d L vs Hin) as Hlen.
    pose proof (found_length g vs L Hlen) as Hsz.
    assert (Hlog : size ([QUsuarioById o; QUsuarioById d] ++ map (probe o d) (seq 1 L)
                           ++ [QPathNodes o d (Z.of_nat L)]) = Z.of_nat L + 3).
    { unfold size. rewrite !length_app, length_map, length_seq. simpl. lia. }
    split; [reflexivity|]. split; [|split].
    + intros _. rewrite Hsz, Hlog. split; [lia|]. split; [|reflexivity].
      cbn [found sp_path]. unfold size. rewrite length_map, Hlen. lia.
    + intros H. discriminate H.
    + rewrite Hlog. lia.
  - assert (Hlog : size ([QUsuarioById o; QUsuarioById d]
                           ++ map (probe o d) (seq 1 (Z.to_nat max_depth)))
                   = Z.max 0 max_depth + 2).
    { unfold size. rewrite length_app, length_map, length_seq. simpl. lia. }
    split; [reflexivity|]. split; [|split].
    + intros H. discriminate H.
    + intros _. auto.
    + rewrite Hlog. lia.
Qed.

Lemma shortest_path_bounded_witness :
  exists r log,
    run (get_shortest_path 1 3 3) diamond = (Ok r, log) /\
    sp_status_code r = 200 /\
    (sp_exists r = true ->
     1 <= sp_length r <= 3 /\
     size (sp_path r) = sp_length r + 1 /\
     size log = sp_length r + 3) /\
    (sp_exists r = false ->
     sp_path r = [] /\ sp_length r = 0 /\ size log = Z.max 0 3 + 2) /\
    size log <= Z.max 0 3 + 3.
Proof.
  eexists _, _. split; [vm_compute; reflexivity|].
  apply (shortest_path_bounded diamond 1 3 3). vm_compute. reflexivity.
Defined.

(** X3. Origin and destination can be exchanged: the two requests agree on
    whether a path exists, on its length and on the number of statements sent
    (the edges are followed in either direction). *)
Theorem shortest_path_symmetric (g : Graph) (o d max_depth : Z) :
  has_usuario g o = true -> has_usuario g d = true ->
  exists r r' log log',
    run (get_shortest_path o d max_depth) g = (Ok r, log) /\
    run (get_shortest_path d o max_depth) g = (Ok r', log') /\
    sp_exists r = sp_exists r' /\
    sp_length r = sp_length r' /\
    size log = size log'.
Proof.
  intros Ho Hd.
  destruct (get_shortest_path_run g o d max_depth Ho Hd)
    as [(L & vs & rest & HL & Hlow & Hm & E)|[Hall E]];
  destruct (get_shortest_path_run g d o max_depth Hd Ho)
    as [(L' & vs' & rest' & HL' & Hlow' & Hm' & E')|[Hall' E']].
  - assert (L = L').
    { destruct (lt_eq_lt_dec L L') as [[Hlt|Heq]|Hgt]; [|exact Heq|].
      - exfalso. apply (match_paths_sym g o d L vs); [rewrite Hm; now left|].
        apply Hlow'. lia.
      - exfalso. apply (match_paths_sym g d o L' vs'); [rewrite Hm'; now left|].
        apply Hlow. lia. }
    subst L'. eexists _, _, _, _. split; [exact E|]. split; [exact E'|].
    assert (Hv : List.length vs = S L)
      by (apply (match_paths_length g o d); rewrite Hm; now left).
    assert (Hv' : List.length vs' = S L)
      by (apply (match_paths_length g d o); rewrite Hm'; now left).
    split; [reflexivity|]. split.
    + rewrite (found_length g vs L Hv), (found_length g vs' L Hv'). reflexivity.
    + unfold size. rewrite !length_app, !length_map, !length_seq. reflexivity.
  - exfalso. apply (match_paths_sym g o d L vs); [rewrite Hm; now left|].
    apply Hall'. lia.
  - exfalso. apply (match_paths_sym g d o L' vs'); [rewrite Hm'; now left|].
    apply Hall. lia.
  - eexists _, _, _, _. split; [exact E|]. split; [exact E'|].
    split; [reflexivity|]. split; [reflexivity|].
    unfold size. rewrite !length_app, !length_map, !length_seq. reflexivity.
Qed.

Lemma shortest_path_symmetric_witness :
  exists r r' log log',
    run (get_shortest_path 1 3 3) diamond = (Ok r, log) /\
    run (get_shortest_path 3 1 3) diamond = (Ok r', log') /\
    sp_exists r = sp_exists r' /\
    sp_length r = sp_length r' /\
    size log = size log'.
Proof.
  apply (shortest_path_symmetric diamond 1 3 3); reflexivity.
Defined.

(** X4. Once a path is found, a larger depth bound changes nothing: the same
    response is returned after the same statements. *)
Theorem shortest_path_stable (g : Graph) (o d max_depth max_depth' : Z)
  (r : ShortestPathResponseDTO) (log : list query) :
  run (get_shortest_path o d max_depth) g = (Ok r, log) ->
  sp_exists r = true ->
  max_depth <= max_depth' ->
  run (get_shortest_path o d max_depth') g = (Ok r, log).
Proof.
  intros E Hex Hle.
  destruct (get_shortest_path_users g o d max_depth r log E) as [Ho Hd].
  destruct (get_shortest_path_inv g o d max_depth r log E)
    as [(L & vs & rest & HL & Hlow & Hm & -> & ->)|(Hall & -> & ->)];
    [|discriminate Hex].
  destruct (get_shortest_path_run g o d max_depth' Ho Hd)
    as [(L' & vs' & rest' & HL' & Hlow' & Hm' & E')|[Hall' E']].
  - assert (L = L').
    { destruct (lt_eq_lt_dec L L') as [[Hlt|Heq]|Hgt]; [|exact Heq|].
      - rewrite (Hlow' L) in Hm by lia. discriminate Hm.
      - rewrite (Hlow L') in Hm' by lia. discriminate Hm'. }
    subst L'. rewrite Hm in Hm'. injection Hm' as <- <-. exact E'.
  - rewrite (Hall' L) in Hm by lia. discriminate Hm.
Qed.

Lemma shortest_path_stable_witness :
  exists r log,
    run (get_shortest_path 1 3 2) diamond = (Ok r, log) /\
    run (get_shortest_path 1 3 5) diamond = (Ok r, log).
Proof.
  eexists _, _. split; [vm_compute; reflexivity|].
  apply (shortest_path_stable diamond 1 3 2 5); [vm_compute; reflexivity|reflexivity|lia].
Defined.

(** X5. Between two distinct users the path returned visits no user twice. *)
Theorem shortest_path_simple (g : Graph) (o d max_depth : Z)
  (r : ShortestPathResponseDTO) (log : list query) :
  o <> d ->
  run (get_shortest_path o d max_depth) g = (Ok r, log) ->
  NoDup (map pn_id (sp_path r)).
Proof.
  intros Hod E.
  destruct (get_shortest_path_users g o d max_depth r log E) as [Ho Hd].
  destruct (get_shortest_path_inv g o d max_depth r log E)
    as [(L & vs & rest & HL & Hlow & Hm & -> & ->)|(Hall & -> & ->)];
    [|constructor].
  cbn [found sp_path]. rewrite map_map. simpl. rewrite map_id.
  destruct (NoDup_dec Z.eq_dec vs) as [Hnd|Hnd]; [exact Hnd|exfalso].
  assert (Hin : In vs (match_paths g o d L)) by (rewrite Hm; now left).
  apply match_paths_spec in Hin as (_ & _ & p & Hl & [Hw _] & He & ->).
  destruct (walk_vertex_shortcut g p o Hw Hnd) as (p' & Hl' & Hw' & He').
  assert (Hc : chain g o d (List.length p')).
  { apply chain_walk. exists p'. split; [reflexivity|]. split; [exact Hw'|].
    rewrite He'. exact He. }
  destruct (chain_match g o d _ Ho Hd Hc) as (n & Hn & Hne).
  apply Hne, Hlow. split; [|lia].
  destruct n; [|lia]. exfalso. apply Hne.
  unfold match_paths. rewrite Ho, Hd. simpl.
  destruct (Z.eqb_spec o d); [contradiction|reflexivity].
Qed.

Lemma shortest_path_simple_witness :
  exists r log,
    run (get_shortest_path 1 3 3) diamond = (Ok r, log) /\
    NoDup (map pn_id (sp_path r)).
Proof.
  eexists _, _. split; [vm_compute; reflexivity|].
  eapply (shortest_path_simple diamond 1 3 3); [discriminate|vm_compute; reflexivity].
Defined.

(** X6. When every edge joins existing users and no name holds a character
    that agtype escapes (double quote, backslash, control character), each
    vertex of the path returned is a user of the graph, shown with its stored
    first name and surname separated by a blank. *)
Theorem shortest_path_names (g : Graph) (o d max_depth : Z)
  (r : ShortestPathResponseDTO) (log : list query) :
  wf_graph g ->
  (forall u, In u (usuarios g) -> plain (nombre u) = true /\ plain (apellidos u) = true) ->
  run (get_shortest_path o d max_depth) g = (Ok r, log) ->
  forall n, In n (sp_path r) ->
    exists u, In u (usuarios g) /\ id_usuario u = pn_id n /\
              find_usuario g (pn_id n) = Some u /\
              nombre_completo n = (nombre u ++ " " ++ apellidos u)%string.
Proof.
  intros Hwf Hplain E n Hn.
  destruct (get_shortest_path_users g o d max_depth r log E) as [Ho Hd].
  destruct (get_shortest_path_inv g o d max_depth r log E)
    as [(L & vs & rest & HL & Hlow & Hm & -> & ->)|(Hall & -> & ->)];
    [|destruct Hn].
  cbn [found sp_path] in Hn. apply in_map_iff in Hn as (v & <- & Hv).
  assert (Hin : In vs (match_paths g o d L)) by (rewrite Hm; now left).
  apply match_paths_spec in Hin as (_ & _ & p & Hl & [Hw _] & He & ->).
  assert (Hu : has_usuario g v = true).
  { destruct Hv as [<-|Hv]; [exact Ho|]. apply (walk_vertices_exist g p o Hwf Hw v Hv). }
  apply has_usuario_find in Hu as [u Hu].
  pose proof Hu as Hf. unfold find_usuario in Hf. apply find_some in Hf as [Hiu Hid].
  apply Z.eqb_eq in Hid. destruct (Hplain u Hiu) as [Hpn Hpa].
  exists u. cbn [node_of pn_id nombre_completo]. unfold name_field. rewrite Hu.
  rewrite (str_field_plain _ Hpn), (str_field_plain _ Hpa). auto.
Qed.

Lemma shortest_path_names_witness :
  exists r log,
    run (get_shortest_path 1 3 3) diamond = (Ok r, log) /\
    forall n, In n (sp_path r) ->
      exists u, In u (usuarios diamond) /\ id_usuario u = pn_id n /\
                find_usuario diamond (pn_id n) = Some u /\
                nombre_completo n = (nombre u ++ " " ++ apellidos u)%string.
Proof.
  eexists _, _. split; [vm_compute; reflexivity|].
  eapply (shortest_path_names diamond 1 3 3).
  - split; [|split].
    + repeat constructor; simpl; intuition discriminate.
    + constructor.
    + intros a b H. simpl in H.
      repeat (destruct H as [H|H]; [injection H as <- <-; split; reflexivity|]).
      destruct H.
  - intros u H. simpl in H.
    repeat (destruct H as [<-|H]; [split; reflexivity|]). destruct H.
  - vm_compute. reflexivity.
Defined.

End PathProperties.

Module RecommendationProperties.
Import Py Age Store PyFacts AgtypeFacts PathFacts QueryFacts RecommendationFacts.
Import Examples Props Notions.
Import GraphRepository GraphService.

Lemma firstn_keys {A B} (f : A -> B) n : forall l,
  NoDup (map f l) -> NoDup (map f (firstn n l)).
Proof.
  induction n as [|n IH]; intros [|a l] H; simpl; try constructor.
  - inversion H as [|? ? Hout Hl]; subst. intros Hin. apply Hout.
    apply in_map_iff in Hin as (x & <- & Hx). apply in_map, (firstn_in n l x Hx).
  - inversion H; subst. apply IH. assumption.
Qed.

Lemma fof_groups_keys g u min_common : NoDup (map fst (fof_groups g u min_common)).
Proof.
  unfold fof_groups. apply CommunityFacts.sort_by_keys, CommunityFacts.filter_keys,
    collect_distinct_keys.
Qed.

Lemma fof_groups_complete g u min_common x fs :
  has_usuario g u = true -> has_usuario g x = true ->
  x <> u -> ~ In (u, x) (conectado g) ->
  NoDup fs -> fs <> [] ->
  (forall f, In f fs ->
     has_usuario g f = true /\ In (u, f) (conectado g) /\ In (f, x) (conectado g)) ->
  min_common <= size fs ->
  In x (map fst (fof_groups g u min_common)).
Proof.
  intros Hu Hx Hxu Hnc Hnd Hne Hfs Hmin.
  assert (Hall : forall f, In f fs -> In (x, f) (fof_matches g u)).
  { intros f Hf. destruct (Hfs f Hf) as (Hf1 & Hf2 & Hf3).
    apply in_fof_matches. auto 10. }
  destruct fs as [|f0 fs0] eqn:Efs; [contradiction|]. rewrite <- Efs in *.
  assert (Hf0 : In f0 fs) by (rewrite Efs; now left).
  destruct (collect_distinct_complete Z.eq_dec _ x f0 (Hall f0 Hf0)) as [vs Hvs].
  destruct (in_collect_distinct Z.eq_dec _ x vs Hvs) as (_ & Hndv & Hiff).
  assert (Hle : (List.length fs <= List.length vs)%nat).
  { apply NoDup_incl_length; [exact Hnd|]. intros f Hf. apply Hiff, Hall, Hf. }
  change x with (fst (x, vs)). apply in_map. unfold fof_groups.
  apply in_sort_by, filter_In. split; [exact Hvs|].
  simpl. apply Z.leb_le. unfold size in *. lia.
Qed.

(** X7. Every candidate appears at most once, and a candidate with enough
    common friends is only left out when the limit is reached: if fewer than
    [lim] entries are returned, every existing user [x] other than [u], not
    directly connected from [u], with a list [fs] of at least [min_common]
    (and at least one) distinct users [f] such that [u -> f -> x], is among
    the entries. *)
Theorem recommendations_complete (g : Graph) (u lim min_common : Z)
  (r : RecommendationsResponseDTO) (log : list query) :
  run (get_recommendations u lim min_common) g = (Ok r, log) ->
  NoDup (map rec_id_usuario (recommendations r)) /\
  (size (recommendations r) < lim ->
   forall x fs,
     has_usuario g x = true -> x <> u -> ~ In (u, x) (conectado g) ->
     NoDup fs -> fs <> [] ->
     (forall f, In f fs ->
        has_usuario g f = true /\ In (u, f) (conectado g) /\ In (f, x) (conectado g)) ->
     min_common <= size fs ->
     In x (map rec_id_usuario (recommendations r))).
Proof.
  intros E.
  assert (Hu : has_usuario g u = true).
  { rewrite get_recommendations_run in E. destruct (has_usuario g u); [reflexivity|].
    discriminate E. }
  destruct (RecommendationClaims.get_recommendations_ok g u lim min_common r log E)
    as (grps & Hlim & Hg & Hr).
  assert (Hids : map rec_id_usuario (recommendations r) = map fst grps).
  { rewrite Hr, map_map. reflexivity. }
  rewrite Hids. split.
  - rewrite Hg. apply firstn_keys, fof_groups_keys.
  - intros Hsz x fs Hx Hxu Hnc Hnd Hne Hfs Hmin.
    assert (Hall : grps = fof_groups g u min_common).
    { rewrite Hg. apply EgoFacts.firstn_all_short. rewrite <- Hg.
      unfold size in Hsz. rewrite Hr, length_map in Hsz. lia. }
    rewrite Hall. apply (fof_groups_complete g u min_common x fs); assumption.
Qed.

Lemma recommendations_complete_witness :
  exists r log,
    run (get_recommendations 1 10 1) fan = (Ok r, log) /\
    NoDup (map rec_id_usuario (recommendations r)) /\
    In 5 (map rec_id_usuario (recommendations r)).
Proof.
  eexists _, _. split; [vm_compute; reflexivity|].
  pose proof (recommendations_complete fan 1 10 1 _ _ eq_refl) as [Hnd Hc].
  split; [exact Hnd|].
  apply (Hc ltac:(vm_compute; reflexivity) 5 [2; 3]).
  - reflexivity.
  - discriminate.
  - simpl. intuition discriminate.
  - repeat constructor; simpl; intuition discriminate.
  - discriminate.
  - intros f [<-|[<-|[]]]; simpl; auto 10.
  - vm_compute. discriminate.
Defined.

End RecommendationProperties.

Module RouteProperties.
Import Py Age Store PyFacts AgtypeFacts PathFacts QueryFacts RecommendationFacts.
Import Examples Props Notions.
Import GraphRepository GraphService.

(** X8. Through the route the request cannot fail for an existing user: a
    limit outside 1..100 or a minimum outside 1..10 is refused before anything
    is sent to the store; within the bounds an unknown user is answered 404
    after the lookup, and an existing user gets status 200 after the lookup
    and the friend-of-friend statement, with [total] the number of entries, at
    most [lim]. *)
Theorem route_recommendations (g : Graph) (u lim min_common : Z) :
  (~ (1 <= lim <= 100) \/ ~ (1 <= min_common <= 10) ->
   exists p, run (Routes.get_recommendations u lim min_common) g
             = (Raise (RequestValidationError p), [])) /\
  (1 <= lim <= 100 -> 1 <= min_common <= 10 -> has_usuario g u = false ->
   run (Routes.get_recommendations u lim min_common) g
   = (Raise (HTTPException 404 ("Usuario con ID " ++ str_of_int u ++ " no encontrado")%string),
      [QUsuarioById u])) /\
  (1 <= lim <= 100 -> 1 <= min_common <= 10 -> has_usuario g u = true ->
   exists r,
     run (Routes.get_recommendations u lim min_common) g
     = (Ok r, [QUsuarioById u; QFriendOfFriend u lim min_common]) /\
     rr_status_code r = 200 /\ rr_user_id r = u /\
     rr_total r = size (recommendations r) /\ rr_total r <= lim).
Proof.
  assert (Hroute : 1 <= lim <= 100 -> 1 <= min_common <= 10 ->
                   run (Routes.get_recommendations u lim min_common) g
                   = run (get_recommendations u lim min_common) g).
  { intros Hl Hm. unfold run, Routes.get_recommendations, Routes.query_param, bind.
    destruct (Z.ltb_spec lim 1), (Z.ltb_spec 100 lim); try lia.
    destruct (Z.ltb_spec min_common 1), (Z.ltb_spec 10 min_common); try lia.
    reflexivity. }
  split; [|split].
  - intros H. unfold run, Routes.get_recommendations, Routes.query_param, bind, raise, ret.
    destruct (Z.ltb_spec lim 1), (Z.ltb_spec 100 lim); cbn [orb]; eauto.
    destruct (Z.ltb_spec min_common 1), (Z.ltb_spec 10 min_common); cbn [orb]; eauto.
    lia.
  - intros Hl Hm Hu. rewrite (Hroute Hl Hm), get_recommendations_run, Hu. reflexivity.
  - intros Hl Hm Hu. rewrite (Hroute Hl Hm), get_recommendations_run, Hu.
    rewrite limit_ok by lia.
    eexists. split; [reflexivity|].
    cbn [recommendations_response rr_status_code rr_user_id rr_total recommendations].
    split; [reflexivity|]. split; [reflexivity|]. split; [reflexivity|].
    unfold size. rewrite length_map.
    pose proof (firstn_le_length (Z.to_nat lim) (fof_groups g u min_common)). lia.
Qed.

Lemma route_recommendations_witness :
  (exists p, run (Routes.get_recommendations 1 0 1) fan
             = (Raise (RequestValidationError p), [])) /\
  run (Routes.get_recommendations 99 10 1) fan
  = (Raise (HTTPException 404 "Usuario con ID 99 no encontrado"), [QUsuarioById 99]) /\
  (exists r,
     run (Routes.get_recommendations 1 10 1) fan
     = (Ok r, [QUsuarioById 1; QFriendOfFriend 1 10 1]) /\
     rr_status_code r = 200 /\ rr_user_id r = 1 /\
     rr_total r = size (recommendations r) /\ rr_total r <= 10).
Proof.
  split; [apply (proj1 (route_recommendations fan 1 0 1)); left; lia|].
  split; [apply (proj1 (proj2 (route_recommendations fan 99 10 1))); [lia|lia|reflexivity]|].
  apply (proj2 (proj2 (route_recommendations fan 1 10 1))); [lia|lia|reflexivity].
Defined.

(** X9. Through the route a depth bound outside 1..5 is refused before
    anything is sent to the store; within the bounds the route answers as the
    service method does, so a path returned has at most 5 edges and a request
    sends at most 8 statements. *)
Theorem route_shortest_path (g : Graph) (o d max_depth : Z) :
  (~ (1 <= max_depth <= 5) ->
   run (Routes.get_shortest_path o d max_depth) g
   = (Raise (RequestValidationError "max_depth"), [])) /\
  (1 <= max_depth <= 5 ->
   run (Routes.get_shortest_path o d max_depth) g
   = run (get_shortest_path o d max_depth) g) /\
  (forall r log,
     run (Routes.get_shortest_path o d max_depth) g = (Ok r, log) ->
     0 <= sp_length r <= 5 /\ size (sp_path r) <= 6 /\ size log <= 8).
Proof.
  assert (Hin : 1 <= max_depth <= 5 ->
                run (Routes.get_shortest_path o d max_depth) g
                = run (get_shortest_path o d max_depth) g).
  { intros H. unfold run, Routes.get_shortest_path, Routes.query_param, bind.
    destruct (Z.ltb_spec max_depth 1), (Z.ltb_spec 5 max_depth); try lia. reflexivity. }
  assert (Hout : ~ (1 <= max_depth <= 5) ->
                 run (Routes.get_shortest_path o d max_depth) g
                 = (Raise (RequestValidationError "max_depth"), [])).
  { intros H. unfold run, Routes.get_shortest_path, Routes.query_param, bind, raise.
    destruct (Z.ltb_spec max_depth 1), (Z.ltb_spec 5 max_depth); cbn [orb];
      try reflexivity. lia. }
  split; [exact Hout|]. split; [exact Hin|].
  intros r log E.
  assert (Hb : 1 <= max_depth <= 5).
  { destruct (Z_le_dec 1 max_depth) as [H1|H1];
      [destruct (Z_le_dec max_depth 5) as [H5|H5]; [lia|]|];
      rewrite Hout in E by lia; discriminate E. }
  rewrite (Hin Hb) in E.
  destruct (PathProperties.get_shortest_path_inv g o d max_depth r log E)
    as [(L & vs & rest & HL & Hlow & Hm & -> & ->)|(Hall & -> & ->)].
  - assert (Hlen : List.length vs = S L).
    { apply (Chains.match_paths_length g o d). rewrite Hm. now left. }
    rewrite (PathProperties.found_length g vs L Hlen).
    cbn [found sp_path]. unfold size.
    rewrite length_map, Hlen, !length_app, length_map, length_seq. simpl. lia.
  - cbn [not_found sp_length sp_path]. unfold size.
    rewrite length_app, length_map, length_seq. simpl. lia.
Qed.

Lemma route_shortest_path_witness :
  run (Routes.get_shortest_path 1 3 6) diamond
  = (Raise (RequestValidationError "max_depth"), []) /\
  run (Routes.get_shortest_path 1 3 3) diamond = run (get_shortest_path 1 3 3) diamond /\
  (exists r log,
     run (Routes.get_shortest_path 1 3 3) diamond = (Ok r, log) /\
     0 <= sp_length r <= 5 /\ size (sp_path r) <= 6 /\ size log <= 8).
Proof.
  split; [apply (proj1 (route_shortest_path diamond 1 3 6)); lia|].
  split; [apply (proj1 (proj2 (route_shortest_path diamond 1 3 3))); lia|].
  eexists _, _. split; [vm_compute; reflexivity|].
  apply (proj2 (proj2 (route_shortest_path diamond 1 3 3))). vm_compute. reflexivity.
Defined.

End RouteProperties.

Module EgoProperties.
Import Py Age Store Props PyFacts AgtypeFacts PathFacts QueryFacts Chains EgoFacts.
Import Examples Notions.
Import GraphRepository GraphService.

(** The vertices the node statement reaches are at the end of a chain of 1
    to [depth] edges from the center. *)
Lemma in_ego_reached g c depth w :
  In w (ego_reached g c depth) ->
  has_usuario g c = true /\
  exists k, (1 <= k)%nat /\ Z.of_nat k <= depth /\ chain g c w k.
Proof.
  unfold ego_reached. destruct (has_usuario g c); [|intros []].
  rewrite in_flat_map. intros (n & Hn & Hw). split; [reflexivity|].
  apply in_seq in Hn. apply in_map_iff in Hw as (vs & <- & Hvs).
  apply trails_spec in Hvs as (p & Hl & [Hw _] & _ & ->).
  exists n. split; [lia|]. split; [lia|].
  apply chain_walk. exists p. split; [exact Hl|]. split; [exact Hw|].
  symmetry. apply last_endpoint.
Qed.

(** The statistics of a successful request count the nodes and the edges
    returned. *)
Lemma get_ego_graph_stats g c depth max_nodes r log :
  run (get_ego_graph c depth max_nodes) g = (Ok r, log) ->
  gr_status_code r = 200 /\
  1 <= depth <= 3 /\ 10 <= max_nodes <= 2000 /\
  total_nodes (stats r) = size (nodes (graph r)) /\
  total_edges (stats r) = size (edges (graph r)).
Proof.
  unfold run, get_ego_graph. unfold bind at 1. rewrite find_by_id_eq.
  destruct (find_usuario g c) as [u|] eqn:Eu; [|discriminate].
  destruct (Z.ltb_spec depth 1), (Z.ltb_spec 3 depth); cbn [orb]; try discriminate.
  destruct (Z.ltb_spec max_nodes 10), (Z.ltb_spec 2000 max_nodes); cbn [orb];
    try discriminate.
  unfold bind. cbn [app].
  destruct (get_ego_subgraph c depth max_nodes g [QUsuarioById c]) as [[gd|e] log'];
    [|discriminate].
  unfold ret. intros [= <- _]. cbn [gr_status_code stats graph total_nodes total_edges].
  split; [reflexivity|]. split; [lia|]. split; [lia|]. split; reflexivity.
Qed.

(** X10. At any depth the subgraph returned is sound and closed: a successful
    request had a depth in 1..3 and a maximum in 10..2000; it returns at most
    [max_nodes] nodes, each the id of an existing user at the end of a chain
    of 1 to [depth] edges from the center; every edge returned is a CONECTADO
    edge of the graph whose two ends are nodes returned; and the statistics
    count the nodes and edges returned. *)
Theorem ego_graph_sound (g : Graph) (c depth max_nodes : Z)
  (r : GraphResponseDTO) (log : list query) :
  run (get_ego_graph c depth max_nodes) g = (Ok r, log) ->
  1 <= depth <= 3 /\ 10 <= max_nodes <= 2000 /\
  size (nodes (graph r)) <= max_nodes /\
  (forall s, In s (map node_id (nodes (graph r))) ->
     exists w k, s = str_of_int w /\ has_usuario g w = true /\
                 (1 <= k)%nat /\ Z.of_nat k <= depth /\ chain g c w k) /\
  (forall e, In e (edges (graph r)) ->
     In (edge_source e) (map node_id (nodes (graph r))) /\
     In (edge_target e) (map node_id (nodes (graph r))) /\
     exists a b, In (a, b) (conectado g) /\
                 edge_source e = str_of_int a /\ edge_target e = str_of_int b) /\
  total_nodes (stats r) = size (nodes (graph r)) /\
  total_edges (stats r) = size (edges (graph r)).
Proof.
  intros Hrun.
  destruct (get_ego_graph_stats g c depth max_nodes r log Hrun)
    as (_ & Hd & Hm & Hn & He).
  apply get_ego_graph_ok in Hrun as (Hc & log' & Hsub).
  apply get_ego_subgraph_ok in Hsub as (rows & ids & Hq & Hloop & Hedges).
  destruct (ego_nodes_rows g c depth max_nodes rows Hq) as [Hrows _].
  destruct (ego_node_loop_ids rows [] [] _ _
              (fun row Hr => let (v, H) := Hrows row Hr in ex_intro _ v (proj1 H)) Hloop)
    as (Hs & Hx & Hlen).
  split; [exact Hd|]. split; [exact Hm|]. split; [|split; [|split; [|split]]].
  - unfold size. rewrite Hlen. simpl.
    unfold ego_nodes_query, limit in Hq.
    destruct (Z.ltb_spec max_nodes 0); [discriminate|]. injection Hq as <-.
    pose proof (firstn_le_length (Z.to_nat max_nodes)
                  (nodup EgoNodeRow_eq_dec (flat_map (ego_node_rows g) (ego_reached g c depth)))).
    lia.
  - intros s Hin. apply Hs in Hin as [[]|(row & v & Hrow & Hv & ->)].
    destruct (Hrows row Hrow) as (v' & Hv' & Hu & Hreach).
    rewrite Hv in Hv'. apply agtype_int_inj in Hv' as <-.
    apply in_ego_reached in Hreach as (_ & k & Hk1 & Hk2 & Hch).
    exists v, k. auto 10.
  - intros e Hin. destruct (Hedges e Hin) as (a & b & Ha & Hb & Hab & Hsrc & Htgt).
    assert (Hmem : forall x, mem x ids = true ->
                             In (str_of_int x) (map node_id (nodes (graph r)))).
    { intros x Hmx. unfold mem in Hmx. apply existsb_exists in Hmx as (y & Hy & Hxy).
      apply Z.eqb_eq in Hxy. subst y.
      apply Hx in Hy as [[]|(row & Hrow & Hid)]. apply Hs. right. exists row, x. auto. }
    rewrite Hsrc, Htgt. split; [auto|]. split; [auto|]. exists a, b. auto.
  - exact Hn.
  - exact He.
Qed.

Lemma ego_graph_sound_witness :
  exists r log,
    run (get_ego_graph 1 2 500) fan = (Ok r, log) /\
    1 <= 2 <= 3 /\ 10 <= 500 <= 2000 /\
    size (nodes (graph r)) <= 500 /\
    (forall s, In s (map node_id (nodes (graph r))) ->
       exists w k, s = str_of_int w /\ has_usuario fan w = true /\
                   (1 <= k)%nat /\ Z.of_nat k <= 2 /\ chain fan 1 w k) /\
    (forall e, In e (edges (graph r)) ->
       In (edge_source e) (map node_id (nodes (graph r))) /\
       In (edge_target e) (map node_id (nodes (graph r))) /\
       exists a b, In (a, b) (conectado fan) /\
                   edge_source e = str_of_int a /\ edge_target e = str_of_int b) /\
    total_nodes (stats r) = size (nodes (graph r)) /\
    total_edges (stats r) = size (edges (graph r)).
Proof.
  eexists _, _. split; [vm_compute; reflexivity|].
  eapply (ego_graph_sound fan 1 2 500). vm_compute. reflexivity.
Defined.

(** *** One node per user *)

Lemma filter_unique {A} (f : A -> Z) (v : Z) (l : list A) :
  NoDup (map f l) -> (List.length (filter (fun x => (f x =? v)%Z) l) <= 1)%nat.
Proof.
  induction l as [|a l IH]; intros H; [simpl; lia|].
  inversion H as [|? ? Hout Hl]; subst. simpl.
  destruct (Z.eqb_spec (f a) v) as [E|E]; [|auto].
  assert (Hnil : filter (fun x => f x =? v) l = []).
  { destruct (filter (fun x => f x =? v) l) as [|b bs] eqn:Ef; [reflexivity|exfalso].
    assert (Hb : In b (filter (fun x => f x =? v) l)) by (rewrite Ef; now left).
    apply filter_In in Hb as [Hb Hv]. apply Z.eqb_eq in Hv.
    apply Hout. rewrite E, <- Hv. apply in_map, Hb. }
  rewrite Hnil. simpl. lia.
Qed.

Lemma flat_map_nil {A B} (f : A -> list B) l :
  (forall x, In x l -> f x = []) -> flat_map f l = [].
Proof.
  induction l as [|a l IH]; intros H; [reflexivity|]. simpl.
  rewrite (H a (or_introl eq_refl)), IH; [reflexivity|]. intros x Hx. apply H. now right.
Qed.

Lemma hobby_matches_unique g v :
  NoDup (map id_hobby (hobbies g)) -> NoDup (map fst (tiene_hobby g)) ->
  (List.length
     (flat_map (fun '(a, h) =>
                  if (a =? v)%Z then
                    map (fun hb => agtype_string (hobby_nombre hb))
                        (filter (fun hb => (id_hobby hb =? h)%Z) (hobbies g))
                  else [])
               (tiene_hobby g)) <= 1)%nat.
Proof.
  intros Hh. induction (tiene_hobby g) as [|[a h] l IH]; intros H; [simpl; lia|].
  inversion H as [|? ? Hout Hl]; subst. cbn [flat_map].
  destruct (Z.eqb_spec a v) as [E|E].
  - assert (Hnil : flat_map (fun '(a, h) =>
                      if a =? v then
                        map (fun hb => agtype_string (hobby_nombre hb))
                            (filter (fun hb => id_hobby hb =? h) (hobbies g))
                      else []) l = []).
    { apply flat_map_nil. intros [a' h'] Hin.
      destruct (Z.eqb_spec a' v) as [E'|E']; [|reflexivity].
      exfalso. apply Hout. simpl. rewrite E, <- E'.
      change a' with (fst (a', h')). apply in_map, Hin. }
    rewrite Hnil, List.app_nil_r, length_map. apply filter_unique, Hh.
  - simpl. apply IH, Hl.
Qed.

Lemma hobby_names_single g v :
  NoDup (map id_hobby (hobbies g)) -> NoDup (map fst (tiene_hobby g)) ->
  (List.length (hobby_names g v) <= 1)%nat.
Proof.
  intros Hh Ht. pose proof (hobby_matches_unique g v Hh Ht) as H.
  unfold hobby_names. destruct (flat_map _ (tiene_hobby g)); [simpl; lia|exact H].
Qed.

Lemma ego_node_rows_single g v :
  wf_graph g -> NoDup (map fst (tiene_hobby g)) ->
  (List.length (ego_node_rows g v) <= 1)%nat.
Proof.
  intros (Hu & Hh & _) Ht. unfold ego_node_rows.
  pose proof (filter_unique id_usuario v (usuarios g) Hu) as Hf.
  pose proof (hobby_names_single g v Hh Ht) as Hn.
  destruct (filter (fun u => id_usuario u =? v) (usuarios g)) as [|u [|u' us]].
  - simpl. lia.
  - simpl. rewrite List.app_nil_r, length_map. exact Hn.
  - simpl in Hf. lia.
Qed.

Lemma single_eq {A} (l : list A) x y :
  (List.length l <= 1)%nat -> In x l -> In y l -> x = y.
Proof.
  destruct l as [|a [|b l]]; simpl; intros H Hx Hy.
  - destruct Hx.
  - destruct Hx as [<-|[]], Hy as [<-|[]]. reflexivity.
  - lia.
Qed.

(** The node loop keeps the order of the rows. *)
Lemma ego_node_loop_order rows : forall ns ids ns' ids',
  (forall row, In row rows -> exists v, en_id_usuario row = agtype_int v) ->
  ego_node_loop rows ns ids = Ok (ns', ids') ->
  exists vs, map en_id_usuario rows = map agtype_int vs /\
             map node_id ns' = map node_id ns ++ map str_of_int vs.
Proof.
  induction rows as [|row rows IH]; intros ns ids ns' ids' Hrows Hl.
  - simpl in Hl. injection Hl as <- <-. exists []. simpl. now rewrite List.app_nil_r.
  - cbn [ego_node_loop] in Hl.
    destruct (Hrows row (or_introl eq_refl)) as [v Hv].
    destruct (ego_node row) as [[i node]|e] eqn:En; [|discriminate].
    cbn [rbind] in Hl.
    destruct (ego_node_id row v i node Hv En) as [-> Hid].
    destruct (IH _ _ _ _ (fun r Hr => Hrows r (or_intror Hr)) Hl) as (vs & Hvs & Hns).
    exists (v :: vs). simpl. rewrite Hv, Hvs. split; [reflexivity|].
    rewrite Hns, map_app, <- List.app_assoc. simpl. now rewrite Hid.
Qed.

(** X11. When user ids and hobby ids are unique and no user has more than one
    TIENE_HOBBY edge, no user appears twice among the nodes returned. *)
Theorem ego_nodes_distinct (g : Graph) (c depth max_nodes : Z)
  (r : GraphResponseDTO) (log : list query) :
  wf_graph g -> NoDup (map fst (tiene_hobby g)) ->
  run (get_ego_graph c depth max_nodes) g = (Ok r, log) ->
  NoDup (map node_id (nodes (graph r))).
Proof.
  intros Hwf Ht Hrun.
  apply get_ego_graph_ok in Hrun as (Hc & log' & Hsub).
  apply get_ego_subgraph_ok in Hsub as (rows & ids & Hq & Hloop & _).
  destruct (ego_nodes_rows g c depth max_nodes rows Hq) as [Hrows _].
  destruct (ego_node_loop_order rows [] [] _ _
              (fun row Hr => let (v, H) := Hrows row Hr in ex_intro _ v (proj1 H)) Hloop)
    as (vs & Hvs & Hns).
  rewrite Hns. simpl.
  assert (Hnd : NoDup (map en_id_usuario rows)).
  { unfold ego_nodes_query, limit in Hq.
    destruct (Z.ltb_spec max_nodes 0); [discriminate|]. injection Hq as <-.
    apply RecommendationProperties.firstn_keys.
    apply NoDup_map_NoDup_ForallPairs; [|apply NoDup_nodup].
    intros r1 r2 H1 H2 E.
    apply nodup_In, in_flat_map in H1 as (v1 & _ & H1).
    apply nodup_In, in_flat_map in H2 as (v2 & _ & H2).
    destruct (in_ego_node_rows g v1 r1 H1) as [E1 _].
    destruct (in_ego_node_rows g v2 r2 H2) as [E2 _].
    rewrite E1, E2 in E. apply agtype_int_inj in E. subst v2.
    apply (single_eq (ego_node_rows g v1)); [|assumption|assumption].
    apply ego_node_rows_single; assumption. }
  rewrite Hvs in Hnd. apply NoDup_map_inv in Hnd.
  apply NoDup_map_NoDup_ForallPairs; [|exact Hnd].
  intros a b _ _. apply str_of_int_inj.
Qed.

Lemma wf_graph_fan : wf_graph fan.
Proof.
  split; [|split].
  - repeat constructor; simpl; intuition discriminate.
  - constructor.
  - intros a b H. simpl in H.
    repeat (destruct H as [H|H]; [injection H as <- <-; split; reflexivity|]).
    destruct H.
Qed.

Lemma ego_nodes_distinct_witness :
  exists r log,
    run (get_ego_graph 1 2 500) fan = (Ok r, log) /\
    NoDup (map node_id (nodes (graph r))).
Proof.
  eexists _, _. split; [vm_compute; reflexivity|].
  eapply (ego_nodes_distinct fan 1 2 500).
  - apply wf_graph_fan.
  - constructor.
  - vm_compute. reflexivity.
Defined.

(** At depth 1, on the graph with edges 1->2, 1->3, 2->5, 3->5. *)
Lemma ego_graph_depth_one_witness :
  exists r log,
    run (get_ego_graph 1 1 500) fan = (Ok r, log) /\
    (forall s, In s (map node_id (nodes (graph r))) ->
               exists w, s = str_of_int w /\ has_usuario fan w = true /\ adjacent fan 1 w) /\
    (~ In (1, 1) (conectado fan) -> ~ In (str_of_int 1) (map node_id (nodes (graph r)))) /\
    (size (nodes (graph r)) < 500 ->
     forall w, has_usuario fan w = true -> adjacent fan 1 w ->
               In (str_of_int w) (map node_id (nodes (graph r)))) /\
    (forall e, In e (edges (graph r)) ->
               In (edge_source e) (map node_id (nodes (graph r))) /\
               In (edge_target e) (map node_id (nodes (graph r)))).
Proof.
  eexists _, _. split; [vm_compute; reflexivity|].
  eapply (ego_graph_depth_one fan 1 500). vm_compute. reflexivity.
Defined.

End EgoProperties.

Module CommunityProperties.
Import Py Age Store Props PyFacts AgtypeFacts PathFacts QueryFacts CommunityFacts.
Import Examples Notions.
Import GraphRepository GraphService.

Lemma map_inj_on {A B} (f : A -> B) (l : list A) a b :
  NoDup (map f l) -> In a l -> In b l -> f a = f b -> a = b.
Proof.
  induction l as [|x l IH]; intros H Ha Hb E; [destruct Ha|].
  inversion H as [|? ? Hout Hl]; subst.
  destruct Ha as [<-|Ha], Hb as [<-|Hb].
  - reflexivity.
  - exfalso. apply Hout. rewrite E. apply in_map, Hb.
  - exfalso. apply Hout. rewrite <- E. apply in_map, Ha.
  - apply IH; assumption.
Qed.

Lemma hobby_groups_complete g key m1 m2 :
  holds_hobby g key m1 -> holds_hobby g key m2 -> m1 <> m2 ->
  exists ms, In (key, ms) (hobby_groups g) /\ In m1 ms /\ In m2 ms.
Proof.
  intros H1 H2 Hne.
  apply in_hobby_matches in H1, H2.
  destruct (collect_distinct_complete hobby_key_eq_dec _ key m1 H1) as [ms Hms].
  destruct (in_collect_distinct hobby_key_eq_dec _ key ms Hms) as (_ & Hnd & Hiff).
  assert (Hm1 : In m1 ms) by (apply Hiff, H1).
  assert (Hm2 : In m2 ms) by (apply Hiff, H2).
  exists ms. split; [|auto]. unfold hobby_groups.
  apply in_sort_by, filter_In. split; [exact Hms|]. cbn [snd]. apply Z.ltb_lt.
  assert (Hle : (List.length [m1; m2] <= List.length ms)%nat).
  { apply NoDup_incl_length.
    - constructor; [intros [E|[]]; auto|]. constructor; [intros []|constructor].
    - intros x [<-|[<-|[]]]; assumption. }
  unfold size. simpl in Hle. lia.
Qed.

(** X13. Every hobby shared by two distinct users is reported: if two distinct
    existing users hold a TIENE_HOBBY edge to the same hobby, a community with
    that hobby's id and both users among its members is returned. When hobby
    ids are unique, no two communities returned share an id. The total
    reported is the number of communities returned. *)
Theorem communities_complete (g : Graph) :
  exists r,
    run detect_communities g = (Ok r, [QCommunities]) /\
    total_communities r = size (communities r) /\
    (NoDup (map id_hobby (hobbies g)) ->
     NoDup (map dto_community_id (communities r))) /\
    (forall key m1 m2,
       holds_hobby g key m1 -> holds_hobby g key m2 -> m1 <> m2 ->
       exists c, In c (communities r) /\ dto_community_id c = fst key /\
                 In m1 (dto_members c) /\ In m2 (dto_members c)).
Proof.
  eexists. split; [apply detect_communities_run|].
  cbn [communities total_communities]. split; [|split].
  - unfold size. now rewrite length_map.
  - intros Hh.
    replace (map dto_community_id (map community_dto_of (hobby_groups g)))
      with (map fst (map fst (hobby_groups g)))
      by (rewrite !map_map; reflexivity).
    apply NoDup_map_NoDup_ForallPairs; [|apply hobby_groups_keys].
    intros k1 k2 Hk1 Hk2 E.
    assert (Hkey : forall k, In k (map fst (hobby_groups g)) ->
                     exists hb, In hb (hobbies g) /\ id_hobby hb = fst k /\
                                hobby_nombre hb = snd k).
    { intros k Hk. apply in_map_iff in Hk as ([k' ms] & <- & Hin).
      destruct (in_hobby_groups g k' ms Hin) as (Hsz & _ & Hiff).
      destruct ms as [|m ms]; [unfold size in Hsz; simpl in Hsz; lia|].
      destruct (proj1 (Hiff m) (or_introl eq_refl)) as (_ & _ & Hhb). exact Hhb. }
    destruct (Hkey k1 Hk1) as (hb1 & Hb1 & Hi1 & Hn1).
    destruct (Hkey k2 Hk2) as (hb2 & Hb2 & Hi2 & Hn2).
    assert (hb1 = hb2).
    { apply (map_inj_on id_hobby (hobbies g)); [assumption..|]. congruence. }
    subst hb2. destruct k1, k2. simpl in *. congruence.
  - intros key m1 m2 H1 H2 Hne.
    destruct (hobby_groups_complete g key m1 m2 H1 H2 Hne) as (ms & Hin & Hm1 & Hm2).
    exists (community_dto_of (key, ms)). split; [apply in_map, Hin|].
    cbn [community_dto_of dto_community_id dto_members fst snd]. auto.
Qed.

Lemma communities_complete_witness :
  exists r,
    run detect_communities club = (Ok r, [QCommunities]) /\
    total_communities r = size (communities r) /\
    NoDup (map dto_community_id (communities r)) /\
    (exists c, In c (communities r) /\ dto_community_id c = 7 /\
               In 2 (dto_members c) /\ In 3 (dto_members c)).
Proof.
  destruct (communities_complete club) as (r & E & Ht & Hnd & Hc).
  exists r. split; [exact E|]. split; [exact Ht|]. split.
  - apply Hnd. repeat constructor; simpl; intuition discriminate.
  - apply (Hc (7, "Futbol") 2 3).
    + split; [reflexivity|]. split; [simpl; auto|]. exists futbol. simpl. auto.
    + split; [reflexivity|]. split; [simpl; auto|]. exists futbol. simpl. auto.
    + discriminate.
Defined.

End CommunityProperties.

Module ConnectionProperties.
Import Py Age Store Props PyFacts AgtypeFacts PathFacts QueryFacts ConnectionFacts.
Import Examples Notions.
Import GraphRepository GraphService.

(** *** Order *)

Lemma insert_by_asc a l :
  StronglySorted Z.le l -> StronglySorted Z.le (insert_by Z.leb a l).
Proof.
  induction l as [|b l IH]; intros H; simpl.
  - repeat constructor.
  - apply StronglySorted_inv in H as [Hl Hb].
    destruct (Z.leb_spec a b) as [Hab|Hab].
    + constructor; [constructor; assumption|]. constructor; [exact Hab|].
      eapply Forall_impl; [|exact Hb]. intros x Hx. simpl in Hx. lia.
    + constructor; [apply IH, Hl|].
      apply Forall_forall. intros x Hx. apply in_insert_by in Hx as [->|Hx]; [lia|].
      rewrite Forall_forall in Hb. apply Hb, Hx.
Qed.

Lemma sort_by_asc l : StronglySorted Z.le (sort_by Z.leb l).
Proof.
  induction l as [|a l IH]; simpl; [constructor|apply insert_by_asc, IH].
Qed.

Lemma sorted_strict l : StronglySorted Z.le l -> NoDup l -> StronglySorted Z.lt l.
Proof.
  induction l as [|a l IH]; intros Hs Hn; [constructor|].
  apply StronglySorted_inv in Hs as [Hl Ha]. inversion Hn as [|? ? Hout Hnl]; subst.
  constructor; [apply IH; assumption|].
  apply Forall_forall. intros x Hx. rewrite Forall_forall in Ha.
  pose proof (Ha x Hx). assert (a <> x) by (intros ->; contradiction). lia.
Qed.

Lemma sorted_filter_map {A} (f : A -> Z) (p : A -> bool) l :
  StronglySorted Z.lt (map f l) -> StronglySorted Z.lt (map f (filter p l)).
Proof.
  induction l as [|a l IH]; intros H; [constructor|].
  simpl in H. apply StronglySorted_inv in H as [Hl Ha]. simpl.
  destruct (p a); [|apply IH, Hl]. simpl. constructor; [apply IH, Hl|].
  apply Forall_forall. intros x Hx. apply in_map_iff in Hx as (y & <- & Hy).
  apply filter_In in Hy as [Hy _]. rewrite Forall_forall in Ha. apply Ha, in_map, Hy.
Qed.

(** The ids of the users, in the order of the statement. *)
Lemma connection_groups_ids g :
  map fst (connection_groups g)
  = sort_by Z.leb (nodup Z.eq_dec (map id_usuario (usuarios g))).
Proof. unfold connection_groups. rewrite map_map. simpl. apply map_id. Qed.

Lemma connection_groups_sorted g : StronglySorted Z.lt (map fst (connection_groups g)).
Proof.
  rewrite connection_groups_ids. apply sorted_strict; [apply sort_by_asc|].
  rewrite <- (map_id (sort_by _ _)). apply CommunityFacts.sort_by_keys.
  rewrite map_id. apply NoDup_nodup.
Qed.

Lemma entries_ids grps :
  map uc_id_usuario (map dto_of (entries grps))
  = map fst (filter (fun grp => match others grp with [] => false | _ => true end) grps).
Proof. unfold entries. rewrite !map_map. reflexivity. Qed.

(** X14. Every user connected to another existing user has an entry that lists
    it, and the entries come in strictly increasing order of user id, so no
    user has two entries. *)
Theorem all_connections_complete (g : Graph) :
  exists r,
    run GraphService.get_all_connections g = (Ok r, [QAllConnections]) /\
    StronglySorted Z.lt (map uc_id_usuario (ac_conexiones r)) /\
    (forall u c,
       has_usuario g u = true -> has_usuario g c = true ->
       In (u, c) (conectado g) -> u <> c ->
       exists e, In e (ac_conexiones r) /\ uc_id_usuario e = u /\
                 In c (uc_conexiones e)).
Proof.
  eexists. split; [apply get_all_connections_run|]. cbn [ac_conexiones]. split.
  - rewrite entries_ids. apply sorted_filter_map, connection_groups_sorted.
  - intros u c Hu Hc Huc Hne.
    set (cs := nodup Z.eq_dec (filter (has_usuario g) (out_neighbors g u))).
    assert (Hin : In (u, cs) (connection_groups g)).
    { unfold connection_groups. apply in_map_iff. exists u. split; [reflexivity|].
      apply in_sort_by, nodup_In. unfold has_usuario in Hu.
      apply existsb_exists in Hu as (usr & Husr & Hid). apply Z.eqb_eq in Hid.
      rewrite <- Hid. apply in_map, Husr. }
    assert (Hcs : In c (others (u, cs))).
    { unfold others. apply filter_In. cbn [fst snd]. split.
      - unfold cs. apply nodup_In, filter_In. split; [|exact Hc].
        apply in_out_neighbors, Huc.
      - apply negb_true_iff, Z.eqb_neq, not_eq_sym, Hne. }
    exists (dto_of (u, others (u, cs))). split; [|split; [reflexivity|exact Hcs]].
    apply in_map. unfold entries. apply in_map_iff. exists (u, cs).
    split; [reflexivity|]. apply filter_In. split; [exact Hin|].
    destruct (others (u, cs)); [destruct Hcs|reflexivity].
Qed.

Lemma all_connections_complete_witness :
  exists r,
    run GraphService.get_all_connections club = (Ok r, [QAllConnections]) /\
    StronglySorted Z.lt (map uc_id_usuario (ac_conexiones r)) /\
    (exists e, In e (ac_conexiones r) /\ uc_id_usuario e = 2 /\ In 3 (uc_conexiones e)).
Proof.
  destruct (all_connections_complete club) as (r & E & Hs & Hc).
  exists r. split; [exact E|]. split; [exact Hs|].
  apply (Hc 2 3); [reflexivity|reflexivity|simpl; auto 10|discriminate].
Defined.

(** *** Counting the edges *)

Lemma sum_over_add {A} (f h : A -> Z) l :
  sum_over (fun x => f x + h x) l = sum_over f l + sum_over h l.
Proof. induction l as [|a l IH]; simpl; [reflexivity|]. unfold sum_over in *. simpl. lia. Qed.

Lemma sum_over_ext {A} (f h : A -> Z) l :
  (forall x, In x l -> f x = h x) -> sum_over f l = sum_over h l.
Proof.
  induction l as [|a l IH]; intros H; [reflexivity|]. unfold sum_over in *. simpl.
  rewrite (H a (or_introl eq_refl)), IH; [reflexivity|]. intros x Hx. apply H. now right.
Qed.

Lemma sum_over_indicator (x : Z) (l : list Z) :
  NoDup l -> In x l -> sum_over (fun id => if x =? id then 1 else 0) l = 1.
Proof.
  induction l as [|a l IH]; intros Hn Hin; [destruct Hin|].
  inversion Hn as [|? ? Hout Hl]; subst. unfold sum_over in *. simpl.
  destruct Hin as [<-|Hin].
  - rewrite Z.eqb_refl.
    assert (E : fold_right (fun id acc => (if a =? id then 1 else 0) + acc) 0 l = 0).
    { clear IH Hl Hn. induction l as [|b l IHl]; [reflexivity|]. simpl.
      destruct (Z.eqb_spec a b) as [->|_]; [exfalso; apply Hout; now left|].
      rewrite IHl; [reflexivity|]. intros H. apply Hout. now right. }
    rewrite E. reflexivity.
  - destruct (Z.eqb_spec x a) as [->|_]; [contradiction|]. rewrite (IH Hl Hin). reflexivity.
Qed.

(** Each edge is counted once, under the user it starts from. *)
Lemma count_by_source (E : list (Z * Z)) (S : list Z) :
  NoDup S -> (forall e, In e E -> In (fst e) S) ->
  sum_over (fun id => size (filter (fun e => fst e =? id) E)) S = size E.
Proof.
  intros Hn. induction E as [|e E IH]; intros Hin.
  - clear Hn Hin. induction S as [|a S IHS]; [reflexivity|].
    unfold sum_over in *. cbn [fold_right]. rewrite IHS. reflexivity.
  - rewrite (sum_over_ext _ (fun id => (if fst e =? id then 1 else 0)
                                       + size (filter (fun e => fst e =? id) E))).
    + rewrite sum_over_add, IH by (intros x Hx; apply Hin; now right).
      rewrite sum_over_indicator; [|exact Hn|apply Hin; now left].
      unfold size. cbn [List.length]. lia.
    + intros id _. cbn [filter]. destruct (fst e =? id); unfold size; cbn [List.length]; lia.
Qed.

Lemma filter_all {A} (p : A -> bool) l :
  (forall x, In x l -> p x = true) -> filter p l = l.
Proof.
  induction l as [|a l IH]; intros H; [reflexivity|]. simpl.
  rewrite (H a (or_introl eq_refl)), IH; [reflexivity|]. intros x Hx. apply H. now right.
Qed.

Lemma out_neighbors_nodup g id : NoDup (conectado g) -> NoDup (out_neighbors g id).
Proof.
  intros Hn. unfold out_neighbors.
  apply NoDup_map_NoDup_ForallPairs; [|apply NoDup_filter, Hn].
  intros [a b] [a' b'] Ha Hb E. apply filter_In in Ha as [_ Ha], Hb as [_ Hb].
  simpl in *. apply Z.eqb_eq in Ha, Hb. congruence.
Qed.

(** On a simple graph the list of a user is the list of its out-neighbours. *)
Lemma others_simple g id :
  simple_graph g ->
  others (id, nodup Z.eq_dec (filter (has_usuario g) (out_neighbors g id)))
  = out_neighbors g id.
Proof.
  intros ((_ & _ & Hex) & Hnd & Hloop). unfold others. cbn [fst snd].
  rewrite (filter_all (has_usuario g)).
  - rewrite nodup_fixed_point by (apply out_neighbors_nodup, Hnd).
    apply filter_all. intros c Hc. apply in_out_neighbors in Hc.
    apply negb_true_iff, Z.eqb_neq. intros ->. apply (Hloop id Hc).
  - intros c Hc. apply in_out_neighbors in Hc. apply (Hex id c Hc).
Qed.

Lemma sum_entries grps :
  sum_neighbors (map dto_of (entries grps)) = sum_over (fun grp => size (others grp)) grps.
Proof.
  unfold entries, sum_neighbors, sum_over.
  induction grps as [|grp grps IH]; [reflexivity|]. simpl.
  destruct (others grp) as [|c cs] eqn:Eo; simpl.
  - rewrite IH. unfold size. simpl. lia.
  - rewrite IH, Eo. reflexivity.
Qed.

(** X15. On a simple graph (unique user ids, every CONECTADO edge between two
    existing users, no edge twice, no loop) the list of each entry is the list
    of the out-neighbours of its user, and [total_conexiones] is the number of
    CONECTADO edges of the graph. *)
Theorem all_connections_counts_edges (g : Graph) :
  simple_graph g ->
  exists r,
    run GraphService.get_all_connections g = (Ok r, [QAllConnections]) /\
    (forall e, In e (ac_conexiones r) ->
               uc_conexiones e = out_neighbors g (uc_id_usuario e)) /\
    total_conexiones (ac_stats r) = size (conectado g).
Proof.
  intros Hs. eexists. split; [apply get_all_connections_run|].
  cbn [ac_conexiones ac_stats total_conexiones]. split.
  - intros e He. apply in_map_iff in He as ([id cs'] & <- & Hin).
    unfold entries in Hin. apply in_map_iff in Hin as ([id' cs] & [= <- <-] & Hin).
    apply filter_In in Hin as [Hin _]. unfold connection_groups in Hin.
    apply in_map_iff in Hin as (i & [= <- <-] & _).
    cbn [dto_of uc_id_usuario uc_conexiones fst]. apply others_simple, Hs.
  - rewrite sum_entries. unfold connection_groups.
    set (S := sort_by Z.leb (nodup Z.eq_dec (map id_usuario (usuarios g)))).
    assert (Hsum : forall l,
              sum_over (fun grp => size (others grp))
                (map (fun id => (id, nodup Z.eq_dec
                                       (filter (has_usuario g) (out_neighbors g id)))) l)
              = sum_over (fun id => size (filter (fun e => fst e =? id) (conectado g))) l).
    { induction l as [|id l IH]; [reflexivity|]. unfold sum_over in *. simpl.
      rewrite IH, (others_simple g id Hs). unfold out_neighbors, size.
      now rewrite length_map. }
    rewrite Hsum. apply count_by_source.
    + unfold S. rewrite <- (map_id (sort_by _ _)). apply CommunityFacts.sort_by_keys.
      rewrite map_id. apply NoDup_nodup.
    + intros [a b] He. destruct Hs as ((_ & _ & Hex) & _ & _).
      destruct (Hex a b He) as [Ha _]. unfold S. apply in_sort_by, nodup_In.
      unfold has_usuario in Ha. apply existsb_exists in Ha as (usr & Husr & Hid).
      apply Z.eqb_eq in Hid. simpl. rewrite <- Hid. apply in_map, Husr.
Qed.

Lemma simple_graph_fan : simple_graph fan.
Proof.
  split; [apply EgoProperties.wf_graph_fan|]. split.
  - repeat constructor; simpl; intuition discriminate.
  - intros a H. simpl in H.
    repeat (destruct H as [H|H];
            [injection H as H1 H2; rewrite <- H1 in H2; discriminate H2|]).
    destruct H.
Qed.

Lemma all_connections_counts_edges_witness :
  exists r,
    run GraphService.get_all_connections fan = (Ok r, [QAllConnections]) /\
    (forall e, In e (ac_conexiones r) ->
               uc_conexiones e = out_neighbors fan (uc_id_usuario e)) /\
    total_conexiones (ac_stats r) = size (conectado fan).
Proof. apply (all_connections_counts_edges fan), simple_graph_fan. Defined.

End ConnectionProperties.

Module DecoderProperties.
Import Py Json Age Store Props PyFacts JsonFacts AgtypeFacts.
Import Examples Notions.
Import GraphRepository.

(** *** Stripping *)

Lemma lstrip_by_app_all p pre s :
  all_chars p pre = true -> lstrip_by p (pre ++ s)%string = lstrip_by p s.
Proof.
  induction pre as [|c pre IH]; [reflexivity|]. cbn [all_chars]. intros H.
  apply andb_prop in H as [Hc Hp]. simpl. rewrite Hc. apply IH, Hp.
Qed.

Lemma rstrip_by_all p s : all_chars p s = true -> rstrip_by p s = EmptyString.
Proof.
  induction s as [|c s IH]; [reflexivity|]. cbn [all_chars]. intros H.
  apply andb_prop in H as [Hc Hs]. simpl. rewrite (IH Hs), Hc. reflexivity.
Qed.

Lemma rstrip_by_app_all p s post :
  all_chars p post = true -> rstrip_by p (s ++ post)%string = rstrip_by p s.
Proof.
  intros H. induction s as [|c s IH]; simpl.
  - apply rstrip_by_all, H.
  - rewrite IH. reflexivity.
Qed.

Lemma rstrip_by_cons_keep p c s :
  p c = false -> rstrip_by p (String c s) = String c (rstrip_by p s).
Proof. intros H. simpl. destruct (rstrip_by p s); [rewrite H|]; reflexivity. Qed.

Lemma rstrip_by_app_keep p a b :
  rstrip_by p b <> EmptyString ->
  rstrip_by p (a ++ b)%string = (a ++ rstrip_by p b)%string.
Proof.
  intros H. induction a as [|c a IH]; [reflexivity|]. simpl. rewrite IH.
  destruct (a ++ rstrip_by p b)%string eqn:E; [|reflexivity].
  destruct a; simpl in E; [contradiction|discriminate E].
Qed.

(** *** The type tag *)

Lemma prefix_colons_cons c s :
  not_colon c = true -> String.prefix "::" (String c s) = false.
Proof.
  intros H. unfold not_colon in H. apply negb_true_iff, Ascii.eqb_neq in H.
  change (String.prefix "::" (String c s))
    with (if ascii_dec ":" c then String.prefix ":" s else false).
  destruct (ascii_dec ":" c) as [E|_]; [congruence|reflexivity].
Qed.

Lemma prefix_colons t : String.prefix "::" ("::" ++ t)%string = true.
Proof.
  cbn [append String.prefix].
  destruct (ascii_dec ":" ":") as [_|N]; [destruct t; reflexivity|now elim N].
Qed.

Lemma split_head_tag b t :
  all_chars not_colon b = true -> split_head "::" (b ++ "::" ++ t)%string = b.
Proof.
  induction b as [|c b IH].
  { intros _.
    change (split_head "::" ("" ++ "::" ++ t)%string)
      with (if String.prefix "::" ("::" ++ t)%string then EmptyString
            else String ":" (split_head "::" (String ":" t))).
    now rewrite prefix_colons. }
  cbn [all_chars]. intros H.
  apply andb_prop in H as [Hc Hb].
  change (split_head "::" (String c b ++ "::" ++ t)%string)
    with (if String.prefix "::" (String c (b ++ "::" ++ t))
          then EmptyString else String c (split_head "::" (b ++ "::" ++ t)%string)).
  rewrite (prefix_colons_cons c _ Hc), (IH Hb). reflexivity.
Qed.

Lemma contains_tag b t :
  all_chars not_colon b = true -> contains "::" (b ++ "::" ++ t)%string = true.
Proof.
  induction b as [|c b IH].
  { intros _.
    change (contains "::" ("" ++ "::" ++ t)%string)
      with (if String.prefix "::" ("::" ++ t)%string then true
            else contains "::" (String ":" t)).
    now rewrite prefix_colons. }
  cbn [all_chars]. intros H.
  apply andb_prop in H as [Hc Hb].
  change (contains "::" (String c b ++ "::" ++ t)%string)
    with (if String.prefix "::" (String c (b ++ "::" ++ t))
          then true else contains "::" (b ++ "::" ++ t)%string).
  rewrite (prefix_colons_cons c _ Hc). apply IH, Hb.
Qed.

Lemma isspace_not_colon c : isspace c = true -> not_colon c = true.
Proof. destruct c as [[] [] [] [] [] [] [] []]; intros H; try reflexivity; discriminate H. Qed.

(** *** The text of a list *)

Lemma array_text_shape l :
  exists s, str_of_field (agtype_int_list l) = String "[" (s ++ "]") /\
            all_chars not_colon (str_of_field (agtype_int_list l)) = true.
Proof.
  destruct l as [|x l]; [exists EmptyString; split; reflexivity|].
  unfold agtype_int_list, str_of_field.
  change ("[" ++ join ", " (map str_of_int (x :: l)) ++ "]")%string
    with (String "[" (join ", " (map str_of_int (x :: l)) ++ "]")%string).
  rewrite join_items. destruct (items_text_last x l "]") as [s E].
  exists s. split; [now rewrite E|].
  cbn [all_chars]. rewrite items_text_no_colon; reflexivity.
Qed.

Lemma strip_array_text l pre post :
  all_chars isspace pre = true -> all_chars isspace post = true ->
  strip (pre ++ str_of_field (agtype_int_list l) ++ post)
  = str_of_field (agtype_int_list l).
Proof.
  intros Hpre Hpost. destruct (array_text_shape l) as (s & E & _). rewrite E.
  unfold strip. rewrite (lstrip_by_app_all _ _ _ Hpre).
  change (String "[" (s ++ "]") ++ post)%string with (String "[" ((s ++ "]") ++ post)%string).
  rewrite lstrip_by_keep by reflexivity.
  change (String "[" ((s ++ "]") ++ post)%string)
    with ((String "[" s ++ "]") ++ post)%string.
  rewrite (rstrip_by_app_all _ _ _ Hpost).
  now apply rstrip_by_last.
Qed.

(** The decoder only looks at the stripped text. *)
Lemma parse_array_strip a b :
  strip a = strip b -> _parse_agtype_array (PyStr a) = _parse_agtype_array (PyStr b).
Proof. intros E. unfold _parse_agtype_array. rewrite E. reflexivity. Qed.

(** X16. The array decoder is insensitive to blanks and to an AGE type tag:
    the text of a list of integers, with blanks before and after it, or
    followed by blanks, [::] and any tag, and handed over as [str] or as
    [bytes], decodes to the list. *)
Theorem parse_array_tolerant (l : list Z) (pre mid post tag : string) :
  all_chars isspace pre = true ->
  all_chars isspace mid = true ->
  all_chars isspace post = true ->
  _parse_agtype_array (PyStr (pre ++ str_of_field (agtype_int_list l) ++ post)) = Ok l /\
  _parse_agtype_array
    (PyStr (pre ++ str_of_field (agtype_int_list l) ++ mid ++ "::" ++ tag)) = Ok l /\
  _parse_agtype_array
    (PyBytes (pre ++ str_of_field (agtype_int_list l) ++ mid ++ "::" ++ tag)) = Ok l.
Proof.
  intros Hpre Hmid Hpost.
  assert (Htag : _parse_agtype_array
                   (PyStr (pre ++ str_of_field (agtype_int_list l) ++ mid ++ "::" ++ tag))
                 = Ok l).
  { destruct (array_text_shape l) as (s & E & Hnc).
    pose proof (strip_array_text l EmptyString mid eq_refl Hmid) as Hst.
    pose proof (loads_int_list l) as Hl.
    cbn [append] in Hst.
    set (T := str_of_field (agtype_int_list l)) in *. clearbody T.
    assert (Hc : strip (pre ++ T ++ mid ++ "::" ++ tag)
                 = ((T ++ mid) ++ "::" ++ rstrip_by isspace tag)%string).
    { unfold strip. rewrite (lstrip_by_app_all _ _ _ Hpre), E.
      change (String "[" (s ++ "]") ++ mid ++ "::" ++ tag)%string
        with (String "[" ((s ++ "]") ++ mid ++ "::" ++ tag)%string).
      rewrite lstrip_by_keep by reflexivity.
      change (String "[" ((s ++ "]") ++ mid ++ "::" ++ tag)%string)
        with (String "[" (s ++ "]") ++ (mid ++ "::" ++ tag))%string.
      rewrite sapp_assoc.
      replace (String "[" (s ++ "]") ++ mid ++ "::" ++ tag)%string
        with ((String "[" (s ++ "]") ++ mid) ++ "::" ++ tag)%string
        by (now rewrite sapp_assoc).
      rewrite rstrip_by_app_keep.
      - change ("::" ++ tag)%string with (String ":" (String ":" tag)).
        rewrite !rstrip_by_cons_keep by reflexivity. now rewrite sapp_assoc.
      - change ("::" ++ tag)%string with (String ":" (String ":" tag)).
        rewrite rstrip_by_cons_keep by reflexivity. discriminate. }
    assert (Hb : all_chars not_colon (T ++ mid) = true).
    { rewrite all_chars_app, Hnc. simpl.
      apply (all_chars_weaken isspace); [apply isspace_not_colon|exact Hmid]. }
    unfold _parse_agtype_array. rewrite Hc.
    rewrite (contains_tag _ _ Hb), (split_head_tag _ _ Hb), Hst, Hl.
    assert (Hne : (truthy ((T ++ mid) ++ "::" ++ rstrip_by isspace tag) = true)
                  /\ String.eqb ((T ++ mid) ++ "::" ++ rstrip_by isspace tag) "[]" = false).
    { rewrite E. split; [reflexivity|]. apply String.eqb_neq. intros H.
      apply (f_equal String.length) in H. rewrite !slength_app in H. simpl in H.
      rewrite slength_app in H. simpl in H. lia. }
    destruct Hne as [-> ->]. cbn [negb orb]. apply ints_of_ints. }
  split; [|split; [exact Htag|exact Htag]].
  rewrite (parse_array_strip _ (str_of_field (agtype_int_list l))).
  - apply parse_array_int_list.
  - rewrite (strip_array_text l pre post Hpre Hpost).
    pose proof (strip_array_text l EmptyString EmptyString eq_refl eq_refl) as H.
    cbn [append] in H. rewrite sapp_nil_r in H. now rewrite H.
Qed.

Lemma parse_array_tolerant_witness :
  _parse_agtype_array (PyStr "  [3, -1, 20] ") = Ok [3; -1; 20] /\
  _parse_agtype_array (PyStr "  [3, -1, 20] ::agtype") = Ok [3; -1; 20] /\
  _parse_agtype_array (PyBytes "  [3, -1, 20] ::agtype") = Ok [3; -1; 20].
Proof.
  apply (parse_array_tolerant [3; -1; 20] "  " " " " " "agtype"); reflexivity.
Defined.

(** *** Strings *)

(** The escaped form of one character. *)
Lemma escape_cons c s : escape (String c s) = (escape (String c EmptyString) ++ escape s)%string.
Proof.
  cbn [escape].
  destruct (Ascii.eqb c dquote); [reflexivity|].
  destruct (Ascii.eqb c "\"); [reflexivity|].
  repeat match goal with
         | |- context [if ?b then _ else _] => destruct b; [reflexivity|]
         end.
  reflexivity.
Qed.

(** Reading back one escaped character. *)
Lemma scan_string_char c f rest :
  scan_string (S f) (escape (String c EmptyString) ++ rest)
  = option_map (fun '(t, q) => (String c t, q)) (scan_string f rest).
Proof.
  destruct c as [[] [] [] [] [] [] [] []]; reflexivity.
Qed.

Lemma scan_string_escape s : forall f rest,
  (String.length s < f)%nat ->
  scan_string f (escape s ++ String dquote rest) = Some (s, rest).
Proof.
  induction s as [|c s IH]; intros f rest Hf.
  - destruct f as [|f]; [simpl in Hf; lia|]. reflexivity.
  - destruct f as [|f]; [simpl in Hf; lia|].
    rewrite escape_cons, sapp_assoc, scan_string_char, IH; [reflexivity|].
    simpl in Hf. lia.
Qed.

Lemma escape_length s : (String.length s <= String.length (escape s))%nat.
Proof.
  induction s as [|c s IH]; [simpl; lia|].
  rewrite escape_cons, slength_app.
  assert (1 <= String.length (escape (String c EmptyString)))%nat
    by (destruct c as [[] [] [] [] [] [] [] []]; simpl; lia).
  change (String.length (String c s)) with (S (String.length s)). lia.
Qed.

Lemma loads_string s : loads (str_of_field (agtype_string s)) = Some (PyStr s).
Proof.
  unfold agtype_string, str_of_field, loads.
  change (skip_ws (String dquote (escape s ++ String dquote EmptyString)))
    with (String dquote (escape s ++ String dquote EmptyString)).
  match goal with
  | |- context [scan_value ?n _] => replace n with (S (n - 1)) by (simpl; lia)
  end.
  cbn [scan_value]. rewrite Ascii.eqb_refl.
  rewrite scan_string_escape; [reflexivity|].
  rewrite slength_app. pose proof (escape_length s). simpl. lia.
Qed.

(** X17. [_parse_agtype] gives back the value whose agtype text it is handed:
    an integer, a string with any characters (the escapes are undone), a list
    of integers; SQL NULL becomes [None]. *)
Theorem parse_agtype_round_trip :
  (forall z, _parse_agtype (agtype_int z) = PyInt z) /\
  (forall s, _parse_agtype (agtype_string s) = PyStr s) /\
  (forall l, _parse_agtype (agtype_int_list l) = PyList (map PyInt l)) /\
  _parse_agtype None = PyNone.
Proof.
  split; [|split; [|split]].
  - intros z. unfold _parse_agtype, agtype_int, str_of_field. now rewrite loads_int.
  - intros s. unfold _parse_agtype.
    change (str_of_field (agtype_string s)) with (str_of_field (agtype_string s)).
    unfold agtype_string at 1. now rewrite loads_string.
  - intros l. unfold _parse_agtype.
    unfold agtype_int_list at 1. now rewrite loads_int_list.
  - reflexivity.
Qed.

End DecoderProperties.

Module ValidatorProperties.
Import Py Age Props PyFacts AgtypeFacts DecoderProperties.
Import PyText Notions.

(** *** [split] *)










(** *** Blank strings *)






(** *** The result *)














End ValidatorProperties.

Module SessionFacts.
Import Py Age Store Props PyFacts AgtypeFacts PathFacts.
Import Tx Notions.

Lemma hd_error_filter {A} (p : A -> bool) l : hd_error (filter p l) = find p l.
Proof.
  induction l as [|a l IH]; [reflexivity|]. simpl. destruct (p a); [reflexivity|exact IH].
Qed.

Lemma find_usuario_with_id g id : hd_error (with_id g id) = find_usuario g id.
Proof. apply hd_error_filter. Qed.

Lemma with_id_nil g id : has_usuario g id = false -> with_id g id = [].
Proof.
  intros H. apply has_usuario_none in H. unfold find_usuario in H.
  rewrite <- hd_error_filter in H. unfold with_id.
  destruct (filter _ (usuarios g)); [reflexivity|discriminate H].
Qed.

Lemma with_id_cons g id :
  has_usuario g id = true -> exists u us, with_id g id = u :: us.
Proof.
  intros H. apply has_usuario_find in H as [u H]. unfold find_usuario in H.
  rewrite <- hd_error_filter in H. unfold with_id.
  destruct (filter _ (usuarios g)) as [|v vs]; [discriminate H|eauto].
Qed.

(** With unique ids a lookup matches one vertex. *)
Lemma with_id_single g id :
  NoDup (map id_usuario (usuarios g)) -> has_usuario g id = true ->
  exists u, with_id g id = [u] /\ find_usuario g id = Some u.
Proof.
  intros Hn H. destruct (with_id_cons g id H) as (u & us & E).
  pose proof (EgoProperties.filter_unique id_usuario id (usuarios g) Hn) as Hl.
  pose proof (find_usuario_with_id g id) as Hf.
  unfold with_id in *. rewrite E in *. destruct us; [|simpl in Hl; lia].
  exists u. auto.
Qed.

(** *** The repository methods on a session at rest *)

Lemma find_by_id_at_rest g l id :
  UsuarioRepositoryTx.find_by_id id (at_rest g l)
  = (Return (find_usuario g id), at_rest g (l ++ [Select (QUsuarioById id)])).
Proof.
  unfold UsuarioRepositoryTx.find_by_id, with_cursor, read, at_rest. cbn [working].
  rewrite find_by_id_eq. reflexivity.
Qed.

Lemma nombre_completo_at_rest g l id :
  UsuarioRepositoryTx.get_usuario_nombre_completo id (at_rest g l)
  = (Return (full_name g id), at_rest g (l ++ [SNombreCompleto id])).
Proof.
  unfold UsuarioRepositoryTx.get_usuario_nombre_completo, with_cursor, bind, execute,
    nombre_stmt, at_rest, full_name. cbn [working committed sent].
  rewrite <- find_usuario_with_id.
  destruct (with_id g id) as [|u us]; reflexivity.
Qed.

Lemma conexion_rows_connected g o d :
  match hd_error (conexion_rows g o d) with Some _ => true | None => false end
  = connected g o d.
Proof.
  unfold conexion_rows, connected.
  destruct (has_usuario g o) eqn:Ho.
  - destruct (with_id_cons g o Ho) as (u & us & E). rewrite E.
    destruct (has_usuario g d) eqn:Hd.
    + cbn [andb]. induction (conectado g) as [|e es IH]; [reflexivity|].
      cbn [flat_map existsb]. rewrite andb_true_r.
      destruct ((fst e =? o) && (snd e =? d)); [reflexivity|exact IH].
    + cbn [andb]. induction (conectado g) as [|e es IH]; [reflexivity|].
      cbn [flat_map]. rewrite andb_false_r. exact IH.
  - rewrite (with_id_nil g o Ho). cbn [andb].
    induction (conectado g) as [|e es IH]; [reflexivity|].
    cbn [flat_map]. destruct ((fst e =? o) && (snd e =? d) && has_usuario g d); exact IH.
Qed.

Lemma conexion_exists_at_rest g l o d :
  UsuarioRepositoryTx.conexion_exists o d (at_rest g l)
  = (Return (connected g o d), at_rest g (l ++ [SConexionExists o d])).
Proof.
  unfold UsuarioRepositoryTx.conexion_exists, with_cursor, bind, execute,
    conexion_exists_stmt, ret, at_rest. cbn [working committed sent].
  rewrite conexion_rows_connected. reflexivity.
Qed.

Lemma create_conexion_at_rest g l o d :
  UsuarioRepositoryTx.create_conexion o d (at_rest g l)
  = if has_usuario g o && has_usuario g d then
      (Return true,
       at_rest (add_edges g (map (fun _ => (o, d)) (list_prod (with_id g o) (with_id g d))))
               (l ++ [SCreateConexion o d]))
    else
      (Throw (Exception "Error al crear conexión"), at_rest g (l ++ [SCreateConexion o d])).
Proof.
  unfold UsuarioRepositoryTx.create_conexion, with_cursor, bind, execute,
    create_conexion_stmt, ret, raise, at_rest, add_edges. cbn [working committed sent].
  destruct (has_usuario g o) eqn:Ho.
  - destruct (with_id_cons g o Ho) as (u & us & E). rewrite E.
    destruct (has_usuario g d) eqn:Hd.
    + destruct (with_id_cons g d Hd) as (v & vs & E'). rewrite E'. reflexivity.
    + rewrite (with_id_nil g d Hd). cbn [andb].
      replace (list_prod (u :: us) []) with (@nil (Usuario * Usuario)); [reflexivity|].
      clear. induction (u :: us) as [|a l IH]; [reflexivity|]. simpl. exact IH.
  - rewrite (with_id_nil g o Ho). reflexivity.
Qed.

Lemma delete_conexion_at_rest g l o d :
  UsuarioRepositoryTx.delete_conexion o d (at_rest g l)
  = if connected g o d then
      (Return true,
       at_rest (remove_edges g o d) (l ++ [SConexionExists o d; SDeleteConexion o d]))
    else (Return false, at_rest g (l ++ [SConexionExists o d])).
Proof.
  unfold UsuarioRepositoryTx.delete_conexion, with_cursor. unfold bind at 1.
  rewrite conexion_exists_at_rest.
  destruct (connected g o d) eqn:Ec; cbn [negb]; [|reflexivity].
  unfold bind, execute, delete_conexion_stmt, at_rest. cbn [working committed sent].
  pose proof (conexion_rows_connected g o d) as Hr. rewrite Ec in Hr.
  destruct (hd_error (conexion_rows g o d)); [|discriminate Hr].
  unfold ret, remove_edges. cbn [working committed sent].
  unfold connected in Ec. apply andb_prop in Ec as [Ec _]. apply andb_prop in Ec as [Ho Hd].
  rewrite Ho, Hd, <- List.app_assoc.
  replace (filter (fun e => negb ((fst e =? o) && (snd e =? d) && true && true)) (conectado g))
    with (filter (fun e => negb ((fst e =? o) && (snd e =? d))) (conectado g)); [reflexivity|].
  apply filter_ext. intros e. now rewrite !andb_true_r.
Qed.

Lemma delete_at_rest g l id :
  UsuarioRepositoryTx.delete id (at_rest g l)
  = if has_usuario g id then
      (Return true,
       at_rest (remove_usuario g id) (l ++ [Select (QUsuarioById id); SDetachDelete id]))
    else (Return false, at_rest g (l ++ [Select (QUsuarioById id)])).
Proof.
  unfold UsuarioRepositoryTx.delete, with_cursor. unfold bind at 1.
  rewrite find_by_id_at_rest.
  destruct (has_usuario g id) eqn:H.
  - apply has_usuario_find in H as [u Hu]. rewrite Hu.
    unfold bind, execute, detach_delete_stmt, ret, at_rest, remove_usuario.
    cbn [working committed sent].
    assert (H : has_usuario g id = true) by (apply has_usuario_find; eauto).
    rewrite H, <- List.app_assoc. reflexivity.
  - apply has_usuario_none in H. rewrite H. reflexivity.
Qed.

End SessionFacts.

Module RequestProperties.
Import Py Age Store Props PyFacts AgtypeFacts Chains PathFacts.
Import Tx Notions SessionFacts Examples.
Import UsuarioService.

Lemma full_name_some g id :
  has_usuario g id = true -> exists n, full_name g id = Some n.
Proof.
  intros H. apply has_usuario_find in H as [u Hu]. unfold full_name. rewrite Hu.
  simpl. eauto.
Qed.

Section Requests.
Variable vt : string -> string.

(** The request to create a connection, case by case. *)
Lemma create_conexion_run g o d :
  run (create_conexion vt (dto o d)) g
  = if o =? d then
      (Throw (http 400 "No se puede crear una conexión del usuario consigo mismo"), g, [])
    else if negb (has_usuario g o) then
      (Throw (http 404 ("Usuario origen con ID " ++ str_of_int o ++ " no encontrado")%string),
       g, [Select (QUsuarioById o)])
    else if negb (has_usuario g d) then
      (Throw (http 404 ("Usuario destino con ID " ++ str_of_int d ++ " no encontrado")%string),
       g, [Select (QUsuarioById o); Select (QUsuarioById d)])
    else if connected g o d then
      (Throw (http 409 ("La conexión entre " ++ fmt (full_name g o) ++ " y " ++
                        fmt (full_name g d) ++ " ya existe")%string),
       g, [Select (QUsuarioById o); Select (QUsuarioById d);
           SNombreCompleto o; SNombreCompleto d; SConexionExists o d])
    else
      (Return {| cc_status_code := 200;
                 cc_message := ("Conexión creada exitosamente entre " ++ fmt (full_name g o)
                                ++ " y " ++ fmt (full_name g d))%string;
                 cc_conexion :=
                   {| ci_id_usuario_origen := o;
                      ci_usuario_origen := fmt (full_name g o);
                      ci_id_usuario_destino := d;
                      ci_usuario_destino := fmt (full_name g d) |} |},
       add_edges g (map (fun _ => (o, d)) (list_prod (with_id g o) (with_id g d))),
       [Select (QUsuarioById o); Select (QUsuarioById d);
        SNombreCompleto o; SNombreCompleto d; SConexionExists o d; SCreateConexion o d]).
Proof.
  unfold run, create_conexion, try_except. cbn [dto id_usuario_origen id_usuario_destino].
  change {| committed := g; working := g; sent := [] |} with (at_rest g []).
  destruct (o =? d); [reflexivity|].
  unfold bind at 1. rewrite find_by_id_at_rest.
  destruct (has_usuario g o) eqn:Ho; cbn [negb];
    [|apply has_usuario_none in Ho; rewrite Ho; reflexivity].
  destruct (proj1 (has_usuario_find g o) Ho) as [uo Huo]. rewrite Huo.
  unfold bind at 1. rewrite find_by_id_at_rest.
  destruct (has_usuario g d) eqn:Hd; cbn [negb];
    [|apply has_usuario_none in Hd; rewrite Hd; reflexivity].
  destruct (proj1 (has_usuario_find g d) Hd) as [ud Hud]. rewrite Hud.
  unfold bind at 1. rewrite nombre_completo_at_rest.
  unfold bind at 1. rewrite nombre_completo_at_rest.
  unfold bind at 1. rewrite conexion_exists_at_rest.
  destruct (connected g o d); [reflexivity|].
  unfold bind at 1. rewrite create_conexion_at_rest, Ho, Hd. cbn [andb].
  destruct (full_name_some g o Ho) as [no Hno].
  destruct (full_name_some g d Hd) as [nd Hnd]. rewrite Hno, Hnd.
  reflexivity.
Qed.

Lemma delete_conexion_run g o d :
  run (delete_conexion vt o d) g
  = if o =? d then
      (Throw (http 400 "No se puede eliminar una conexión del usuario consigo mismo"), g, [])
    else if negb (has_usuario g o) then
      (Throw (http 404 ("Usuario origen con ID " ++ str_of_int o ++ " no encontrado")%string),
       g, [Select (QUsuarioById o)])
    else if negb (has_usuario g d) then
      (Throw (http 404 ("Usuario destino con ID " ++ str_of_int d ++ " no encontrado")%string),
       g, [Select (QUsuarioById o); Select (QUsuarioById d)])
    else if connected g o d then
      (Return {| cd_status_code := 200;
                 cd_message := ("Conexión eliminada exitosamente entre " ++
                                fmt (full_name g o) ++ " y " ++ fmt (full_name g d))%string |},
       remove_edges g o d,
       [Select (QUsuarioById o); Select (QUsuarioById d);
        SNombreCompleto o; SNombreCompleto d; SConexionExists o d; SDeleteConexion o d])
    else
      (Throw (http 404 ("La conexión entre " ++ fmt (full_name g o) ++ " y " ++
                        fmt (full_name g d) ++ " no existe")%string),
       g, [Select (QUsuarioById o); Select (QUsuarioById d);
           SNombreCompleto o; SNombreCompleto d; SConexionExists o d]).
Proof.
  unfold run, delete_conexion, try_except.
  change {| committed := g; working := g; sent := [] |} with (at_rest g []).
  destruct (o =? d); [reflexivity|].
  unfold bind at 1. rewrite find_by_id_at_rest.
  destruct (has_usuario g o) eqn:Ho; cbn [negb];
    [|apply has_usuario_none in Ho; rewrite Ho; reflexivity].
  destruct (proj1 (has_usuario_find g o) Ho) as [uo Huo]. rewrite Huo.
  unfold bind at 1. rewrite find_by_id_at_rest.
  destruct (has_usuario g d) eqn:Hd; cbn [negb];
    [|apply has_usuario_none in Hd; rewrite Hd; reflexivity].
  destruct (proj1 (has_usuario_find g d) Hd) as [ud Hud]. rewrite Hud.
  unfold bind at 1. rewrite nombre_completo_at_rest.
  unfold bind at 1. rewrite nombre_completo_at_rest.
  unfold bind at 1. rewrite delete_conexion_at_rest.
  destruct (connected g o d); reflexivity.
Qed.

Lemma delete_usuario_run g id :
  run (delete_usuario vt id) g
  = if has_usuario g id then
      (Return {| dr_message := ("Usuario con ID " ++ str_of_int id ++
                                " eliminado exitosamente (incluidas todas sus relaciones)")%string |},
       remove_usuario g id,
       [Select (QUsuarioById id); Select (QUsuarioById id); SDetachDelete id])
    else
      (Throw (http 404 ("Usuario con ID " ++ str_of_int id ++ " no encontrado")%string),
       g, [Select (QUsuarioById id)]).
Proof.
  unfold run, delete_usuario.
  change {| committed := g; working := g; sent := [] |} with (at_rest g []).
  unfold bind at 1. rewrite find_by_id_at_rest.
  destruct (has_usuario g id) eqn:H;
    [|apply has_usuario_none in H; rewrite H; reflexivity].
  destruct (proj1 (has_usuario_find g id) H) as [u Hu]. rewrite Hu.
  unfold try_except. unfold bind at 1. rewrite delete_at_rest, H. reflexivity.
Qed.

End Requests.

(** *** Edges and the graph *)

Lemma connected_in g o d :
  connected g o d = true <->
  has_usuario g o = true /\ has_usuario g d = true /\ In (o, d) (conectado g).
Proof.
  unfold connected. rewrite !andb_true_iff, existsb_exists. split.
  - intros [[Ho Hd] ([a b] & Hin & He)]. simpl in He.
    apply andb_prop in He as [Ha Hb]. apply Z.eqb_eq in Ha, Hb. subst. auto.
  - intros (Ho & Hd & Hin). split; [auto|]. exists (o, d). simpl.
    now rewrite !Z.eqb_refl.
Qed.

Lemma not_connected g o d :
  has_usuario g o = true -> has_usuario g d = true ->
  ~ In (o, d) (conectado g) -> connected g o d = false.
Proof.
  intros Ho Hd Hn. destruct (connected g o d) eqn:E; [|reflexivity].
  apply connected_in in E as (_ & _ & Hin). contradiction.
Qed.

Lemma one_pair g o d :
  NoDup (map id_usuario (usuarios g)) ->
  has_usuario g o = true -> has_usuario g d = true ->
  map (fun _ : Usuario * Usuario => (o, d)) (list_prod (with_id g o) (with_id g d))
  = [(o, d)].
Proof.
  intros Hn Ho Hd.
  destruct (with_id_single g o Hn Ho) as (uo & -> & _).
  destruct (with_id_single g d Hn Hd) as (ud & -> & _). reflexivity.
Qed.

Lemma in_remove_edges g o d e :
  In e (conectado (remove_edges g o d)) <-> In e (conectado g) /\ e <> (o, d).
Proof.
  unfold remove_edges. cbn [conectado]. rewrite filter_In. destruct e as [a b]. simpl.
  rewrite negb_true_iff, andb_false_iff, !Z.eqb_neq. split.
  - intros [H [Ha|Hb]]; (split; [exact H|]); intros [= -> ->]; contradiction.
  - intros [H Hne]. split; [exact H|].
    destruct (Z.eq_dec a o) as [->|Ha]; [|now left]. right. intros ->. now apply Hne.
Qed.

Lemma has_usuario_remove g id a :
  has_usuario (remove_usuario g id) a = has_usuario g a && negb (a =? id).
Proof.
  unfold has_usuario, remove_usuario. cbn [usuarios].
  induction (usuarios g) as [|u us IH]; [reflexivity|]. cbn [filter existsb].
  destruct (Z.eqb_spec (id_usuario u) id) as [E|E]; cbn [negb].
  - rewrite IH. destruct (Z.eqb_spec (id_usuario u) a) as [E'|E']; cbn [orb]; [|reflexivity].
    assert (Ha : (a =? id) = true) by (apply Z.eqb_eq; congruence).
    rewrite Ha. cbn [negb]. now rewrite !andb_false_r.
  - cbn [existsb]. rewrite IH.
    destruct (Z.eqb_spec (id_usuario u) a) as [E'|E']; cbn [orb]; [|reflexivity].
    assert (Ha : (a =? id) = false) by (apply Z.eqb_neq; congruence).
    rewrite Ha. reflexivity.
Qed.

Lemma filter_none {A} (p : A -> bool) l :
  (forall x, In x l -> p x = false) -> filter p l = [].
Proof.
  induction l as [|a l IH]; intros H; [reflexivity|]. simpl.
  rewrite (H a (or_introl eq_refl)). apply IH. intros x Hx. apply H. now right.
Qed.

(** Removing the edge just added gives the graph back. *)
Lemma remove_added g o d :
  ~ In (o, d) (conectado g) -> remove_edges (add_edges g [(o, d)]) o d = g.
Proof.
  intros Hn. unfold remove_edges, add_edges. cbn [usuarios hobbies conectado tiene_hobby].
  rewrite filter_app. cbn [filter fst snd]. rewrite !Z.eqb_refl. cbn [andb negb].
  rewrite List.app_nil_r, ConnectionProperties.filter_all; [destruct g; reflexivity|].
  intros [a b] Hin. simpl. apply negb_true_iff, andb_false_iff.
  destruct (Z.eqb_spec a o) as [->|]; [|now left]. right. apply Z.eqb_neq.
  intros ->. contradiction.
Qed.

(** *** The invariant *)

Lemma simple_add g o d :
  simple_graph g -> has_usuario g o = true -> has_usuario g d = true ->
  o <> d -> ~ In (o, d) (conectado g) ->
  simple_graph (add_edges g [(o, d)]).
Proof.
  intros ((Hu & Hh & He) & Hnd & Hl) Ho Hd Hod Hn. unfold simple_graph, wf_graph, add_edges.
  cbn [usuarios hobbies conectado]. split; [split; [exact Hu|split; [exact Hh|]]|split].
  - intros a b Hin. apply in_app_iff in Hin as [Hin|[[= <- <-]|[]]]; [apply He, Hin|].
    unfold has_usuario in *. cbn [usuarios]. auto.
  - apply NoDup_app; [exact Hnd|repeat constructor; intros []|].
    intros e Hin [<-|[]]. contradiction.
  - intros a Hin. apply in_app_iff in Hin as [Hin|[[= <- <-]|[]]]; [apply (Hl a Hin)|].
    now apply Hod.
Qed.

Lemma simple_remove_edges g o d : simple_graph g -> simple_graph (remove_edges g o d).
Proof.
  intros ((Hu & Hh & He) & Hnd & Hl). unfold simple_graph, wf_graph.
  split; [split; [exact Hu|split; [exact Hh|]]|split].
  - intros a b Hin. apply in_remove_edges in Hin as [Hin _]. apply (He a b Hin).
  - apply NoDup_filter, Hnd.
  - intros a Hin. apply in_remove_edges in Hin as [Hin _]. apply (Hl a Hin).
Qed.

Lemma simple_remove_usuario g id : simple_graph g -> simple_graph (remove_usuario g id).
Proof.
  intros ((Hu & Hh & He) & Hnd & Hl). unfold simple_graph, wf_graph.
  split; [split; [|split; [exact Hh|]]|split].
  - apply CommunityFacts.filter_keys, Hu.
  - intros a b Hin. cbn [remove_usuario conectado] in Hin.
    apply filter_In in Hin as [Hin Hab]. simpl in Hab.
    apply andb_prop in Hab as [Ha Hb]. destruct (He a b Hin) as [Hua Hub].
    rewrite !has_usuario_remove, Hua, Hub, Ha, Hb. auto.
  - apply NoDup_filter, Hnd.
  - intros a Hin. cbn [remove_usuario conectado] in Hin.
    apply filter_In in Hin as [Hin _]. apply (Hl a Hin).
Qed.

Lemma after_cases vt req g :
  after vt req g = g \/
  (exists o d, req = CreateConexion o d /\ o <> d /\
               has_usuario g o = true /\ has_usuario g d = true /\
               ~ In (o, d) (conectado g) /\
               after vt req g
               = add_edges g (map (fun _ => (o, d)) (list_prod (with_id g o) (with_id g d)))) \/
  (exists o d, req = DeleteConexion o d /\ after vt req g = remove_edges g o d) \/
  (exists id, req = DeleteUsuario id /\ after vt req g = remove_usuario g id).
Proof.
  destruct req as [o d|o d|id]; unfold after.
  - rewrite create_conexion_run.
    destruct (Z.eqb_spec o d); [now left|].
    destruct (has_usuario g o) eqn:Ho; cbn [negb]; [|now left].
    destruct (has_usuario g d) eqn:Hd; cbn [negb]; [|now left].
    destruct (connected g o d) eqn:Ec; [now left|].
    right. left. exists o, d. split; [reflexivity|]. split; [assumption|].
    split; [auto|]. split; [auto|]. split; [|reflexivity].
    intros Hin. assert (connected g o d = true) by (apply connected_in; auto). congruence.
  - rewrite delete_conexion_run.
    destruct (o =? d); [now left|].
    destruct (has_usuario g o); cbn [negb]; [|now left].
    destruct (has_usuario g d); cbn [negb]; [|now left].
    destruct (connected g o d); [|now left].
    right. right. left. exists o, d. auto.
  - rewrite delete_usuario_run.
    destruct (has_usuario g id); [|now left].
    right. right. right. exists id. auto.
Qed.

(** X21. The requests that create and delete connections and delete users keep
    the graph simple: from a graph with unique user and hobby ids, every
    CONECTADO edge between two existing users, no edge twice and no loop, any
    sequence of such requests, whatever their arguments and outcomes, leaves a
    graph with the same properties. *)
Theorem requests_keep_simple (vt : string -> string) (reqs : list request) (g : Graph) :
  simple_graph g ->
  simple_graph (fold_left (fun g req => after vt req g) reqs g).
Proof.
  revert g. induction reqs as [|req reqs IH]; intros g Hs; [exact Hs|].
  cbn [fold_left]. apply IH.
  destruct (after_cases vt req g)
    as [->|[(o & d & _ & Hod & Ho & Hd & Hn & ->)|[(o & d & _ & ->)|(id & _ & ->)]]].
  - exact Hs.
  - pose proof Hs as ((Hu & _) & _). rewrite (one_pair g o d Hu Ho Hd).
    apply simple_add; assumption.
  - apply simple_remove_edges, Hs.
  - apply simple_remove_usuario, Hs.
Qed.

Lemma requests_keep_simple_witness :
  simple_graph
    (fold_left (fun g req => after (fun f => f) req g)
               [CreateConexion 5 1; CreateConexion 5 1; CreateConexion 2 2;
                DeleteConexion 1 2; DeleteUsuario 3; DeleteUsuario 3] fan).
Proof.
  apply (requests_keep_simple (fun f => f)), ConnectionProperties.simple_graph_fan.
Defined.

(** *** Creating a connection *)

Lemma create_conexion_conflict vt g o d :
  o <> d -> has_usuario g o = true -> has_usuario g d = true ->
  In (o, d) (conectado g) ->
  run (create_conexion vt (dto o d)) g
  = (Throw (http 409 ("La conexión entre " ++ fmt (full_name g o) ++ " y " ++
                      fmt (full_name g d) ++ " ya existe")%string),
     g, [Select (QUsuarioById o); Select (QUsuarioById d);
         SNombreCompleto o; SNombreCompleto d; SConexionExists o d]).
Proof.
  intros Hod Ho Hd Hin. rewrite create_conexion_run, Ho, Hd.
  destruct (Z.eqb_spec o d); [contradiction|]. cbn [negb].
  rewrite (proj2 (connected_in g o d)) by auto. reflexivity.
Qed.

(** X22. A request to create a connection is refused, and the graph left as it
    was, in four cases, checked in this order: origin and destination are the
    same user (400, nothing sent to the store); the origin does not exist (404
    after its lookup); the destination does not exist (404 after the two
    lookups); the connection is already there (409, after the two names and
    the existence check were fetched). *)
Theorem create_conexion_rejections (vt : string -> string) (g : Graph) (o d : Z) :
  (o = d ->
   run (create_conexion vt (dto o d)) g
   = (Throw (http 400 "No se puede crear una conexión del usuario consigo mismo"), g, [])) /\
  (o <> d -> has_usuario g o = false ->
   run (create_conexion vt (dto o d)) g
   = (Throw (http 404 ("Usuario origen con ID " ++ str_of_int o ++ " no encontrado")%string),
      g, [Select (QUsuarioById o)])) /\
  (o <> d -> has_usuario g o = true -> has_usuario g d = false ->
   run (create_conexion vt (dto o d)) g
   = (Throw (http 404 ("Usuario destino con ID " ++ str_of_int d ++ " no encontrado")%string),
      g, [Select (QUsuarioById o); Select (QUsuarioById d)])) /\
  (o <> d -> has_usuario g o = true -> has_usuario g d = true ->
   In (o, d) (conectado g) ->
   run (create_conexion vt (dto o d)) g
   = (Throw (http 409 ("La conexión entre " ++ fmt (full_name g o) ++ " y " ++
                       fmt (full_name g d) ++ " ya existe")%string),
      g, [Select (QUsuarioById o); Select (QUsuarioById d);
          SNombreCompleto o; SNombreCompleto d; SConexionExists o d])).
Proof.
  split; [|split; [|split]].
  - intros ->. rewrite create_conexion_run, Z.eqb_refl. reflexivity.
  - intros Hod Ho. rewrite create_conexion_run, Ho.
    destruct (Z.eqb_spec o d); [contradiction|reflexivity].
  - intros Hod Ho Hd. rewrite create_conexion_run, Ho, Hd.
    destruct (Z.eqb_spec o d); [contradiction|reflexivity].
  - apply create_conexion_conflict.
Qed.

Lemma create_conexion_rejections_witness :
  run (create_conexion (fun f => f) (dto 2 2)) fan
  = (Throw (http 400 "No se puede crear una conexión del usuario consigo mismo"), fan, []) /\
  run (create_conexion (fun f => f) (dto 9 2)) fan
  = (Throw (http 404 "Usuario origen con ID 9 no encontrado"), fan, [Select (QUsuarioById 9)]) /\
  run (create_conexion (fun f => f) (dto 2 9)) fan
  = (Throw (http 404 "Usuario destino con ID 9 no encontrado"), fan,
     [Select (QUsuarioById 2); Select (QUsuarioById 9)]) /\
  run (create_conexion (fun f => f) (dto 1 2)) fan
  = (Throw (http 409 "La conexión entre Ana Ruiz y Luis Gil ya existe"), fan,
     [Select (QUsuarioById 1); Select (QUsuarioById 2);
      SNombreCompleto 1; SNombreCompleto 2; SConexionExists 1 2]).
Proof.
  split; [apply (proj1 (create_conexion_rejections (fun f => f) fan 2 2)); reflexivity|].
  split; [apply (proj1 (proj2 (create_conexion_rejections (fun f => f) fan 9 2)));
          [discriminate|reflexivity]|].
  split; [apply (proj1 (proj2 (proj2 (create_conexion_rejections (fun f => f) fan 2 9))));
          [discriminate|reflexivity|reflexivity]|].
  apply (proj2 (proj2 (proj2 (create_conexion_rejections (fun f => f) fan 1 2))));
    [discriminate|reflexivity|reflexivity|simpl; auto].
Defined.

Lemma create_conexion_ok vt g o d :
  NoDup (map id_usuario (usuarios g)) ->
  o <> d -> has_usuario g o = true -> has_usuario g d = true ->
  ~ In (o, d) (conectado g) ->
  run (create_conexion vt (dto o d)) g
  = (Return {| cc_status_code := 200;
               cc_message := ("Conexión creada exitosamente entre " ++ fmt (full_name g o)
                              ++ " y " ++ fmt (full_name g d))%string;
               cc_conexion :=
                 {| ci_id_usuario_origen := o;
                    ci_usuario_origen := fmt (full_name g o);
                    ci_id_usuario_destino := d;
                    ci_usuario_destino := fmt (full_name g d) |} |},
     add_edges g [(o, d)],
     [Select (QUsuarioById o); Select (QUsuarioById d);
      SNombreCompleto o; SNombreCompleto d; SConexionExists o d; SCreateConexion o d]).
Proof.
  intros Hn Hod Ho Hd Hin. rewrite create_conexion_run, Ho, Hd.
  destruct (Z.eqb_spec o d); [contradiction|]. cbn [negb].
  rewrite (not_connected g o d Ho Hd Hin), (one_pair g o d Hn Ho Hd). reflexivity.
Qed.

(** X23. When user ids are unique, a request to connect two distinct existing
    users not yet connected in that direction succeeds with status 200 and the
    two ids and names; it leaves the graph with exactly one more edge, from
    origin to destination, after the edges it had, and nothing else changed;
    and the same request sent again is answered 409 and changes nothing. *)
Theorem create_conexion_adds_edge (vt : string -> string) (g : Graph) (o d : Z) :
  NoDup (map id_usuario (usuarios g)) ->
  o <> d -> has_usuario g o = true -> has_usuario g d = true ->
  ~ In (o, d) (conectado g) ->
  exists r g',
    run (create_conexion vt (dto o d)) g
    = (Return r, g',
       [Select (QUsuarioById o); Select (QUsuarioById d);
        SNombreCompleto o; SNombreCompleto d; SConexionExists o d; SCreateConexion o d]) /\
    cc_status_code r = 200 /\
    ci_id_usuario_origen (cc_conexion r) = o /\
    ci_id_usuario_destino (cc_conexion r) = d /\
    full_name g o = Some (ci_usuario_origen (cc_conexion r)) /\
    full_name g d = Some (ci_usuario_destino (cc_conexion r)) /\
    usuarios g' = usuarios g /\ hobbies g' = hobbies g /\
    tiene_hobby g' = tiene_hobby g /\
    conectado g' = conectado g ++ [(o, d)] /\
    exists detail,
      run (create_conexion vt (dto o d)) g'
      = (Throw (http 409 detail), g',
         [Select (QUsuarioById o); Select (QUsuarioById d);
          SNombreCompleto o; SNombreCompleto d; SConexionExists o d]).
Proof.
  intros Hn Hod Ho Hd Hin. eexists _, _.
  split; [apply create_conexion_ok; assumption|].
  cbn [cc_status_code cc_conexion ci_id_usuario_origen ci_id_usuario_destino
       ci_usuario_origen ci_usuario_destino add_edges usuarios hobbies tiene_hobby conectado].
  destruct (full_name_some g o Ho) as [no Hno].
  destruct (full_name_some g d Hd) as [nd Hnd]. rewrite Hno, Hnd. cbn [fmt].
  repeat (split; [reflexivity|]).
  eexists.
  apply (create_conexion_conflict vt (add_edges g [(o, d)]) o d).
  - exact Hod.
  - exact Ho.
  - exact Hd.
  - cbn [add_edges conectado]. apply in_app_iff. right. now left.
Qed.

Lemma create_conexion_adds_edge_witness :
  exists r g',
    run (create_conexion (fun f => f) (dto 5 1)) fan
    = (Return r, g',
       [Select (QUsuarioById 5); Select (QUsuarioById 1);
        SNombreCompleto 5; SNombreCompleto 1; SConexionExists 5 1; SCreateConexion 5 1]) /\
    cc_status_code r = 200 /\
    ci_id_usuario_origen (cc_conexion r) = 5 /\
    ci_id_usuario_destino (cc_conexion r) = 1 /\
    full_name fan 5 = Some (ci_usuario_origen (cc_conexion r)) /\
    full_name fan 1 = Some (ci_usuario_destino (cc_conexion r)) /\
    usuarios g' = usuarios fan /\ hobbies g' = hobbies fan /\
    tiene_hobby g' = tiene_hobby fan /\
    conectado g' = conectado fan ++ [(5, 1)] /\
    exists detail,
      run (create_conexion (fun f => f) (dto 5 1)) g'
      = (Throw (http 409 detail), g',
         [Select (QUsuarioById 5); Select (QUsuarioById 1);
          SNombreCompleto 5; SNombreCompleto 1; SConexionExists 5 1]).
Proof.
  apply (create_conexion_adds_edge (fun f => f) fan 5 1).
  - repeat constructor; simpl; intuition discriminate.
  - discriminate.
  - reflexivity.
  - reflexivity.
  - simpl. intros H.
    repeat (destruct H as [H|H]; [discriminate H|]). destruct H.
Defined.

(** X24. A connection created and then deleted leaves the graph exactly as it
    was. *)
Theorem create_delete_round_trip (vt : string -> string) (g : Graph) (o d : Z) :
  NoDup (map id_usuario (usuarios g)) ->
  o <> d -> has_usuario g o = true -> has_usuario g d = true ->
  ~ In (o, d) (conectado g) ->
  exists r g' log r' log',
    run (create_conexion vt (dto o d)) g = (Return r, g', log) /\
    run (delete_conexion vt o d) g' = (Return r', g, log').
Proof.
  intros Hn Hod Ho Hd Hin. eexists _, _, _, _, _.
  split; [apply create_conexion_ok; assumption|].
  rewrite delete_conexion_run.
  destruct (Z.eqb_spec o d); [contradiction|].
  change (has_usuario (add_edges g [(o, d)]) o) with (has_usuario g o).
  change (has_usuario (add_edges g [(o, d)]) d) with (has_usuario g d).
  rewrite Ho, Hd. cbn [negb].
  rewrite (proj2 (connected_in (add_edges g [(o, d)]) o d)).
  - rewrite (remove_added g o d Hin). reflexivity.
  - split; [exact Ho|]. split; [exact Hd|].
    cbn [add_edges conectado]. apply in_app_iff. right. now left.
Qed.

Lemma create_delete_round_trip_witness :
  exists r g' log r' log',
    run (create_conexion (fun f => f) (dto 5 1)) fan = (Return r, g', log) /\
    run (delete_conexion (fun f => f) 5 1) g' = (Return r', fan, log').
Proof.
  apply (create_delete_round_trip (fun f => f) fan 5 1).
  - repeat constructor; simpl; intuition discriminate.
  - discriminate.
  - reflexivity.
  - reflexivity.
  - simpl. intros H.
    repeat (destruct H as [H|H]; [discriminate H|]). destruct H.
Defined.

(** *** Deleting a connection *)

(** X25. A request to delete a connection is refused, and the graph left as it
    was, when origin and destination are the same user (400, nothing sent),
    when one of them does not exist (404), and when no edge leads from the
    origin to the destination (404). Otherwise it succeeds with status 200 and
    removes the edges from origin to destination and nothing else: every other
    edge, the one from destination to origin included, stays. *)
Theorem delete_conexion_outcomes (vt : string -> string) (g : Graph) (o d : Z) :
  (o = d ->
   run (delete_conexion vt o d) g
   = (Throw (http 400 "No se puede eliminar una conexión del usuario consigo mismo"),
      g, [])) /\
  (o <> d -> has_usuario g o = false ->
   run (delete_conexion vt o d) g
   = (Throw (http 404 ("Usuario origen con ID " ++ str_of_int o ++ " no encontrado")%string),
      g, [Select (QUsuarioById o)])) /\
  (o <> d -> has_usuario g o = true -> has_usuario g d = false ->
   run (delete_conexion vt o d) g
   = (Throw (http 404 ("Usuario destino con ID " ++ str_of_int d ++ " no encontrado")%string),
      g, [Select (QUsuarioById o); Select (QUsuarioById d)])) /\
  (o <> d -> has_usuario g o = true -> has_usuario g d = true ->
   ~ In (o, d) (conectado g) ->
   run (delete_conexion vt o d) g
   = (Throw (http 404 ("La conexión entre " ++ fmt (full_name g o) ++ " y " ++
                       fmt (full_name g d) ++ " no existe")%string),
      g, [Select (QUsuarioById o); Select (QUsuarioById d);
          SNombreCompleto o; SNombreCompleto d; SConexionExists o d])) /\
  (o <> d -> has_usuario g o = true -> has_usuario g d = true ->
   In (o, d) (conectado g) ->
   exists r g',
     run (delete_conexion vt o d) g
     = (Return r, g',
        [Select (QUsuarioById o); Select (QUsuarioById d);
         SNombreCompleto o; SNombreCompleto d; SConexionExists o d; SDeleteConexion o d]) /\
     cd_status_code r = 200 /\
     usuarios g' = usuarios g /\ hobbies g' = hobbies g /\
     tiene_hobby g' = tiene_hobby g /\
     (forall e, In e (conectado g') <-> In e (conectado g) /\ e <> (o, d))).
Proof.
  split; [|split; [|split; [|split]]].
  - intros ->. rewrite delete_conexion_run, Z.eqb_refl. reflexivity.
  - intros Hod Ho. rewrite delete_conexion_run, Ho.
    destruct (Z.eqb_spec o d); [contradiction|reflexivity].
  - intros Hod Ho Hd. rewrite delete_conexion_run, Ho, Hd.
    destruct (Z.eqb_spec o d); [contradiction|reflexivity].
  - intros Hod Ho Hd Hin. rewrite delete_conexion_run, Ho, Hd.
    destruct (Z.eqb_spec o d); [contradiction|]. cbn [negb].
    rewrite (not_connected g o d Ho Hd Hin). reflexivity.
  - intros Hod Ho Hd Hin. rewrite delete_conexion_run, Ho, Hd.
    destruct (Z.eqb_spec o d); [contradiction|]. cbn [negb].
    rewrite (proj2 (connected_in g o d)) by auto.
    eexists _, _. split; [reflexivity|]. cbn [cd_status_code].
    split; [reflexivity|]. split; [reflexivity|]. split; [reflexivity|].
    split; [reflexivity|]. intros e. apply in_remove_edges.
Qed.

Lemma delete_conexion_outcomes_witness :
  run (delete_conexion (fun f => f) 2 2) mutual
  = (Throw (http 400 "No se puede eliminar una conexión del usuario consigo mismo"),
     mutual, []) /\
  run (delete_conexion (fun f => f) 9 2) mutual
  = (Throw (http 404 "Usuario origen con ID 9 no encontrado"), mutual,
     [Select (QUsuarioById 9)]) /\
  run (delete_conexion (fun f => f) 2 9) mutual
  = (Throw (http 404 "Usuario destino con ID 9 no encontrado"), mutual,
     [Select (QUsuarioById 2); Select (QUsuarioById 9)]) /\
  run (delete_conexion (fun f => f) 1 3) mutual
  = (Throw (http 404 "La conexión entre Ana Ruiz y Eva Sanz no existe"), mutual,
     [Select (QUsuarioById 1); Select (QUsuarioById 3);
      SNombreCompleto 1; SNombreCompleto 3; SConexionExists 1 3]) /\
  (exists r g',
     run (delete_conexion (fun f => f) 1 2) mutual
     = (Return r, g',
        [Select (QUsuarioById 1); Select (QUsuarioById 2);
         SNombreCompleto 1; SNombreCompleto 2; SConexionExists 1 2; SDeleteConexion 1 2]) /\
     cd_status_code r = 200 /\
     usuarios g' = usuarios mutual /\ hobbies g' = hobbies mutual /\
     tiene_hobby g' = tiene_hobby mutual /\
     (forall e, In e (conectado g') <-> In e (conectado mutual) /\ e <> (1, 2))).
Proof.
  pose proof (delete_conexion_outcomes (fun f => f) mutual) as H.
  split; [apply (proj1 (H 2 2)); reflexivity|].
  split; [apply (proj1 (proj2 (H 9 2))); [discriminate|reflexivity]|].
  split; [apply (proj1 (proj2 (proj2 (H 2 9)))); [discriminate|reflexivity|reflexivity]|].
  split; [apply (proj1 (proj2 (proj2 (proj2 (H 1 3)))));
          [discriminate|reflexivity|reflexivity|]|].
  - simpl. intros K. repeat (destruct K as [K|K]; [discriminate K|]). destruct K.
  - apply (proj2 (proj2 (proj2 (proj2 (H 1 2)))));
      [discriminate|reflexivity|reflexivity|simpl; auto].
Defined.

(** *** Deleting a user *)

(** X26. Deleting a user that does not exist is answered 404 after its lookup
    and changes nothing. Deleting an existing user succeeds and cascades: the
    user is gone, every CONECTADO edge that started or ended at it and its
    TIENE_HOBBY edges are gone, every other user and edge and every hobby
    stays; and the same request sent again is answered 404. *)
Theorem delete_usuario_cascade (vt : string -> string) (g : Graph) (id : Z) :
  (has_usuario g id = false ->
   run (delete_usuario vt id) g
   = (Throw (http 404 ("Usuario con ID " ++ str_of_int id ++ " no encontrado")%string),
      g, [Select (QUsuarioById id)])) /\
  (has_usuario g id = true ->
   exists r g',
     run (delete_usuario vt id) g
     = (Return r, g', [Select (QUsuarioById id); Select (QUsuarioById id); SDetachDelete id]) /\
     has_usuario g' id = false /\
     (forall u, In u (usuarios g') <-> In u (usuarios g) /\ id_usuario u <> id) /\
     (forall a b, In (a, b) (conectado g') <->
                  In (a, b) (conectado g) /\ a <> id /\ b <> id) /\
     (forall a h, In (a, h) (tiene_hobby g') <-> In (a, h) (tiene_hobby g) /\ a <> id) /\
     hobbies g' = hobbies g /\
     run (delete_usuario vt id) g'
     = (Throw (http 404 ("Usuario con ID " ++ str_of_int id ++ " no encontrado")%string),
        g', [Select (QUsuarioById id)])).
Proof.
  split.
  - intros H. rewrite delete_usuario_run, H. reflexivity.
  - intros H. eexists _, _. split; [rewrite delete_usuario_run, H; reflexivity|].
    assert (Hgone : has_usuario (remove_usuario g id) id = false).
    { rewrite has_usuario_remove, Z.eqb_refl. cbn [negb]. apply andb_false_r. }
    split; [exact Hgone|]. split; [|split; [|split; [|split]]].
    + intros u. cbn [remove_usuario usuarios]. rewrite filter_In, negb_true_iff, Z.eqb_neq.
      reflexivity.
    + intros a b. cbn [remove_usuario conectado]. rewrite filter_In. cbn [fst snd].
      rewrite andb_true_iff, !negb_true_iff, !Z.eqb_neq. reflexivity.
    + intros a h. cbn [remove_usuario tiene_hobby]. rewrite filter_In. cbn [fst].
      rewrite negb_true_iff, Z.eqb_neq. reflexivity.
    + reflexivity.
    + rewrite delete_usuario_run, Hgone. reflexivity.
Qed.

Lemma delete_usuario_cascade_witness :
  run (delete_usuario (fun f => f) 9) club
  = (Throw (http 404 "Usuario con ID 9 no encontrado"), club, [Select (QUsuarioById 9)]) /\
  (exists r g',
     run (delete_usuario (fun f => f) 2) club
     = (Return r, g', [Select (QUsuarioById 2); Select (QUsuarioById 2); SDetachDelete 2]) /\
     has_usuario g' 2 = false /\
     (forall u, In u (usuarios g') <-> In u (usuarios club) /\ id_usuario u <> 2) /\
     (forall a b, In (a, b) (conectado g') <->
                  In (a, b) (conectado club) /\ a <> 2 /\ b <> 2) /\
     (forall a h, In (a, h) (tiene_hobby g') <-> In (a, h) (tiene_hobby club) /\ a <> 2) /\
     hobbies g' = hobbies club /\
     run (delete_usuario (fun f => f) 2) g'
     = (Throw (http 404 "Usuario con ID 2 no encontrado"), g', [Select (QUsuarioById 2)])).
Proof.
  split.
  - apply (proj1 (delete_usuario_cascade (fun f => f) club 9)). reflexivity.
  - apply (proj2 (delete_usuario_cascade (fun f => f) club 2)). reflexivity.
Defined.

(** *** Writes and reads together *)

(** X27. Once a connection from [o] to [d] has been created, the shortest path
    between them, for any depth bound of at least 1, is that edge: the path
    [o], [d] of length 1. *)
Theorem create_conexion_then_path (vt : string -> string) (g : Graph)
  (o d max_depth : Z) :
  o <> d -> has_usuario g o = true -> has_usuario g d = true ->
  ~ In (o, d) (conectado g) -> 1 <= max_depth ->
  exists r g' log r' log',
    run (create_conexion vt (dto o d)) g = (Return r, g', log) /\
    Store.run (GraphService.get_shortest_path o d max_depth) g' = (Ok r', log') /\
    GraphService.sp_exists r' = true /\
    GraphService.sp_length r' = 1 /\
    map GraphRepository.pn_id (GraphService.sp_path r') = [o; d].
Proof.
  intros Hod Ho Hd Hin Hm.
  set (es := map (fun _ : Usuario * Usuario => (o, d))
                 (list_prod (with_id g o) (with_id g d))).
  assert (Hrun : exists r log,
            run (create_conexion vt (dto o d)) g = (Return r, add_edges g es, log)).
  { rewrite create_conexion_run, Ho, Hd.
    destruct (Z.eqb_spec o d); [contradiction|]. cbn [negb].
    rewrite (not_connected g o d Ho Hd Hin). eauto. }
  destruct Hrun as (r & log & Hrun).
  set (g' := add_edges g es) in *.
  assert (Hedge : In (o, d) (conectado g')).
  { unfold g', es. cbn [add_edges conectado]. apply in_app_iff. right.
    destruct (with_id_cons g o Ho) as (u & us & ->).
    destruct (with_id_cons g d Hd) as (v & vs & ->). now left. }
  assert (Ho' : has_usuario g' o = true) by exact Ho.
  assert (Hd' : has_usuario g' d = true) by exact Hd.
  assert (Hone : match_paths g' o d 1 <> []).
  { assert (Hc : chain g' o d 1).
    { apply (chain_step g' o d d 0); [now left|apply chain_here]. }
    destruct (chain_match g' o d 1 Ho' Hd' Hc) as (n & Hn & Hne).
    destruct n as [|[|n]]; [|exact Hne|lia].
    exfalso. apply Hne. unfold match_paths. rewrite Ho', Hd'. simpl.
    destruct (Z.eqb_spec o d); [contradiction|reflexivity]. }
  destruct (get_shortest_path_run g' o d max_depth Ho' Hd')
    as [(L & vs & rest & HL & Hlow & Hmatch & E)|[Hall E]].
  - assert (L = 1%nat).
    { destruct (le_lt_dec L 1); [lia|]. exfalso. apply Hone, Hlow. lia. }
    subst L.
    assert (Hvs : In vs (match_paths g' o d 1)) by (rewrite Hmatch; now left).
    pose proof (match_paths_length g' o d 1 vs Hvs) as Hlen.
    destruct (match_chain g' o d 1 vs Hvs) as (_ & _ & Hhd & Hlast).
    destruct vs as [|a [|b [|c vs]]]; try discriminate Hlen.
    simpl in Hhd, Hlast. subst a b.
    exists r, g', log. eexists _, _. split; [exact Hrun|]. split; [exact E|].
    split; [reflexivity|]. split; [reflexivity|reflexivity].
  - exfalso. apply Hone, Hall. lia.
Qed.

Lemma create_conexion_then_path_witness :
  exists r g' log r' log',
    run (create_conexion (fun f => f) (dto 5 1)) fan = (Return r, g', log) /\
    Store.run (GraphService.get_shortest_path 5 1 3) g' = (Ok r', log') /\
    GraphService.sp_exists r' = true /\
    GraphService.sp_length r' = 1 /\
    map GraphRepository.pn_id (GraphService.sp_path r') = [5; 1].
Proof.
  apply (create_conexion_then_path (fun f => f) fan 5 1 3).
  - discriminate.
  - reflexivity.
  - reflexivity.
  - simpl. intros H.
    repeat (destruct H as [H|H]; [discriminate H|]). destruct H.
  - lia.
Defined.

End RequestProperties.

Module NextIdProperties.
Import Py Age Store Props PyFacts AgtypeFacts QueryFacts.
Import Tx Notions.

Lemma truthy_str_of_int z : truthy (str_of_int z) = true.
Proof. destruct (str_of_int_cons z) as (c & r & -> & _). reflexivity. Qed.

Lemma head_sorted_desc (l : list Z) :
  match sort_by (fun a b => b <=? a) l with
  | [] => l = []
  | m :: _ => In m l /\ forall x, In x l -> x <= m
  end.
Proof.
  pose proof (sort_by_desc (fun z : Z => z) l) as Hs.
  change (desc_le (fun z : Z => z)) with (fun a b : Z => b <=? a) in Hs.
  pose proof (fun x => in_sort_by (fun a b : Z => b <=? a) x l) as Hin.
  destruct (sort_by (fun a b => b <=? a) l) as [|m s].
  - destruct l as [|x l]; [reflexivity|]. destruct (proj2 (Hin x)). now left.
  - split; [apply Hin; now left|]. intros x Hx. apply Hin in Hx as [->|Hx]; [lia|].
    apply StronglySorted_inv in Hs as [_ Hall]. rewrite Forall_forall in Hall.
    apply (Hall x Hx).
Qed.

(** X28. [get_next_usuario_id] sends one statement, leaves the graph as it is
    and returns an id that no user has: 1 when there is no user, and otherwise
    one more than the largest id in use, so every id in use is below it. *)
Theorem next_id_fresh (g : Graph) :
  exists n,
    run UsuarioRepositoryTx.get_next_usuario_id g = (Return n, g, [SNextId]) /\
    has_usuario g n = false /\
    (forall u, In u (usuarios g) -> id_usuario u < n) /\
    (usuarios g = [] -> n = 1) /\
    (usuarios g <> [] -> exists u, In u (usuarios g) /\ n = id_usuario u + 1).
Proof.
  assert (Hfresh : forall n, (forall u, In u (usuarios g) -> id_usuario u < n) ->
                             has_usuario g n = false).
  { intros n Hn. unfold has_usuario. apply not_true_is_false. intros H.
    apply existsb_exists in H as (u & Hu & E). apply Z.eqb_eq in E.
    specialize (Hn u Hu). lia. }
  pose proof (head_sorted_desc (map id_usuario (usuarios g))) as Hh.
  unfold run, UsuarioRepositoryTx.get_next_usuario_id, with_cursor, bind, execute,
    next_id_stmt.
  cbn [working committed sent].
  destruct (sort_by (fun a b => b <=? a) (map id_usuario (usuarios g))) as [|m s].
  - apply map_eq_nil in Hh. exists 1. cbn.
    split; [reflexivity|]. split; [apply Hfresh; rewrite Hh; intros u []|].
    split; [rewrite Hh; intros u []|].
    split; [reflexivity|]. intros H. now destruct H.
  - destruct Hh as [Hm Hmax]. exists (m + 1).
    cbn [firstn map hd_error ni_id_usuario]. unfold agtype_int at 1.
    cbn [field_truthy]. rewrite truthy_str_of_int.
    fold (agtype_int m). unfold lift. rewrite int_field_int.
    cbn [ret working committed sent app].
    assert (Hlt : forall u, In u (usuarios g) -> id_usuario u < m + 1).
    { intros u Hu. specialize (Hmax (id_usuario u) (in_map _ _ _ Hu)). lia. }
    split; [reflexivity|]. split; [apply Hfresh, Hlt|]. split; [exact Hlt|]. split.
    + intros E. rewrite E in Hm. destruct Hm.
    + intros _. apply in_map_iff in Hm as (u & <- & Hu). eauto.
Qed.

End NextIdProperties.
